(** * TrafficSentinel: the reconciliation engine of [traffic_sentinel.py]

    A shallow embedding of the network scan adapter, the policy registry,
    the Freebox enforcement client and the main reconciliation loop,
    followed by the properties established about them.

    Conventions of the embedding.
    - Python [str] values are [string]s of 7-bit characters; codes above 127
      are kept as opaque, caseless, non-blank characters.
    - Parsed JSON values are the inductive [json]; a Python [dict] obtained
      from JSON is an association list in insertion order (a real dict has
      no repeated key); JSON numbers are integers.
    - Every Python exception that the source catches with [except Exception]
      is a value of [exn]; operations that can raise return [exn + A].
    - The gateway (the Freebox) is external: the client is written against an
      arbitrary request handler [handle : W -> request -> W * reply]; HMAC
      is a parameter.
    - The [mac_addresses] table is a finite map from MAC to row; its [status]
      column is the enumeration that the [CHECK] constraint admits, or
      [NULL]. Failures of sqlite itself and writes by other processes are
      not modelled.
    - A run yields the trace of its observable steps: calls of [requests],
      registry writes, alerts, the drift warnings, and the entry into the
      enforcement operations. Other log lines are left out.
    - The start-up of the client (discovery, credential file, connection
      test) and the routes of [web_interface.py] are modelled on top of the
      client: the files are a finite map from path to content, which paths
      can be opened is a parameter, and the start-up requests are recorded
      in the state. *)

From Stdlib Require Import ZArith String Ascii List Bool Lia.
From stdpp Require Import base option list gmap strings fin_maps pretty.
Import ListNotations.
Local Open Scope string_scope.
Local Open Scope list_scope.
Set Warnings "-register-all,-clear-no-such-hyp".

(** ** Python string primitives *)

Module Py.

Definition is_upper (c : ascii) : bool :=
  let n := nat_of_ascii c in (65 <=? n)%nat && (n <=? 90)%nat.

Definition is_lower (c : ascii) : bool :=
  let n := nat_of_ascii c in (97 <=? n)%nat && (n <=? 122)%nat.

Definition lower_char (c : ascii) : ascii :=
  if is_upper c then ascii_of_nat (nat_of_ascii c + 32) else c.

Definition upper_char (c : ascii) : ascii :=
  if is_lower c then ascii_of_nat (nat_of_ascii c - 32) else c.

(** [str.lower()] and [str.upper()]. *)
Fixpoint lower (s : string) : string :=
  match s with
  | EmptyString => EmptyString
  | String c r => String (lower_char c) (lower r)
  end.

Fixpoint upper (s : string) : string :=
  match s with
  | EmptyString => EmptyString
  | String c r => String (upper_char c) (upper r)
  end.

(** [sub in s] for a one-character [sub]. *)
Fixpoint contains (c : ascii) (s : string) : bool :=
  match s with
  | EmptyString => false
  | String d r => if Ascii.eqb c d then true else contains c r
  end.

(** [s.split(sep)] for a one-character separator: always at least one
    piece, one more than the number of separators. The accumulator holds the
    current piece. *)
Fixpoint split_on_go (sep : ascii) (acc : string) (s : string) : list string :=
  match s with
  | EmptyString => [acc]
  | String c r =>
      if Ascii.eqb c sep then acc :: split_on_go sep EmptyString r
      else split_on_go sep (acc ++ String c EmptyString) r
  end.

Definition split_on (sep : ascii) (s : string) : list string :=
  split_on_go sep EmptyString s.

(** Characters on which [str.split()] (no argument) separates: tab, line
    feed, vertical tab, form feed, carriage return, the four ASCII
    separators 28 to 31, and the space. *)
Definition is_space (c : ascii) : bool :=
  let n := nat_of_ascii c in
  ((9 <=? n)%nat && (n <=? 13)%nat) || ((28 <=? n)%nat && (n <=? 32)%nat).

(** [s.split()]: maximal runs of non-blank characters. *)
Fixpoint split_ws_go (acc : string) (s : string) : list string :=
  match s with
  | EmptyString => match acc with EmptyString => [] | _ => [acc] end
  | String c r =>
      if is_space c then
        match acc with
        | EmptyString => split_ws_go EmptyString r
        | _ => acc :: split_ws_go EmptyString r
        end
      else split_ws_go (acc ++ String c EmptyString) r
  end.

Definition split_ws (s : string) : list string := split_ws_go EmptyString s.

(** Line boundaries of [str.splitlines()]: line feed, vertical tab, form
    feed, carriage return (alone or followed by a line feed) and the
    separators 28 to 30. *)
Definition is_linebreak (c : ascii) : bool :=
  let n := nat_of_ascii c in
  ((10 <=? n)%nat && (n <=? 13)%nat) || ((28 <=? n)%nat && (n <=? 30)%nat).

Fixpoint splitlines_go (acc : string) (s : string) : list string :=
  match s with
  | EmptyString => match acc with EmptyString => [] | _ => [acc] end
  | String c r =>
      if Ascii.eqb c "013"%char then
        match r with
        | String "010"%char r' => acc :: splitlines_go EmptyString r'
        | _ => acc :: splitlines_go EmptyString r
        end
      else if is_linebreak c then acc :: splitlines_go EmptyString r
      else splitlines_go (acc ++ String c EmptyString) r
  end.

Definition splitlines (s : string) : list string := splitlines_go EmptyString s.

End Py.

(** ** Scan adapter: [scan_network] *)

(** What [subprocess.run(..., timeout=30)] can do: raise [TimeoutExpired],
    raise anything else (missing binary, decoding error, ...), or complete
    with the captured standard output. The exit status is not consulted. *)
Inductive subprocess_result :=
| TimeoutExpired
| RunError
| Completed (stdout : string).

(** The body of the [for line in result.stdout.splitlines()] loop. *)
Definition scan_line (devices : gset string) (line : string) : gset string :=
  if Py.contains ":" line && (2 <=? length (Py.split_ws line))%nat then
    match Py.split_ws line with
    | _ :: w :: _ =>
        let mac := Py.lower w in
        if (length (Py.split_on ":" mac) =? 6)%nat then {[ mac ]} ∪ devices
        else devices
    | _ => devices
    end
  else devices.

Definition scan_network (run : subprocess_result) : gset string :=
  match run with
  | Completed stdout => foldl scan_line ∅ (Py.splitlines stdout)
  | TimeoutExpired => ∅
  | RunError => ∅
  end.

(** ** Parsed JSON and the Python operations applied to it *)

Inductive json :=
| JNull
| JBool (b : bool)
| JNum (n : Z)
| JStr (s : string)
| JList (l : list json)
| JDict (d : list (string * json)).

(** The exceptions the client distinguishes in its [except] clauses. *)
Inductive exn := Timeout | ConnectionError | OtherError.

Module PyJson.

(** Truth value of an object in a condition ([if x], [if not x]). *)
Definition truthy (j : json) : bool :=
  match j with
  | JNull => false
  | JBool b => b
  | JNum n => negb (n =? 0)%Z
  | JStr s => negb (String.eqb s "")
  | JList l => match l with [] => false | _ => true end
  | JDict d => match d with [] => false | _ => true end
  end.

Fixpoint dict_lookup (d : list (string * json)) (k : string) : option json :=
  match d with
  | [] => None
  | (k', v) :: r => if String.eqb k' k then Some v else dict_lookup r k
  end.

(** [j.get(k, dflt)]: only a dict has [get]. *)
Definition get (j : json) (k : string) (dflt : json) : exn + json :=
  match j with
  | JDict d => inr (default dflt (dict_lookup d k))
  | _ => inl OtherError
  end.

(** [j[k]] with a string key. *)
Definition item (j : json) (k : string) : exn + json :=
  match j with
  | JDict d => match dict_lookup d k with Some v => inr v | None => inl OtherError end
  | _ => inl OtherError
  end.

(** [j.lower()]: only a str has [lower]. *)
Definition str_lower (j : json) : exn + string :=
  match j with
  | JStr s => inr (Py.lower s)
  | _ => inl OtherError
  end.

(** [j.encode()]: only a str has [encode]. *)
Definition as_str (j : json) : exn + string :=
  match j with
  | JStr s => inr s
  | _ => inl OtherError
  end.

(** [j[:n]], as used inside the log lines: str and list can be sliced. *)
Definition sliceable (j : json) : exn + unit :=
  match j with
  | JStr _ | JList _ => inr tt
  | _ => inl OtherError
  end.

(** [j == b] for a Python bool [b] ([True == 1] and [False == 0]). *)
Definition eq_bool (j : json) (b : bool) : bool :=
  match j with
  | JBool b' => Bool.eqb b' b
  | JNum n => (n =? (if b then 1 else 0))%Z
  | _ => false
  end.

End PyJson.

(** ** The wire interface of the gateway *)

(** The requests the client sends. The base URL and API version are fixed
    once the client is initialised and are left out; [tok] is the value of
    the [X-Fbx-App-Auth] header. *)
Inductive request :=
| GET_login                                        (* challenge *)
| POST_login_session (app_id password : string)    (* open a session *)
| GET_login_probe (tok : string)                   (* validity probe *)
| GET_lan_browser (tok : string)
| GET_mac_filter (tok : string)
| POST_mac_filter (tok : string) (mac : string)    (* blacklist entry *)
| DELETE_mac_filter (tok : string) (filter_id : json).

(** What a call of [requests] yields: an exception, or a response with its
    status code and its body ([None] when [response.json()] raises). *)
Inductive reply :=
| Raises (e : exn)
| Response (status_code : Z) (body : option json).

Inductive op := Block | Allow.

(** The values the [status] column admits (its [CHECK] constraint). *)
Inductive policy_status := Authorized | Quarantine | Banned.

#[global] Instance policy_status_eq_dec : EqDecision policy_status.
Proof. solve_decision. Defined.

#[global] Instance op_eq_dec : EqDecision op.
Proof. solve_decision. Defined.

(** Observable steps, in the order in which they happen. *)
Inductive event :=
| EvHttp (r : request)                      (* a call of requests.get/post/delete *)
| EvSaveToken (tok : json)                  (* save_session_token_to_file *)
| EvCall (o : op) (mac : string)            (* block_device_by_mac / allow_device_by_mac entered *)
| EvEnforce (o : op) (mac : string)         (* block_mac / allow_mac entered *)
| EvBlockedAlert (mac : string) (hostname : json)            (* send_blocking_alert *)
| EvNewDeviceAlert (mac : string) (st : policy_status) (hostname : json) (* send_slack_alert *)
| EvDriftWarning (o : op) (mac : string)    (* logger.warning of check_status_changes *)
| EvCheckError                              (* logger.error of check_status_changes *)
| EvUpsert (mac : string) (st : policy_status).    (* update_mac_status committed *)

(** ** A state, exception and trace monad *)

Definition M (St A : Type) : Type := St → (exn + A) * St * list event.

#[global] Instance M_ret {St} : MRet (M St) := λ A a s, (inr a, s, []).

#[global] Instance M_bind {St} : MBind (M St) := λ A B k m s,
  match m s with
  | (inl e, s', ev) => (inl e, s', ev)
  | (inr a, s', ev) =>
      match k a s' with (r, s'', ev') => (r, s'', ev ++ ev') end
  end.

Arguments M_bind : simpl never.

Definition raise {St A} (e : exn) : M St A := λ s, (inl e, s, []).

(** [try: m except Exception as e: h e]; what [m] did before raising
    stays done. *)
Definition try_catch {St A} (m : M St A) (h : exn → M St A) : M St A := λ s,
  match m s with
  | (inl e, s', ev) => match h e s' with (r, s'', ev') => (r, s'', ev ++ ev') end
  | ok => ok
  end.

(** [for x in l: f x]. *)
Fixpoint for_each {St A} (f : A → M St unit) (l : list A) : M St unit :=
  match l with
  | [] => mret tt
  | x :: r => f x;; for_each f r
  end.

Definition emit {St} (e : event) : M St unit := λ s, (inr tt, s, [e]).
Definition gets {St A} (f : St → A) : M St A := λ s, (inr (f s), s, []).
Definition modify {St} (f : St → St) : M St unit := λ s, (inr tt, f s, []).

#[global] Instance exn_ret : MRet (sum exn) := λ A a, inr a.
#[global] Instance exn_bind : MBind (sum exn) := λ A B k x,
  match x with inl e => inl e | inr a => k a end.

(** Embed a pure computation that may raise. *)
Definition pure {St A} (x : exn + A) : M St A := λ s, (x, s, []).

(** Result, final state and trace of a run. *)
Definition result {St A} (x : (exn + A) * St * list event) : exn + A := x.1.1.
Definition final {St A} (x : (exn + A) * St * list event) : St := x.1.2.
Definition trace {St A} (x : (exn + A) * St * list event) : list event := x.2.

Arguments result {_ _} !x /.
Arguments final {_ _} !x /.
Arguments trace {_ _} !x /.

(** ** Session manager and enforcement client: [class FreeboxAPI] *)

(** The fields of a [FreeboxAPI] object that the operations below read or
    write. [session_token] and [app_token] hold whatever JSON value was
    loaded or received ([JNull] for Python's [None]). *)
Record FreeboxAPI := mkApi {
  session_token : json;
  app_token : json;
  connected : bool
}.

Definition app_id : string := "traffic_sentinel".

Section Client.

(** The gateway: its state and how it answers a request. *)
Context {W : Type}.
Variable handle : W → request → W * reply.
(** [hmac.new(key, msg, hashlib.sha1).hexdigest()]. *)
Variable hmac_sha1_hex : string → string → string.

(** The global [freebox_api] object together with the gateway it talks to. *)
Record gstate := mkG { api : FreeboxAPI; gw : W }.

Abbreviation G := (M gstate).

Definition set_session_token (t : json) : G unit :=
  modify (λ s, mkG (mkApi t (app_token (api s)) (connected (api s))) (gw s)).

Definition set_connected (b : bool) : G unit :=
  modify (λ s, mkG (mkApi (session_token (api s)) (app_token (api s)) b) (gw s)).

(** One call of [requests.get/post/delete]. *)
Definition http (r : request) : G (Z * option json) := λ s,
  match handle (gw s) r with
  | (w', Raises e) => (inl e, mkG (api s) w', [EvHttp r])
  | (w', Response code body) => (inr (code, body), mkG (api s) w', [EvHttp r])
  end.

(** A call carrying [headers = {"X-Fbx-App-Auth": tok}]: [requests] refuses
    a header value that is not a string before anything is sent. *)
Definition http_auth (tok : json) (mk : string → request) : G (Z * option json) :=
  match tok with
  | JStr t => http (mk t)
  | _ => raise OtherError
  end.

(** [response.json()]. *)
Definition json_of (resp : Z * option json) : exn + json :=
  match resp.2 with
  | Some j => inr j
  | None => inl OtherError
  end.

(** [result.get("success", False)] used as a condition. *)
Definition success_of (res : json) : exn + bool :=
  match PyJson.get res "success" (JBool false) with
  | inr v => inr (PyJson.truthy v)
  | inl e => inl e
  end.

(** The token is written back to the credential file. At this level the
    call is only recorded: the client is taken to hold its credentials as
    an object, as it does once [load_tokens_from_file] has returned [True],
    so that the assignment into [tokens_data] cannot raise. The write
    itself, with the files it touches and its failure on any other value,
    is [save_session_token_to_file'] below; the properties that depend on
    it are stated there, under [holds_object]. *)
Definition save_session_token_to_file : G unit :=
  t ← gets (λ s, session_token (api s));
  emit (EvSaveToken t).

Definition get_new_session_token : G bool :=
  a ← gets api;
  if negb (PyJson.truthy (app_token a)) then mret false else
  try_catch
    (resp ← http GET_login;
     res ← pure (json_of resp);
     ok ← pure (success_of res);
     if negb ok then mret false else
     r ← pure (PyJson.item res "result");
     challenge ← pure (PyJson.item r "challenge");
     _ ← pure (PyJson.sliceable challenge);
     key ← pure (PyJson.as_str (app_token a));
     msg ← pure (PyJson.as_str challenge);
     resp ← http (POST_login_session app_id (hmac_sha1_hex key msg));
     res ← pure (json_of resp);
     ok ← pure (success_of res);
     if (ok : bool) then
       r ← pure (PyJson.item res "result");
       tok ← pure (PyJson.item r "session_token");
       set_session_token tok;;
       _ ← pure (PyJson.sliceable tok);
       save_session_token_to_file;;
       mret true
     else mret false)
    (λ _, mret false).

Definition is_session_valid : G bool :=
  tok ← gets (λ s, session_token (api s));
  if negb (PyJson.truthy tok) then mret false else
  try_catch
    (resp ← http_auth tok GET_login_probe;
     if (resp.1 =? 200)%Z then
       res ← pure (json_of resp);
       ok ← pure (success_of res);
       if (ok : bool) then mret true
       else
         _ ← pure (PyJson.get res "error_code" (JStr "unknown"));
         mret false
     else mret false)
    (λ _, mret false).

Definition ensure_valid_session : G bool :=
  tok ← gets (λ s, session_token (api s));
  if negb (PyJson.truthy tok) then get_new_session_token else
  valid ← is_session_valid;
  if (valid : bool) then mret true else
  renewed ← get_new_session_token;
  if (renewed : bool) then mret true
  else set_connected false;; mret false.

(** [[d for d in devices if d.get("active", False)]]. Iterating a dict
    yields its keys and iterating a str its characters, neither of which
    has [get]; other values cannot be iterated. *)
Fixpoint active_of (l : list json) : exn + list json :=
  match l with
  | [] => inr []
  | d :: r =>
      match PyJson.get d "active" (JBool false) with
      | inl e => inl e
      | inr a =>
          match active_of r with
          | inl e => inl e
          | inr r' => inr (if PyJson.truthy a then d :: r' else r')
          end
      end
  end.

Definition connected_devices_of (devices : json) : exn + list json :=
  match devices with
  | JList l => active_of l
  | JDict [] => inr []
  | JStr "" => inr []
  | _ => inl OtherError
  end.

(** The debug line built for each of the first three active devices reads
    [l2ident.id] and, when [l3connectivities] is truthy, the [addr] of its
    first element. *)
Definition debug_line (device : json) : exn + unit :=
  _ ← PyJson.get device "primary_name" (JStr "Appareil inconnu");
  l2 ← PyJson.get device "l2ident" (JDict []);
  _ ← PyJson.get l2 "id" (JStr "MAC inconnue");
  l3 ← PyJson.get device "l3connectivities" JNull;
  if PyJson.truthy l3 then
    match l3 with
    | JList (first :: _) =>
        _ ← PyJson.get first "addr" (JStr "IP inconnue"); inr tt
    | _ => inl OtherError
    end
  else inr tt.

Fixpoint debug_lines (l : list json) : exn + unit :=
  match l with
  | [] => inr tt
  | d :: r => _ ← debug_line d; debug_lines r
  end.

(** Returns every device known to the gateway, or the empty list. *)
Definition get_network_devices : G json :=
  a ← gets api;
  if negb (connected a) then mret (JList []) else
  ok ← ensure_valid_session;
  if negb ok then mret (JList []) else
  tok ← gets (λ s, session_token (api s));
  try_catch
    (resp ← http_auth tok GET_lan_browser;
     if (resp.1 =? 200)%Z then
       res ← pure (json_of resp);
       ok ← pure (success_of res);
       if (ok : bool) then
         devices ← pure (PyJson.get res "result" (JList []));
         connected_devices ← pure (connected_devices_of devices);
         _ ← pure (debug_lines (take 3 connected_devices));
         mret devices
       else mret (JList [])
     else mret (JList []))
    (λ _, mret (JList [])).

(** The search of the filter list in [block_device_by_mac]: a list of entry
    objects is searched on their ["mac"] field, a dict on its keys; any
    other value is not searched. [target] is [mac_address.lower()]. *)
Fixpoint list_has_mac (l : list json) (target : string) : exn + bool :=
  match l with
  | [] => inr false
  | f :: r =>
      m ← PyJson.get f "mac" (JStr "");
      s ← PyJson.str_lower m;
      if String.eqb s target then inr true else list_has_mac r target
  end.

Fixpoint dict_has_mac (d : list (string * json)) (target : string) : bool :=
  match d with
  | [] => false
  | (existing_mac, _) :: r =>
      if String.eqb (Py.lower existing_mac) target then true
      else dict_has_mac r target
  end.

Definition filter_has_mac (existing_filters : json) (target : string) : exn + bool :=
  match existing_filters with
  | JList l => list_has_mac l target
  | JDict d => inr (dict_has_mac d target)
  | _ => inr false
  end.

Definition block_device_by_mac (mac_address : string) : G bool :=
  emit (EvCall Block mac_address);;
  a ← gets api;
  if negb (connected a) then mret false else
  ok ← ensure_valid_session;
  if negb ok then mret false else
  headers ← gets (λ s, session_token (api s));
  try_catch
    (resp ← http_auth headers GET_mac_filter;
     res ← pure (json_of resp);
     ok ← pure (success_of res);
     already ←
       (if (ok : bool) then
          existing_filters ← pure (PyJson.get res "result" (JList []));
          pure (filter_has_mac existing_filters (Py.lower mac_address))
        else mret false);
     if (already : bool) then mret true else
     resp ← http_auth headers (λ t, POST_mac_filter t (Py.upper mac_address));
     res ← pure (json_of resp);
     ok ← pure (success_of res);
     if (ok : bool) then
       r ← pure (PyJson.get res "result" (JDict []));
       _ ← pure (PyJson.get r "hostname" (JStr "Appareil"));
       mret true
     else
       _ ← pure (PyJson.get res "msg" (JStr "Erreur inconnue"));
       _ ← pure (PyJson.get res "error_code" (JStr ""));
       mret false)
    (λ _, mret false).

(** The search of the filter list in [allow_device_by_mac]: the id of the
    first matching entry, [JNull] ([None]) when nothing matches. *)
Fixpoint list_filter_id (l : list json) (target : string) : exn + json :=
  match l with
  | [] => inr JNull
  | f :: r =>
      m ← PyJson.get f "mac" (JStr "");
      s ← PyJson.str_lower m;
      if String.eqb s target then PyJson.get f "id" JNull
      else list_filter_id r target
  end.

Fixpoint dict_filter_id (d : list (string * json)) (target : string) : exn + json :=
  match d with
  | [] => inr JNull
  | (existing_mac, info) :: r =>
      if String.eqb (Py.lower existing_mac) target then
        match info with
        | JDict _ => PyJson.get info "id" JNull
        | _ => inr (JStr (existing_mac ++ "-blacklist"))
        end
      else dict_filter_id r target
  end.

Definition find_filter_id (existing_filters : json) (target : string) : exn + json :=
  match existing_filters with
  | JList l => list_filter_id l target
  | JDict d => dict_filter_id d target
  | _ => inr JNull
  end.

Definition allow_device_by_mac (mac_address : string) : G bool :=
  emit (EvCall Allow mac_address);;
  a ← gets api;
  if negb (connected a) then mret false else
  ok ← ensure_valid_session;
  if negb ok then mret false else
  headers ← gets (λ s, session_token (api s));
  try_catch
    (resp ← http_auth headers GET_mac_filter;
     res ← pure (json_of resp);
     ok ← pure (success_of res);
     if negb ok then mret false else
     existing_filters ← pure (PyJson.get res "result" (JList []));
     filter_id ← pure (find_filter_id existing_filters (Py.lower mac_address));
     if negb (PyJson.truthy filter_id) then mret true else
     resp ← http_auth headers (λ t, DELETE_mac_filter t filter_id);
     res ← pure (json_of resp);
     ok ← pure (success_of res);
     if (ok : bool) then mret true
     else
       _ ← pure (PyJson.get res "msg" (JStr "Erreur inconnue"));
       _ ← pure (PyJson.get res "error_code" (JStr ""));
       mret false)
    (λ _, mret false).

(** ** Helpers of the main loop that only talk to the gateway *)

Definition unknown_device : json := JStr "Appareil inconnu".

Fixpoint hostname_in (devices : list json) (target : string) : exn + option json :=
  match devices with
  | [] => inr None
  | device :: r =>
      l2 ← PyJson.get device "l2ident" (JDict []);
      i ← PyJson.get l2 "id" (JStr "");
      device_mac ← PyJson.str_lower i;
      if String.eqb device_mac target then
        n ← PyJson.get device "primary_name" unknown_device; inr (Some n)
      else hostname_in r target
  end.

(** [for device in devices] over whatever [get_network_devices] returned:
    a list of devices, or an empty dict or str (nothing to iterate). *)
Definition iter_devices (devices : json) : list json :=
  match devices with
  | JList l => l
  | _ => []
  end.

Definition get_device_hostname (mac : string) : G json :=
  a ← gets api;
  if negb (connected a) then mret unknown_device else
  try_catch
    (devices ← get_network_devices;
     h ← pure (hostname_in (iter_devices devices) (Py.lower mac));
     mret (default unknown_device h))
    (λ _, mret unknown_device).

(** The alert is printed or posted to the webhook; either way it is out. *)
Definition send_blocking_alert (mac : string) : G unit :=
  hostname ← get_device_hostname mac;
  emit (EvBlockedAlert mac hostname).

Definition send_slack_alert (mac : string) (st : policy_status) : G unit :=
  hostname ← get_device_hostname mac;
  emit (EvNewDeviceAlert mac st hostname).

Definition block_mac (mac : string) : G unit :=
  emit (EvEnforce Block mac);;
  a ← gets api;
  if connected a then
    try_catch
      (ok ← block_device_by_mac mac;
       if (ok : bool) then send_blocking_alert mac else mret tt)
      (λ _, mret tt)
  else mret tt.

Definition allow_mac (mac : string) : G unit :=
  emit (EvEnforce Allow mac);;
  a ← gets api;
  if connected a then
    try_catch
      (_ ← allow_device_by_mac mac; mret tt)
      (λ _, mret tt)
  else mret tt.

(** ** Policy registry: the [mac_addresses] table *)

(** One row; the primary key [mac_address] is the key of the map below.
    [status] is nullable: the [CHECK] constraint accepts [NULL]. *)
Record row := mkRow {
  status : option policy_status;
  first_seen : Z;
  last_seen : Z;
  comment : option string
}.

(** [datetime.now()]: the n-th reading of the clock. *)
Variable clock : nat → Z.

(** State of the main loop: the client and gateway, the table, how often
    the clock was read, and the drift-check counter. *)
Record lstate := mkL {
  fbx : gstate;
  db : gmap string row;
  clock_reads : nat;
  status_check_counter : nat
}.

Abbreviation L := (M lstate).

(** Run a gateway operation inside the loop. *)
Definition lift {A} (m : G A) : L A := λ s,
  match m (fbx s) with
  | (r, g', ev) => (r, mkL g' (db s) (clock_reads s) (status_check_counter s), ev)
  end.

Definition datetime_now : L Z := λ s,
  (inr (clock (clock_reads s)),
   mkL (fbx s) (db s) (S (clock_reads s)) (status_check_counter s), []).

Definition set_db (f : gmap string row → gmap string row) : L unit :=
  modify (λ s, mkL (fbx s) (f (db s)) (clock_reads s) (status_check_counter s)).

Definition set_counter (n : nat) : L unit :=
  modify (λ s, mkL (fbx s) (db s) (clock_reads s) n).

Definition update_mac_status (mac : string) (st : policy_status) : L unit :=
  existing ← gets (λ s, db s !! mac);
  match existing with
  | Some r =>
      now ← datetime_now;
      set_db (insert mac (mkRow (Some st) (first_seen r) now (comment r)));;
      emit (EvUpsert mac st)
  | None =>
      t1 ← datetime_now;
      t2 ← datetime_now;
      set_db (insert mac (mkRow (Some st) t1 t2 (Some "")));;
      emit (EvUpsert mac st)
  end.

Definition get_mac_status (mac : string) : L (option policy_status) :=
  gets (λ s, db s !! mac ≫= status).

(** ** Drift check: [check_status_changes] *)

(** The dict [freebox_states]: lower-cased MAC to reported access flag. *)
Fixpoint build_states (devices : list json) (freebox_states : gmap string json)
  : exn + gmap string json :=
  match devices with
  | [] => inr freebox_states
  | device :: r =>
      l2 ← PyJson.get device "l2ident" (JDict []);
      i ← PyJson.get l2 "id" (JStr "");
      mac ← PyJson.str_lower i;
      if String.eqb mac "" then build_states r freebox_states
      else
        access ← PyJson.get device "access" (JBool true);
        build_states r (<[mac := access]> freebox_states)
  end.

Definition banned_or_quarantine (st : policy_status) : bool :=
  match st with Banned | Quarantine => true | Authorized => false end.

(** One turn of [for mac, db_status in db_devices]. *)
Definition check_device (freebox_states : gmap string json)
    (entry : string * option policy_status) : G unit :=
  let '(mac, db_status) := entry in
  match freebox_states !! mac with
  | None => mret tt
  | Some current_access =>
      match db_status with
      | None => mret tt
      | Some st =>
          let expected_access := negb (banned_or_quarantine st) in
          if negb (PyJson.eq_bool current_access expected_access) then
            if banned_or_quarantine st && PyJson.truthy current_access then
              emit (EvDriftWarning Block mac);;
              _ ← block_device_by_mac mac; mret tt
            else if negb (banned_or_quarantine st) && negb (PyJson.truthy current_access) then
              emit (EvDriftWarning Allow mac);;
              _ ← allow_device_by_mac mac; mret tt
            else mret tt
          else mret tt
      end
  end.

Definition db_devices_of (t : gmap string row) : list (string * option policy_status) :=
  (λ kv, (kv.1, status kv.2)) <$> map_to_list t.

Definition check_status_changes : L unit :=
  s ← gets id;
  if negb (connected (api (fbx s))) then mret tt else
  let db_devices := db_devices_of (db s) in
  lift (try_catch
    (freebox_devices ← get_network_devices;
     if negb (PyJson.truthy freebox_devices) then mret tt else
     freebox_states ← pure (build_states (iter_devices freebox_devices) ∅);
     for_each (check_device freebox_states) db_devices)
    (λ _, emit EvCheckError)).

(** ** The main loop *)

Definition STATUS_CHECK_INTERVAL : nat := 3.

(** One turn of [for mac in detected_macs]; [known_macs] is the table as
    read at the start of the cycle. *)
Definition handle_mac (known_macs : gmap string row) (mac : string) : L unit :=
  let st := known_macs !! mac ≫= status in
  match st with
  | None =>
      update_mac_status mac Quarantine;;
      lift (block_mac mac);;
      lift (send_slack_alert mac Quarantine)
  | Some Banned => lift (block_mac mac)
  | Some Quarantine => lift (block_mac mac)
  | Some Authorized => lift (allow_mac mac)
  end;;
  match st with
  | Some s => update_mac_status mac s
  | None => mret tt
  end.

(** The part of a cycle that follows a non-empty scan; [detected_macs]
    lists the scanned set in the order in which it is iterated. *)
Definition run_cycle (detected_macs : list string) : L unit :=
  known_macs ← gets db;
  for_each (handle_mac known_macs) detected_macs;;
  c ← gets status_check_counter;
  set_counter (c + 1);;
  c ← gets status_check_counter;
  if (STATUS_CHECK_INTERVAL <=? c)%nat then
    check_status_changes;;
    set_counter 0
  else mret tt.

(** One iteration of [while True] in [main]. *)
Definition main_iteration (run : subprocess_result) : L unit :=
  let detected_macs := scan_network run in
  if (size detected_macs =? 0)%nat then mret tt
  else run_cycle (elements detected_macs).

End Client.

Arguments mkG {W} _ _.
Arguments api {W} _.
Arguments gw {W} _.
Arguments mkL {W} _ _ _ _.
Arguments fbx {W} _.
Arguments db {W} _.
Arguments clock_reads {W} _.
Arguments status_check_counter {W} _.

(** ** Start-up synchronisation: [sync_banned_devices_with_freebox] *)

Section Sync.
Context {W : Type}.
Variable handle : W → request → W * reply.
Variable hmac_sha1_hex : string → string → string.

(** [SELECT mac_address, comment FROM mac_addresses WHERE status = 'banned']. *)
Definition banned_devices_of (t : gmap string row) : list (string * option string) :=
  (λ kv, (kv.1, comment kv.2)) <$>
  filter (λ kv, status kv.2 = Some Banned) (map_to_list t).

(** Every banned row is pushed to the gateway's filter; the count of
    successes is only logged. *)
Definition sync_banned_devices_with_freebox : M (@lstate W) unit :=
  s ← gets id;
  if negb (connected (api (fbx s))) then mret tt else
  try_catch
    (let banned_devices := banned_devices_of (db s) in
     match banned_devices with
     | [] => mret tt
     | _ =>
         for_each
           (λ entry, _ ← lift (block_device_by_mac handle hmac_sha1_hex entry.1); mret tt)
           banned_devices
     end)
    (λ _, mret tt).

End Sync.

(** ** More Python operations on parsed JSON *)

Module PyValue.

(** [len(j)]: a str, a list or a dict has a length. *)
Definition len (j : json) : exn + nat :=
  match j with
  | JStr s => inr (String.length s)
  | JList l => inr (length l)
  | JDict d => inr (length d)
  | _ => inl OtherError
  end.

(** [d[k] = v] on a dict: a key that is present keeps its place. *)
Fixpoint dict_set (d : list (string * json)) (k : string) (v : json)
  : list (string * json) :=
  match d with
  | [] => [(k, v)]
  | (k', v') :: r =>
      if String.eqb k' k then (k, v) :: r else (k', v') :: dict_set r k v
  end.

(** [j[k] = v] with a string key: only a dict accepts it. *)
Definition set_item (j : json) (k : string) (v : json) : exn + json :=
  match j with
  | JDict d => inr (JDict (dict_set d k v))
  | _ => inl OtherError
  end.

End PyValue.

(** ** Start-up of the client: discovery, credential file, connection test *)

(** The two requests that only the start-up sends: the probe of a
    candidate address and the system call of the connection test. *)
Inductive boot_request :=
| GET_api_version (base_url : string)
| GET_system (tok : string).

(** What [json.load] makes of a file that can be opened. *)
Inductive file := NotJson | Json (j : json).

(** The attributes of a [FreeboxAPI] object that only the start-up and the
    credential file handling use. [token_file] is [None] while the
    attribute is missing or holds [None]; [tokens_data] is [None] while the
    attribute is missing. *)
Record FreeboxSetup := mkSetup {
  freebox_url : string;
  api_version : string;
  token_file : option string;
  tokens_data : option json
}.

Definition test_urls : list string :=
  ["http://mafreebox.freebox.fr"; "http://192.168.1.1"; "http://192.168.0.1"].

Definition possible_locations : list string :=
  ["/etc/traffic_sentinel_tokens.json"; "/opt/traffic_sentinel/tokens.json";
   "/tmp/traffic_sentinel_tokens.json"; "./traffic_sentinel_tokens.json"].

Definition fallback_locations : list string :=
  ["/opt/traffic_sentinel/tokens.json"; "/tmp/traffic_sentinel_tokens.json";
   "./traffic_sentinel_tokens.json"].

Section Boot.

Context {W : Type}.
Variable handle : W → request → W * reply.
(** How the gateway (or whatever sits at a candidate address) answers the
    start-up requests. *)
Variable handle_boot : W → boot_request → W * reply.
Variable hmac_sha1_hex : string → string → string.
(** [str(x)] of a list or a dict. *)
Variable py_repr : json → string.
(** Which paths the process can open for reading, and which it can create
    (directories included) and open for writing. *)
Variables can_read can_write : string → bool.
Variable clock : nat → Z.
(** [datetime.isoformat()]. *)
Variable isoformat : Z → string.

(** The object with the gateway it talks to, the files, the start-up
    requests sent so far (latest last) and the count of clock readings. *)
Record bstate := mkB {
  client : @gstate W;
  setup : FreeboxSetup;
  files : gmap string file;
  sent : list boot_request;
  now_reads : nat
}.

Abbreviation B := (M bstate).

Definition with_client (g : @gstate W) (b : bstate) : bstate :=
  mkB g (setup b) (files b) (sent b) (now_reads b).

Definition with_setup (c : FreeboxSetup) (b : bstate) : bstate :=
  mkB (client b) c (files b) (sent b) (now_reads b).

Definition set_api (f : FreeboxAPI → FreeboxAPI) : B unit :=
  modify (λ b, with_client (mkG (f (api (client b))) (gw (client b))) b).

Definition set_token_file (f : option string) : B unit :=
  modify (λ b, with_setup (mkSetup (freebox_url (setup b)) (api_version (setup b))
                             f (tokens_data (setup b))) b).

Definition set_tokens_data (d : option json) : B unit :=
  modify (λ b, with_setup (mkSetup (freebox_url (setup b)) (api_version (setup b))
                             (token_file (setup b)) d) b).

Definition set_endpoint (url version : string) : B unit :=
  modify (λ b, with_setup (mkSetup url version (token_file (setup b))
                             (tokens_data (setup b))) b).

(** One start-up call of [requests.get]. *)
Definition http_boot (r : boot_request) : B (Z * option json) := λ b,
  match handle_boot (gw (client b)) r with
  | (w', rp) =>
      let b' := mkB (mkG (api (client b)) w') (setup b) (files b)
                    (sent b ++ [r]) (now_reads b) in
      match rp with
      | Raises e => (inl e, b', [])
      | Response code body => (inr (code, body), b', [])
      end
  end.

Definition http_boot_auth (tok : json) (mk : string → boot_request)
  : B (Z * option json) :=
  match tok with
  | JStr t => http_boot (mk t)
  | _ => raise OtherError
  end.

(** [str(x)] for a value taken from JSON. *)
Definition py_str (j : json) : string :=
  match j with
  | JNull => "None"
  | JBool true => "True"
  | JBool false => "False"
  | JNum n => pretty n
  | JStr s => s
  | _ => py_repr j
  end.

(** The [for base_url in test_urls] loop of [get_api_version]: the first
    address that answers 200 with a truthy ["api_version"] is kept. *)
Fixpoint probe_urls (urls : list string) : B bool :=
  match urls with
  | [] => mret false
  | base_url :: rest =>
      found ← try_catch
        (resp ← http_boot (GET_api_version base_url);
         if (resp.1 =? 200)%Z then
           api_info ← pure (json_of resp);
           version ← pure (PyJson.get api_info "api_version" JNull);
           _ ← pure (PyJson.get api_info "device_name" (JStr "Freebox"));
           if PyJson.truthy version then
             let major_version := hd "" (Py.split_on "." (py_str version)) in
             set_endpoint base_url ("v" ++ major_version);;
             mret true
           else mret false
         else mret false)
        (λ _, mret false);
      if (found : bool) then mret true else probe_urls rest
  end.

Definition get_api_version : B bool := probe_urls test_urls.

(** [open(location, 'r')] followed by [json.load]. *)
Definition read_json (location : string) (b : bstate) : option json :=
  if can_read location then
    match files b !! location with
    | Some (Json j) => Some j
    | _ => None
    end
  else None.

(** The [for location in possible_locations] loop, left at the first file
    that loads. *)
Fixpoint load_first (locations : list string) : B unit :=
  match locations with
  | [] => mret tt
  | location :: rest =>
      r ← gets (read_json location);
      match r with
      | Some j => set_tokens_data (Some j);; set_token_file (Some location)
      | None => load_first rest
      end
  end.

Definition load_tokens_from_file : B bool :=
  set_token_file None;;
  set_tokens_data (Some JNull);;
  load_first possible_locations;;
  data ← gets (λ b, default JNull (tokens_data (setup b)));
  if negb (PyJson.truthy data) then mret false else
  app ← pure (PyJson.get data "app_token" JNull);
  set_api (λ a, mkApi (session_token a) app (connected a));;
  session ← pure (PyJson.get data "session_token" JNull);
  set_api (λ a, mkApi session (app_token a) (connected a));;
  if PyJson.truthy app then
    _ ← pure (PyValue.len app);
    _ ← (if PyJson.truthy session then pure (PyValue.len session) else mret 0%nat);
    _ ← pure (PyJson.get data "created_at" (JStr "Date inconnue"));
    mret true
  else mret false.

(** Where [save_session_token_to_file] tries to write, in order. *)
Definition save_locations (b : bstate) : list string :=
  match token_file (setup b) with
  | Some f => if String.eqb f "" then [] else [f]
  | None => []
  end ++ fallback_locations.

(** The [for location in save_locations] loop, left at the first write
    that succeeds. *)
Fixpoint write_first (locations : list string) (data : json) : B unit :=
  match locations with
  | [] => mret tt
  | location :: rest =>
      if can_write location then
        modify (λ b, mkB (client b) (setup b) (<[location := Json data]> (files b))
                         (sent b) (now_reads b));;
        set_token_file (Some location)
      else write_first rest data
  end.

Definition boot_now : B Z := λ b,
  (inr (clock (now_reads b)),
   mkB (client b) (setup b) (files b) (sent b) (S (now_reads b)), []).

(** [save_session_token_to_file] in full, with the files it writes (the
    client above only announces it, with [EvSaveToken]). *)
Definition save_session_token_to_file' : B unit :=
  held ← gets (λ b, tokens_data (setup b));
  match held with
  | None => mret tt
  | Some data =>
      locations ← gets save_locations;
      tok ← gets (λ b, session_token (api (client b)));
      data ← pure (PyValue.set_item data "session_token" tok);
      set_tokens_data (Some data);;
      now ← boot_now;
      data ← pure (PyValue.set_item data "last_session_update" (JStr (isoformat now)));
      set_tokens_data (Some data);;
      write_first locations data
  end.

(** An operation of the client, run by the start-up layer: the write that
    an [EvSaveToken] of the operation announces is performed on the files.
    (The write raises only when [tokens_data] is not an object, which it is
    whenever the client got as far as a handshake.) *)
Definition perform (e : event) : B unit :=
  match e with
  | EvSaveToken _ => try_catch save_session_token_to_file' (λ _, mret tt)
  | _ => mret tt
  end.

Definition lift_client {A} (m : M (@gstate W) A) : B A := λ b,
  match m (client b) with
  | (r, g', ev) => (r, final (for_each perform ev (with_client g' b)), ev)
  end.

Definition test_connection : B bool :=
  tok ← gets (λ b, session_token (api (client b)));
  if negb (PyJson.truthy tok) then mret false else
  try_catch
    (resp ← http_boot_auth tok GET_system;
     res ← pure (json_of resp);
     ok ← pure (success_of res);
     if (ok : bool) then
       system_info ← pure (PyJson.get res "result" (JDict []));
       _ ← pure (PyJson.get system_info "uptime" (JStr "Inconnu"));
       temp ← pure (PyJson.get system_info "temp" (JDict []));
       _ ← pure (PyJson.get temp "cpum" (JStr "Inconnue"));
       set_api (λ a, mkApi (session_token a) (app_token a) true);;
       mret true
     else mret false)
    (λ _, mret false).

Definition initialize : B bool :=
  found ← get_api_version;
  if negb found then mret false else
  loaded ← load_tokens_from_file;
  if negb loaded then mret false else
  opened ← lift_client (get_new_session_token handle hmac_sha1_hex);
  if negb opened then mret false else
  tested ← test_connection;
  if negb tested then mret false else mret true.

End Boot.

Arguments mkB {W} _ _ _ _ _.
Arguments client {W} _.
Arguments setup {W} _.
Arguments files {W} _.
Arguments sent {W} _.
Arguments now_reads {W} _.

(** ** The web interface: [web_interface.py] *)

(** The messages a request can [flash]: an enforcement applied at once
    (success) or not (warning), a quarantine noted (info), the gateway
    not available (warning). *)
Inductive flash :=
| FlashApplied (o : op) (mac : string)
| FlashNotApplied (o : op) (mac : string)
| FlashQuarantined (mac : string)
| FlashUnavailable.

(** The text of a status in the [status] column, and the texts that the
    [CHECK] constraint of the column admits. *)
Definition status_text (st : policy_status) : string :=
  match st with
  | Authorized => "authorized"
  | Quarantine => "quarantine"
  | Banned => "banned"
  end.

Definition status_of_text (text : string) : option policy_status :=
  if String.eqb text "authorized" then Some Authorized
  else if String.eqb text "quarantine" then Some Quarantine
  else if String.eqb text "banned" then Some Banned
  else None.

Section Web.

Context {W : Type}.
Variable handle : W → request → W * reply.
Variable handle_boot : W → boot_request → W * reply.
Variable hmac_sha1_hex : string → string → string.
Variable py_repr : json → string.
Variables can_read can_write : string → bool.
Variable clock : nat → Z.
Variable isoformat : Z → string.
(** [datetime('now')] of sqlite: its n-th evaluation. *)
Variable sql_clock : nat → Z.

(** The state of the web process: its own [freebox_api] object with the
    world it talks to, the [mac_addresses] table, the flag
    [freebox_initialized], the messages flashed so far (latest last) and
    how often sqlite's clock was read. *)
Record wstate := mkWeb {
  freebox_api : @bstate W;
  table : gmap string row;
  freebox_initialized : bool;
  flashed : list flash;
  sql_reads : nat
}.

Abbreviation Web := (M wstate).

(** A call on [freebox_api]. *)
Definition lift_api {A} (m : M (@bstate W) A) : Web A := λ s,
  match m (freebox_api s) with
  | (r, b', ev) =>
      (r, mkWeb b' (table s) (freebox_initialized s) (flashed s) (sql_reads s), ev)
  end.

Definition set_table (f : gmap string row → gmap string row) : Web unit :=
  modify (λ s, mkWeb (freebox_api s) (f (table s)) (freebox_initialized s)
                     (flashed s) (sql_reads s)).

Definition do_flash (f : flash) : Web unit :=
  modify (λ s, mkWeb (freebox_api s) (table s) (freebox_initialized s)
                     (flashed s ++ [f]) (sql_reads s)).

Definition sql_now : Web Z := λ s,
  (inr (sql_clock (sql_reads s)),
   mkWeb (freebox_api s) (table s) (freebox_initialized s) (flashed s)
         (S (sql_reads s)), []).

(** A text offered for the [status] column: the [CHECK] constraint makes
    the statement fail on any other text than the three it lists. *)
Definition checked_status (text : string) : exn + policy_status :=
  match status_of_text text with
  | Some st => inr st
  | None => inl OtherError
  end.

(** [request.form[k]]: a missing key ends the request with an error. *)
Definition form_item (form : gmap string string) (k : string) : exn + string :=
  match form !! k with
  | Some v => inr v
  | None => inl OtherError
  end.

Definition ensure_freebox_connection : Web bool :=
  initialized ← gets freebox_initialized;
  (if negb initialized then
     ok ← lift_api (initialize handle handle_boot hmac_sha1_hex py_repr
                      can_read can_write clock isoformat);
     if (ok : bool) then
       modify (λ s, mkWeb (freebox_api s) (table s) true (flashed s) (sql_reads s))
     else mret tt
   else mret tt);;
  gets freebox_initialized.

(** An operation of the client on [freebox_api]. *)
Definition on_client {A} (m : M (@gstate W) A) : Web A :=
  lift_api (lift_client can_write clock isoformat m).

(** The route [/update]. *)
Definition update (form : gmap string string) : Web unit :=
  mac_address ← pure (form_item form "mac_address");
  new_status ← pure (form_item form "status");
  old_status ← gets (λ s, table s !! mac_address ≫= status);
  known ← gets (λ s, table s !! mac_address);
  match known with
  | Some r =>
      st ← pure (checked_status new_status);
      set_table (insert mac_address (mkRow (Some st) (first_seen r) (last_seen r) (comment r)))
  | None => mret tt
  end;;
  if negb (bool_decide (status_text <$> old_status = Some new_status)) then
    ensure_freebox_connection;;
    is_connected ← gets (λ s, connected (api (client (freebox_api s))));
    if (is_connected : bool) then
      if String.eqb new_status "banned" then
        ok ← on_client (block_device_by_mac handle hmac_sha1_hex mac_address);
        do_flash (if (ok : bool) then FlashApplied Block mac_address
                  else FlashNotApplied Block mac_address)
      else if String.eqb new_status "authorized" then
        ok ← on_client (allow_device_by_mac handle hmac_sha1_hex mac_address);
        do_flash (if (ok : bool) then FlashApplied Allow mac_address
                  else FlashNotApplied Allow mac_address)
      else if String.eqb new_status "quarantine" then
        do_flash (FlashQuarantined mac_address)
      else mret tt
    else do_flash FlashUnavailable
  else mret tt.

(** The route [/add]. *)
Definition add_mac (form : gmap string string) : Web unit :=
  let mac_address := Py.lower (default "" (form !! "mac_address")) in
  if negb (String.eqb mac_address "") then
    let status_field := default "quarantine" (form !! "status") in
    let comment_field := default "" (form !! "comment") in
    existing ← gets (λ s, table s !! mac_address);
    match existing with
    | Some r =>
        let existing_comment := default "" (comment r) in
        let final_comment :=
          if String.eqb comment_field "" then existing_comment else comment_field in
        now ← sql_now;
        st ← pure (checked_status status_field);
        set_table (insert mac_address
                     (mkRow (Some st) (first_seen r) now (Some final_comment)))
    | None =>
        now ← sql_now;
        st ← pure (checked_status status_field);
        set_table (insert mac_address (mkRow (Some st) now now (Some comment_field)))
    end
  else mret tt.

(** The route [/delete]. *)
Definition delete_mac (form : gmap string string) : Web unit :=
  let mac_address := default "" (form !! "mac_address") in
  if negb (String.eqb mac_address "") then set_table (delete mac_address)
  else mret tt.

(** The route [/update_comment]. *)
Definition update_comment (form : gmap string string) : Web unit :=
  let mac_address := default "" (form !! "mac_address") in
  let comment_field := default "" (form !! "comment") in
  if negb (String.eqb mac_address "") then
    known ← gets (λ s, table s !! mac_address);
    match known with
    | Some r =>
        set_table (insert mac_address
                     (mkRow (status r) (first_seen r) (last_seen r) (Some comment_field)))
    | None => mret tt
    end
  else mret tt.

End Web.

Arguments mkWeb {W} _ _ _ _ _.
Arguments freebox_api {W} _.
Arguments table {W} _.
Arguments freebox_initialized {W} _.
Arguments flashed {W} _.
Arguments sql_reads {W} _.

(** ** A scripted gateway, used for concrete runs

    The gateway answers the successive requests with the replies of a
    list, whatever the requests are, and fails to connect once the list is
    exhausted. *)
Definition scripted (w : list reply) (_ : request) : list reply * reply :=
  match w with
  | [] => ([], Raises ConnectionError)
  | r :: w' => (w', r)
  end.

Definition no_hmac (key msg : string) : string := key ++ ":" ++ msg.

Definition ok_body : json := JDict [("success", JBool true)].
Definition rejected_body : json :=
  JDict [("success", JBool false); ("error_code", JStr "auth_required")].

(** * Vocabulary of the properties *)

(** ** The scan, and a sample registry *)

(** What the scan accepts as a MAC: lower case and six groups between
    colons. *)
Definition canonical_mac (m : string) : Prop :=
  Py.lower m = m ∧ length (Py.split_on ":" m) = 6%nat.

Definition sample_row : row := mkRow (Some Banned) 10 20 (Some "printer").

Definition sample_lstate (known : gmap string row) : @lstate (list reply) :=
  mkL (mkG (mkApi JNull JNull false) []) known 0 0.

(** ** Kinds of events *)

(** The kind of an event, forgetting tokens, payloads and host names. *)
Inductive tag :=
| TProbe | TChallenge | TSession | TSave | TDevices
| TFilterGet | TFilterAdd | TFilterDel
| TCall (o : op) (mac : string)
| TEnforce (o : op) (mac : string)
| TBlockedAlert (mac : string)
| TNewDeviceAlert (mac : string)
| TDrift (o : op) (mac : string)
| TCheckError
| TUpsert (mac : string).

Definition tag_of (e : event) : tag :=
  match e with
  | EvHttp GET_login => TChallenge
  | EvHttp (POST_login_session _ _) => TSession
  | EvHttp (GET_login_probe _) => TProbe
  | EvHttp (GET_lan_browser _) => TDevices
  | EvHttp (GET_mac_filter _) => TFilterGet
  | EvHttp (POST_mac_filter _ _) => TFilterAdd
  | EvHttp (DELETE_mac_filter _ _) => TFilterDel
  | EvSaveToken _ => TSave
  | EvCall o mac => TCall o mac
  | EvEnforce o mac => TEnforce o mac
  | EvBlockedAlert mac _ => TBlockedAlert mac
  | EvNewDeviceAlert mac _ _ => TNewDeviceAlert mac
  | EvDriftWarning o mac => TDrift o mac
  | EvCheckError => TCheckError
  | EvUpsert mac _ => TUpsert mac
  end.

(** The handshake: challenge, session request, token saved. *)
Definition handshake_tags : list tag := [TChallenge; TSession; TSave].
(** Validation of the session: one probe, then at most one handshake. *)
Definition session_tags : list tag := TProbe :: handshake_tags.

Definition block_tags (mac : string) : list tag :=
  TCall Block mac :: session_tags ++ [TFilterGet; TFilterAdd].
Definition allow_tags (mac : string) : list tag :=
  TCall Allow mac :: session_tags ++ [TFilterGet; TFilterDel].

#[global] Instance tag_eq_dec : EqDecision tag.
Proof. solve_decision. Defined.

(** How many events of kind [T] a trace holds. *)
Definition count_tag (T : tag) (t : list event) : nat :=
  length (filter (λ e, tag_of e = T) t).

Definition devices_tags : list tag := session_tags ++ [TDevices].

Definition block_mac_tags (mac : string) : list tag :=
  TEnforce Block mac :: block_tags mac ++ devices_tags ++ [TBlockedAlert mac].

Definition allow_mac_tags (mac : string) : list tag :=
  TEnforce Allow mac :: allow_tags mac.

(** Everything [handle_mac] can emit for [mac]. *)
Definition handle_tags (mac : string) : list tag :=
  TUpsert mac :: TNewDeviceAlert mac ::
  block_mac_tags mac ++ allow_mac_tags mac ++ devices_tags.

(** What the drift check can emit: gateway exchanges, enforcement calls,
    drift warnings and its own error line; it neither writes the registry
    nor alerts. *)
Definition drift_event (e : event) : Prop :=
  match tag_of e with
  | TUpsert _ | TNewDeviceAlert _ | TEnforce _ _ | TBlockedAlert _ => False
  | _ => True
  end.

(** Events that are neither an enforcement call nor a drift warning for
    [mac], nor the error line of the check. *)
Definition drift_marks (mac : string) : list tag :=
  [TCall Block mac; TCall Allow mac; TDrift Block mac; TDrift Allow mac; TCheckError].

Definition quiet_about (mac : string) (e : event) : Prop :=
  tag_of e ∉ drift_marks mac.

(** ** Properties of all runs of a computation *)

(** No event at all. *)
Definition silent {St A} (m : M St A) : Prop := ∀ s, trace (m s) = [].

(** The kinds of the events of any run form a subsequence of [L]. *)
Definition shaped {St A} (L : list tag) (m : M St A) : Prop :=
  ∀ s, tag_of <$> trace (m s) `sublist_of` L.

(** Every event of any run satisfies [P]. *)
Definition emits {St A} (P : event → Prop) (m : M St A) : Prop :=
  ∀ s, Forall P (trace (m s)).

(** No run ends in an exception. *)
Definition total {St A} (m : M St A) : Prop :=
  ∀ s, ∃ a, result (m s) = inr a.

(** Every run relates its initial and final states by [R]. *)
Definition keeps {St A} (R : St → St → Prop) (m : M St A) : Prop :=
  ∀ s, R s (final (m s)).

(** ** Rejected sessions *)

Definition is_filter_request (r : request) : bool :=
  match r with
  | GET_mac_filter _ | POST_mac_filter _ _ | DELETE_mac_filter _ _ => true
  | _ => false
  end.

(** The gateway answers, and the answer says [success: false] (as it does
    for a session token it no longer accepts). *)
Definition is_rejection (rp : reply) : bool :=
  match rp with
  | Response _ (Some body) =>
      match success_of body with inr false => true | _ => false end
  | _ => false
  end.

(** A retry after a rejection, read on the trace of one operation: one
    handshake (a challenge and a session request) and the filter fetched a
    second time. *)
Definition rehandshake_and_retry (t : list event) : Prop :=
  count_tag TChallenge t = 1%nat ∧ count_tag TSession t = 1%nat ∧
  count_tag TFilterGet t = 2%nat.

(** A client holding a session token that the gateway accepts when probed
    and rejects from the first filter request on. *)
Definition stale_client : @gstate (list reply) :=
  mkG (mkApi (JStr "stale") (JStr "secret") true)
      [Response 200 (Some ok_body);
       Response 403 (Some rejected_body);
       Response 403 (Some rejected_body)].

(** A gateway that accepts every login request and rejects the rest. *)
Definition rejecting (w : unit) (r : request) : unit * reply :=
  (w, if is_filter_request r then Response 403 (Some rejected_body)
      else Response 200 (Some ok_body)).

(** ** Filter lists *)

(** A filter entry for another MAC, the body of a filter response and a
    client whose session token the scripted gateway accepts. *)
Definition other_entry : json :=
  JDict [("mac", JStr "AA:BB:CC:DD:EE:02"); ("id", JStr "AA:BB:CC:DD:EE:02-blacklist")].

Definition filter_body (flt : json) : json :=
  JDict [("success", JBool true); ("result", flt)].

Definition valid_client (script : list reply) : @gstate (list reply) :=
  mkG (mkApi (JStr "tok") (JStr "secret") true) script.

(** The entries a filter list stands for, in order: MAC as listed and
    filter id. In a list every entry is an object with a ["mac"] string and
    possibly an ["id"]; in a dict the key is the MAC and the id is the
    ["id"] of the value when it is an object, and the MAC followed by
    [-blacklist] otherwise. *)
Fixpoint entries_of_list (l : list json) : option (list (string * json)) :=
  match l with
  | [] => Some []
  | JDict f :: r =>
      match PyJson.dict_lookup f "mac" with
      | Some (JStr m) =>
          cons (m, default JNull (PyJson.dict_lookup f "id")) <$> entries_of_list r
      | _ => None
      end
  | _ => None
  end.

Definition entry_of_item (kv : string * json) : string * json :=
  (kv.1, match kv.2 with
         | JDict i => default JNull (PyJson.dict_lookup i "id")
         | _ => JStr (kv.1 ++ "-blacklist")
         end).

Definition entries_of_dict (d : list (string * json)) : list (string * json) :=
  entry_of_item <$> d.

(** Membership and id lookup on the entries, ignoring case. *)
Fixpoint entries_have (es : list (string * json)) (target : string) : bool :=
  match es with
  | [] => false
  | (m, _) :: r => if String.eqb (Py.lower m) target then true else entries_have r target
  end.

Fixpoint entries_id (es : list (string * json)) (target : string) : json :=
  match es with
  | [] => JNull
  | (m, i) :: r => if String.eqb (Py.lower m) target then i else entries_id r target
  end.

(** Two filter lists, one in each shape, that stand for the same entries. *)
Definition same_entries (l : list json) (d : list (string * json)) : Prop :=
  entries_of_list l = Some (entries_of_dict d).

(** Two responses that differ only in the shape of their ["result"]. *)
Inductive same_filter_body : json → json → Prop :=
| same_body_refl res : same_filter_body res res
| same_body_shape pre post l d :
    same_entries l d →
    same_filter_body (JDict (pre ++ ("result", JList l) :: post))
                     (JDict (pre ++ ("result", JDict d) :: post)).

Inductive same_filter_reply : reply → reply → Prop :=
| same_reply_refl rp : same_filter_reply rp rp
| same_reply_body code res1 res2 :
    same_filter_body res1 res2 →
    same_filter_reply (Response code (Some res1)) (Response code (Some res2)).


Definition entry_01 : json :=
  JDict [("mac", JStr "AA:BB:CC:DD:EE:01"); ("id", JStr "AA:BB:CC:DD:EE:01-blacklist")].

(** A reference gateway for concrete runs: its state is the list of the
    MACs in its filter; it accepts every login request and every token,
    lists the filter as entry objects and adds what it is asked to add. *)
Definition entry_of_mac (m : string) : json :=
  JDict [("mac", JStr m); ("id", JStr (m ++ "-blacklist"))].

Definition filter_gateway (w : list string) (r : request) : list string * reply :=
  match r with
  | GET_mac_filter _ => (w, Response 200 (Some (filter_body (JList (entry_of_mac <$> w)))))
  | POST_mac_filter _ mac =>
      (mac :: w, Response 200 (Some (filter_body (entry_of_mac mac))))
  | _ => (w, Response 200 (Some ok_body))
  end.

Fixpoint gateway_blocks (w : list string) (target : string) : bool :=
  match w with
  | [] => false
  | m :: r => if String.eqb (Py.lower m) target then true else gateway_blocks r target
  end.

(** From [s] to [s'] the filter, seen through [in_filter], changed at
    most by gaining [target]. *)
Definition filter_at_most_added {W} (in_filter : W → string → bool)
    (target : string) (s s' : @gstate W) : Prop :=
  ∀ m, in_filter (gw s') m = in_filter (gw s) m ∨
       (m = target ∧ in_filter (gw s') m = true).

(** ** The registry and concrete cycles *)

(** The status the registry holds for a MAC ([None]: no row, or a row
    whose status is [NULL]); this is what [known_macs.get(mac)] reads. *)
Definition status_of (t : gmap string row) (mac : string) : option policy_status :=
  t !! mac ≫= status.

Definition tick (n : nat) : Z := 1000 + Z.of_nat n.

(** A banned device that the gateway reports with access allowed. *)
Definition phone : json :=
  JDict [("l2ident", JDict [("id", JStr "AA:BB:CC:DD:EE:01")]);
         ("primary_name", JStr "phone"); ("active", JBool true);
         ("access", JBool true)].

Definition drifted : @lstate (list reply) :=
  mkL (valid_client
         [Response 200 (Some ok_body);
          Response 200 (Some (filter_body (JList [phone])));
          Response 200 (Some ok_body);
          Response 200 (Some (filter_body (JList [])));
          Response 200 (Some (filter_body (entry_of_mac "AA:BB:CC:DD:EE:01")))])
      {[ "aa:bb:cc:dd:ee:01" := sample_row ]} 0 0.

(** ** Enforcement events, stability and locality *)

(** [e] enters an enforcement operation [o] on [m]. *)
Definition enters (e : event) (o : op) (m : string) : Prop :=
  e = EvEnforce o m ∨ e = EvCall o m.

(** From [g] to [g'] the app token is the same and the client was not
    connected if it was not already. *)
Definition client_stable {W} (g g' : @gstate W) : Prop :=
  app_token (api g') = app_token (api g) ∧
  (connected (api g') = true → connected (api g) = true).

Definition loop_stable {W} (s s' : @lstate W) : Prop := client_stable (fbx s) (fbx s').

(** What a cycle can still emit when the client is not connected:
    registry writes, the entries into [block_mac] and [allow_mac], and
    new-device alerts without a host name. *)
Definition local_event (e : event) : Prop :=
  match e with
  | EvUpsert _ _ | EvEnforce _ _ => True
  | EvNewDeviceAlert _ _ hostname => hostname = unknown_device
  | _ => False
  end.

(** [e] is a drift warning or the entry into a corrective call. *)
Definition corrects (e : event) (o : op) (m : string) : Prop :=
  e = EvDriftWarning o m ∨ e = EvCall o m.

(** Replies of a handshake, and a client without a session token. *)
Definition challenge_body : json :=
  JDict [("success", JBool true); ("result", JDict [("challenge", JStr "c0ffee")])].

Definition session_body (tok : json) : json :=
  JDict [("success", JBool true); ("result", JDict [("session_token", tok)])].

Definition fresh_client (script : list reply) : @gstate (list reply) :=
  mkG (mkApi JNull (JStr "secret") true) script.

(** A filter entry for the MAC that carries no id. *)
Definition entry_without_id : json := JDict [("mac", JStr "AA:BB:CC:DD:EE:01")].

(** A device that is known to the gateway but not active. *)
Definition idle_printer : json :=
  JDict [("l2ident", JDict [("id", JStr "AA:BB:CC:DD:EE:03")]);
         ("primary_name", JStr "printer"); ("active", JBool false)].

(** ** Start-up, credential file and web interface *)

Section BootVocabulary.

Context {W : Type}.
Variable handle_boot : W → boot_request → W * reply.
Variable py_repr : json → string.
Variables can_read can_write : string → bool.
Implicit Types b : @bstate W.

(** What the probe of one address leaves: the request is recorded, the
    gateway moved on, and the endpoint is set when the answer is kept. *)
Definition probed (base_url : string) b : bool * bstate :=
  match handle_boot (gw (client b)) (GET_api_version base_url) with
  | (w', rp) =>
      let b' := mkB (mkG (api (client b)) w') (setup b) (files b)
                    (sent b ++ [GET_api_version base_url]) (now_reads b) in
      match rp with
      | Response code (Some (JDict info)) =>
          let version := default JNull (PyJson.dict_lookup info "api_version") in
          if (code =? 200)%Z && PyJson.truthy version then
            (true, with_setup
                     (mkSetup base_url
                        ("v" ++ hd "" (Py.split_on "." (py_str py_repr version)))
                        (token_file (setup b)) (tokens_data (setup b))) b')
          else (false, b')
      | _ => (false, b')
      end
  end.

(** The first location whose file loads, with what it holds. *)
Fixpoint first_loadable (locations : list string) b : option (string * json) :=
  match locations with
  | [] => None
  | location :: rest =>
      match read_json can_read location b with
      | Some j => Some (location, j)
      | None => first_loadable rest b
      end
  end.

(** The first location that can be written. *)
Fixpoint first_writable (locations : list string) : option string :=
  match locations with
  | [] => None
  | location :: rest =>
      if can_write location then Some location else first_writable rest
  end.

(** [tokens_data] holds an object, as after a load that succeeded. *)
Definition holds_object b : Prop := ∃ d, tokens_data (setup b) = Some (JDict d).

End BootVocabulary.

(** The row with its status replaced. *)
Definition set_status (st : policy_status) (r : row) : row :=
  mkRow (Some st) (first_seen r) (last_seen r) (comment r).

(** A scripted gateway for the start-up requests, a file system where
    every path can be opened, and a credential file. *)
Definition scripted_boot (w : list reply) (_ : boot_request) : list reply * reply :=
  match w with
  | [] => ([], Raises ConnectionError)
  | r :: w' => (w', r)
  end.

Definition every_path (_ : string) : bool := true.

Definition no_repr (_ : json) : string := "".

Definition stamp (t : Z) : string := pretty t.

Definition stored_credentials : list (string * json) := [("app_token", JStr "secret")].

Definition boot_script : list reply :=
  [Response 200 (Some (JDict [("api_version", JStr "8.2")]));
   Response 200 (Some challenge_body);
   Response 200 (Some (session_body (JStr "tok")));
   Response 200 (Some (JDict [("success", JBool true); ("result", JDict [])]))].

Definition new_object (script : list reply) : @bstate (list reply) :=
  mkB (mkG (mkApi JNull JNull false) script)
      (mkSetup "http://mafreebox.freebox.fr" "v8" None None)
      {["/etc/traffic_sentinel_tokens.json" := Json (JDict stored_credentials)]} [] 0.

Definition loaded_object (g : @gstate (list reply)) : @bstate (list reply) :=
  mkB g
      (mkSetup "http://mafreebox.freebox.fr" "v8"
         (Some "/etc/traffic_sentinel_tokens.json") (Some (JDict stored_credentials)))
      {["/etc/traffic_sentinel_tokens.json" := Json (JDict stored_credentials)]} [] 0.

Definition web_process (g : @gstate (list reply)) (t : gmap string row)
  : @wstate (list reply) :=
  mkWeb (loaded_object g) t true [] 0.

Definition status_form (mac text : string) : gmap string string :=
  {["mac_address" := mac; "status" := text]}.

(** ** Entries of the filter, gateways that follow the client, discovery *)

(** The entries that a fetched filter list stands for, in either shape; a
    value that is neither a list nor a dict is not searched and stands
    for no entry. *)
Definition filter_entries (flt : json) : option (list (string * json)) :=
  match flt with
  | JList l => entries_of_list l
  | JDict d => Some (entries_of_dict d)
  | _ => Some []
  end.

(** What holds of the flag [connected] from [g] to [g']. *)
Definition same_connected {W} (g g' : @gstate W) : Prop :=
  connected (api g') = connected (api g).

(** The enforcement operation of the client for [o]. *)
Definition enforcement {W} (handle : W → request → W * reply)
    (hmac : string → string → string) (o : op) (mac : string) : M (@gstate W) bool :=
  match o with
  | Block => block_device_by_mac handle hmac mac
  | Allow => allow_device_by_mac handle hmac mac
  end.

(** From [g] to [g'] the tokens and the flag of the client are the same. *)
Definition same_api {W} (g g' : @gstate W) : Prop := api g' = api g.

(** An alert sent to the operators. *)
Definition is_alert (e : event) : Prop :=
  match e with
  | EvBlockedAlert _ _ | EvNewDeviceAlert _ _ _ => True
  | _ => False
  end.

(** What [block_device_by_mac] relies on in a gateway, [in_filter] telling
    which (lower-case) MACs its filter blocks: only an add or a delete
    request changes the filter; an add request changes it at most at its
    own MAC, which it can only add, and does add it when it answers with
    success; a fetch that is answered with success lists, in one of the
    two shapes, exactly the MACs of the filter. *)
Definition filter_model {W} (handle : W → request → W * reply)
    (in_filter : W → string → bool) : Prop :=
  (∀ w r m,
     (∀ tok mac, r ≠ POST_mac_filter tok mac) →
     (∀ tok i, r ≠ DELETE_mac_filter tok i) →
     in_filter (handle w r).1 m = in_filter w m) ∧
  (∀ w tok mac m,
     in_filter (handle w (POST_mac_filter tok mac)).1 m = in_filter w m ∨
     (m = Py.lower mac ∧ in_filter (handle w (POST_mac_filter tok mac)).1 m = true)) ∧
  (∀ w tok mac w' code res,
     handle w (POST_mac_filter tok mac) = (w', Response code (Some res)) →
     success_of res = inr true →
     in_filter w' (Py.lower mac) = true) ∧
  (∀ w tok w' code res,
     handle w (GET_mac_filter tok) = (w', Response code (Some res)) →
     success_of res = inr true →
     ∃ flt es,
       PyJson.get res "result" (JList []) = inr flt ∧
       filter_entries flt = Some es ∧
       ∀ m, entries_have es m = in_filter w m).

(** A gateway that accepts the corrections of a client holding the session
    token [t], [held] giving the entries of its filter (MAC as stored, and
    id): it accepts the token whenever it is probed; it lists its filter
    on request; it accepts an add request, after which the MAC is held,
    and a delete request for the id it lists for a MAC, after which the
    MAC is not held; neither changes what is held for another MAC. *)
Definition accepts_corrections {W} (handle : W → request → W * reply)
    (t : string) (held : W → list (string * json)) : Prop :=
  t ≠ "" ∧
  (∀ w, ∃ w' res,
     handle w (GET_login_probe t) = (w', Response 200 (Some res)) ∧
     success_of res = inr true ∧ held w' = held w) ∧
  (∀ w, ∃ w' code res flt,
     handle w (GET_mac_filter t) = (w', Response code (Some res)) ∧
     success_of res = inr true ∧
     PyJson.get res "result" (JList []) = inr flt ∧
     filter_entries flt = Some (held w) ∧ held w' = held w) ∧
  (∀ w mac, ∃ w' code res d,
     handle w (POST_mac_filter t mac) = (w', Response code (Some res)) ∧
     success_of res = inr true ∧
     PyJson.get res "result" (JDict []) = inr (JDict d) ∧
     entries_have (held w') (Py.lower mac) = true ∧
     ∀ m, m ≠ Py.lower mac → entries_have (held w') m = entries_have (held w) m) ∧
  (∀ w m,
     entries_have (held w) m = true →
     PyJson.truthy (entries_id (held w) m) = true ∧
     ∃ w' code res,
       handle w (DELETE_mac_filter t (entries_id (held w) m)) =
         (w', Response code (Some res)) ∧
       success_of res = inr true ∧
       entries_have (held w') m = false ∧
       ∀ m', m' ≠ m → entries_have (held w') m' = entries_have (held w) m').

(** A reference gateway that also reports devices and deletes entries:
    its state is the list of the MACs in its filter, as stored; an entry
    is deleted through the id it is listed with, whatever the case. *)
Definition home_entries (w : list string) : list (string * json) :=
  (λ m, (m, JStr (m ++ "-blacklist"))) <$> w.

Definition listed_as (i : json) (m : string) : bool :=
  match i with
  | JStr x => String.eqb (Py.lower x) (Py.lower (m ++ "-blacklist"))
  | _ => false
  end.

Definition home_gateway (devices : json) (w : list string) (r : request)
  : list string * reply :=
  match r with
  | GET_lan_browser _ => (w, Response 200 (Some (filter_body devices)))
  | GET_mac_filter _ => (w, Response 200 (Some (filter_body (JList (entry_of_mac <$> w)))))
  | POST_mac_filter _ mac =>
      (mac :: w, Response 200 (Some (filter_body (entry_of_mac mac))))
  | DELETE_mac_filter _ i =>
      (filter (λ m, negb (listed_as i m)) w, Response 200 (Some ok_body))
  | _ => (w, Response 200 (Some ok_body))
  end.

(** The registry bans a device that the reference gateway reports with
    access allowed and does not hold in its filter. *)
Definition drifted_home : @lstate (list string) :=
  mkL (mkG (mkApi (JStr "tok") (JStr "secret") true) [])
      {[ "aa:bb:cc:dd:ee:01" := sample_row ]} 0 0.

Section DiscoveryVocabulary.

Context {W : Type}.
Variable handle_boot : W → boot_request → W * reply.

(** Whether the answer to a probe makes [get_api_version] keep the
    address: status 200 and a JSON object with a truthy ["api_version"]. *)
Definition answers_well (rp : reply) : bool :=
  match rp with
  | Response code (Some (JDict info)) =>
      (code =? 200)%Z && PyJson.truthy (default JNull (PyJson.dict_lookup info "api_version"))
  | _ => false
  end.

(** The gateway after the addresses [urls] were probed in turn. *)
Fixpoint world_after (urls : list string) (w : W) : W :=
  match urls with
  | [] => w
  | base_url :: rest => world_after rest (handle_boot w (GET_api_version base_url)).1
  end.

(** None of the addresses [urls], probed in turn, answers well. *)
Fixpoint all_refused (urls : list string) (w : W) : bool :=
  match urls with
  | [] => true
  | base_url :: rest =>
      negb (answers_well (handle_boot w (GET_api_version base_url)).2) &&
      all_refused rest (handle_boot w (GET_api_version base_url)).1
  end.

End DiscoveryVocabulary.

(** * Properties *)

(** ** Basic facts about runs *)

Section Runs.
Context {St : Type}.
Implicit Types s : St.

Lemma run_bind {A B} (m : M St A) (k : A → M St B) s :
  (m ≫= k) s =
  match m s with
  | (inl e, s', ev) => (inl e, s', ev)
  | (inr a, s', ev) => match k a s' with (r, s'', ev') => (r, s'', ev ++ ev') end
  end.
Proof. reflexivity. Qed.

Lemma run_bind_ok {A B} (m : M St A) (k : A → M St B) s a s' ev :
  m s = (inr a, s', ev) →
  (m ≫= k) s = (result (k a s'), final (k a s'), ev ++ trace (k a s')).
Proof.
  intros Hm. rewrite run_bind, Hm. destruct (k a s') as [[r s''] ev']. reflexivity.
Qed.

Lemma run_bind_raise {A B} (m : M St A) (k : A → M St B) s e s' ev :
  m s = (inl e, s', ev) → (m ≫= k) s = (inl e, s', ev).
Proof. intros Hm. rewrite run_bind, Hm. reflexivity. Qed.

Lemma run_bind_ret {A B} (a : A) (k : A → M St B) s : (mret a ≫= k) s = k a s.
Proof. rewrite run_bind. simpl. by destruct (k a s) as [[? ?] ?]. Qed.

Lemma run_bind_gets {A B} (f : St → A) (k : A → M St B) s :
  (gets f ≫= k) s = k (f s) s.
Proof. rewrite run_bind. simpl. by destruct (k (f s) s) as [[? ?] ?]. Qed.

Lemma run_bind_modify {B} f (k : unit → M St B) s :
  (modify f ≫= k) s = k tt (f s).
Proof. rewrite run_bind. simpl. by destruct (k tt (f s)) as [[? ?] ?]. Qed.

Lemma run_bind_pure_ok {A B} (a : A) (k : A → M St B) s :
  (pure (inr a) ≫= k) s = k a s.
Proof. rewrite run_bind. simpl. by destruct (k a s) as [[? ?] ?]. Qed.

Lemma run_bind_pure_raise {A B} e (k : A → M St B) s :
  (pure (inl e) ≫= k) s = (inl e, s, []).
Proof. reflexivity. Qed.

Lemma run_bind_raised {A B} e (k : A → M St B) s :
  (raise e ≫= k) s = (inl e, s, []).
Proof. reflexivity. Qed.

Lemma run_bind_assoc {A B C} (m : M St A) (f : A → M St B) (g : B → M St C) s :
  ((m ≫= f) ≫= g) s = (m ≫= λ a, f a ≫= g) s.
Proof.
  rewrite !run_bind. destruct (m s) as [[[e|a] s'] ev]; [done|].
  rewrite run_bind. destruct (f a s') as [[[e|b] s''] ev']; [done|].
  destruct (g b s'') as [[r s3] ev3]. by rewrite app_assoc.
Qed.

Lemma run_bind_emit {B} e (k : unit → M St B) s :
  (emit e ≫= k) s = (result (k tt s), final (k tt s), e :: trace (k tt s)).
Proof. rewrite run_bind. simpl. by destruct (k tt s) as [[? ?] ?]. Qed.

Lemma run_try_ok {A} (m : M St A) h s a s' ev :
  m s = (inr a, s', ev) → try_catch m h s = (inr a, s', ev).
Proof. intros Hm. unfold try_catch. by rewrite Hm. Qed.

Lemma run_try_raise {A} (m : M St A) h s e s' ev :
  m s = (inl e, s', ev) →
  try_catch m h s = (result (h e s'), final (h e s'), ev ++ trace (h e s')).
Proof.
  intros Hm. unfold try_catch. rewrite Hm. by destruct (h e s') as [[? ?] ?].
Qed.

End Runs.

Ltac run_step :=
  repeat (progress
    (cbv beta iota;
     rewrite ?run_bind_assoc, ?run_bind_ret, ?run_bind_gets, ?run_bind_modify,
       ?run_bind_pure_ok, ?run_bind_pure_raise, ?run_bind_raised)).

(** Project a run that is given as a triple. *)
Ltac run_proj := simpl result; simpl final; simpl trace.

(** ** Scan adapter *)

Example scan_network_sample :
  elements (scan_network (Completed
     ("Interface: enp0s5" ++ String "010" "192.168.1.10" ++ String "009" "AA:BB:CC:DD:EE:01"
      ++ String "010" "192.168.1.11 aa:bb:cc:dd:ee:02 extra" ++ String "010" "")))
  ≡ₚ ["aa:bb:cc:dd:ee:01"; "aa:bb:cc:dd:ee:02"].
Proof. vm_compute. reflexivity. Qed.

Lemma lower_char_idemp c : Py.lower_char (Py.lower_char c) = Py.lower_char c.
Proof. destruct c as [[] [] [] [] [] [] [] []]; reflexivity. Qed.

Lemma lower_idemp s : Py.lower (Py.lower s) = Py.lower s.
Proof. induction s as [|c s IH]; simpl; [reflexivity|]. by rewrite lower_char_idemp, IH. Qed.

Lemma scan_line_canonical devices line :
  (∀ m, m ∈ devices → canonical_mac m) →
  ∀ m, m ∈ scan_line devices line → canonical_mac m.
Proof.
  intros Hd m. unfold scan_line.
  destruct (Py.contains ":" line && (2 <=? length (Py.split_ws line))%nat); [|apply Hd].
  destruct (Py.split_ws line) as [|w0 [|w ws]]; try apply Hd.
  simpl. destruct (length (Py.split_on ":" (Py.lower w)) =? 6)%nat eqn:Hlen; [|apply Hd].
  rewrite elem_of_union, elem_of_singleton. intros [->|Hin]; [|by apply Hd].
  split; [apply lower_idemp|by apply Nat.eqb_eq].
Qed.

Lemma scan_lines_canonical lines devices :
  (∀ m, m ∈ devices → canonical_mac m) →
  ∀ m, m ∈ foldl scan_line devices lines → canonical_mac m.
Proof.
  revert devices. induction lines as [|line lines IH]; intros devices Hd; simpl; [done|].
  apply IH. by apply scan_line_canonical.
Qed.

(** C10. [scan_network] is total: a timeout or any other error of the
    discovery tool gives the empty set, and every element of the returned
    set is in lower case and made of exactly six colon-separated groups. *)
Theorem scan_network_canonical :
  scan_network TimeoutExpired = ∅ ∧ scan_network RunError = ∅ ∧
  ∀ run m, m ∈ scan_network run → canonical_mac m.
Proof.
  split; [reflexivity|]. split; [reflexivity|].
  intros [| |stdout] m; simpl; try set_solver.
  apply scan_lines_canonical. set_solver.
Qed.

Lemma scan_network_canonical_witness :
  canonical_mac "aa:bb:cc:dd:ee:01".
Proof.
  apply (proj2 (proj2 scan_network_canonical)
           (Completed "192.168.1.10 AA:BB:CC:DD:EE:01") "aa:bb:cc:dd:ee:01").
  vm_compute. reflexivity.
Defined.

(** ** Policy registry *)

Section Registry.
Context {W : Type}.
Variable clock : nat → Z.
Implicit Types s : @lstate W.

Lemma update_mac_status_run mac st s :
  update_mac_status clock mac st s =
  match db s !! mac with
  | Some r =>
      (inr tt,
       mkL (fbx s)
           (<[mac := mkRow (Some st) (first_seen r) (clock (clock_reads s)) (comment r)]> (db s))
           (S (clock_reads s)) (status_check_counter s),
       [EvUpsert mac st])
  | None =>
      (inr tt,
       mkL (fbx s)
           (<[mac := mkRow (Some st) (clock (clock_reads s)) (clock (S (clock_reads s))) (Some "")]> (db s))
           (S (S (clock_reads s))) (status_check_counter s),
       [EvUpsert mac st])
  end.
Proof.
  unfold update_mac_status. rewrite run_bind. unfold gets at 1.
  destruct (db s !! mac) as [r|]; reflexivity.
Qed.

(** C7. On a MAC that already has a row, [update_mac_status] keeps the
    row's [first_seen] and [comment], sets [last_seen] to the time read
    during the call and writes the given status; no other row changes. *)
Theorem update_mac_status_preserves_history mac st s r :
  db s !! mac = Some r →
  let s' := final (update_mac_status clock mac st s) in
  result (update_mac_status clock mac st s) = inr tt ∧
  db s' !! mac =
    Some (mkRow (Some st) (first_seen r) (clock (clock_reads s)) (comment r)) ∧
  (∀ mac', mac' ≠ mac → db s' !! mac' = db s !! mac') ∧
  fbx s' = fbx s.
Proof.
  intros Hr. rewrite update_mac_status_run, Hr. simpl.
  split; [reflexivity|]. split; [apply lookup_insert_eq|].
  split; [|reflexivity]. intros mac' Hne. by apply lookup_insert_ne.
Qed.

End Registry.

Lemma update_mac_status_preserves_history_witness :
  db (final (update_mac_status (λ n, 100 + Z.of_nat n)%Z "aa:bb:cc:dd:ee:01" Banned
               (sample_lstate {[ "aa:bb:cc:dd:ee:01" := sample_row ]})))
    !! "aa:bb:cc:dd:ee:01"
  = Some (mkRow (Some Banned) 10 100 (Some "printer")).
Proof.
  apply (update_mac_status_preserves_history (λ n, 100 + Z.of_nat n)%Z
           "aa:bb:cc:dd:ee:01" Banned
           (sample_lstate {[ "aa:bb:cc:dd:ee:01" := sample_row ]}) sample_row).
  vm_compute. reflexivity.
Defined.

(** ** Empty or failed scan *)

Section EmptyScan.
Context {W : Type}.
Variable handle : W → request → W * reply.
Variable hmac : string → string → string.
Variable clock : nat → Z.
Implicit Types s : @lstate W.

(** C2. When the scan fails (timeout or error) or finds nothing, the
    iteration of the main loop ends at once: the state, and with it every
    row of the registry, is exactly what it was, and nothing is observed
    (no registry write, no enforcement, no drift check). *)
Theorem empty_scan_freezes_registry run s :
  run = TimeoutExpired ∨ run = RunError ∨ scan_network run = ∅ →
  main_iteration handle hmac clock run s = (inr tt, s, []).
Proof.
  intros Hrun. assert (scan_network run = ∅) as Hempty.
  { destruct Hrun as [->|[->|H]]; [reflexivity|reflexivity|exact H]. }
  unfold main_iteration. rewrite Hempty. reflexivity.
Qed.

End EmptyScan.

Lemma empty_scan_freezes_registry_witness :
  main_iteration scripted no_hmac (λ n, Z.of_nat n) TimeoutExpired
    (sample_lstate {[ "aa:bb:cc:dd:ee:01" := sample_row ]})
  = (inr tt, sample_lstate {[ "aa:bb:cc:dd:ee:01" := sample_row ]}, []).
Proof.
  apply (empty_scan_freezes_registry scripted no_hmac (λ n, Z.of_nat n) TimeoutExpired
           (sample_lstate {[ "aa:bb:cc:dd:ee:01" := sample_row ]})).
  left. reflexivity.
Defined.

(** ** Traces: kinds of events and the shape of a run *)

Section Shapes.
Context {St : Type}.

Lemma silent_ret {A} (a : A) : silent (mret a : M St A).
Proof. intros s. reflexivity. Qed.
Lemma silent_raise {A} e : silent (raise e : M St A).
Proof. intros s. reflexivity. Qed.
Lemma silent_gets {A} (f : St → A) : silent (gets f).
Proof. intros s. reflexivity. Qed.
Lemma silent_modify f : silent (modify f : M St unit).
Proof. intros s. reflexivity. Qed.
Lemma silent_pure {A} (x : exn + A) : silent (pure x : M St A).
Proof. intros s. reflexivity. Qed.

Lemma trace_bind {A B} (m : M St A) (k : A → M St B) s :
  trace ((m ≫= k) s) =
  match result (m s) with
  | inl _ => trace (m s)
  | inr a => trace (m s) ++ trace (k a (final (m s)))
  end.
Proof.
  rewrite run_bind. unfold result, final, trace.
  destruct (m s) as [[[e|a] s'] ev]; simpl; [reflexivity|].
  destruct (k a s') as [[r s''] ev']. reflexivity.
Qed.

Lemma final_bind {A B} (m : M St A) (k : A → M St B) s :
  final ((m ≫= k) s) =
  match result (m s) with
  | inl _ => final (m s)
  | inr a => final (k a (final (m s)))
  end.
Proof.
  rewrite run_bind. unfold result, final, trace.
  destruct (m s) as [[[e|a] s'] ev]; simpl; [reflexivity|].
  destruct (k a s') as [[r s''] ev']. reflexivity.
Qed.

Lemma result_bind {A B} (m : M St A) (k : A → M St B) s :
  result ((m ≫= k) s) =
  match result (m s) with
  | inl e => inl e
  | inr a => result (k a (final (m s)))
  end.
Proof.
  rewrite run_bind. unfold result, final, trace.
  destruct (m s) as [[[e|a] s'] ev]; simpl; [reflexivity|].
  destruct (k a s') as [[r s''] ev']. reflexivity.
Qed.

Lemma trace_try {A} (m : M St A) h s :
  trace (try_catch m h s) =
  match result (m s) with
  | inl e => trace (m s) ++ trace (h e (final (m s)))
  | inr _ => trace (m s)
  end.
Proof.
  unfold try_catch, result, final, trace.
  destruct (m s) as [[[e|a] s'] ev]; simpl; [|reflexivity].
  destruct (h e s') as [[r s''] ev']. reflexivity.
Qed.

Lemma final_try {A} (m : M St A) h s :
  final (try_catch m h s) =
  match result (m s) with
  | inl e => final (h e (final (m s)))
  | inr _ => final (m s)
  end.
Proof.
  unfold try_catch, result, final, trace.
  destruct (m s) as [[[e|a] s'] ev]; simpl; [|reflexivity].
  destruct (h e s') as [[r s''] ev']. reflexivity.
Qed.

Lemma result_try {A} (m : M St A) h s :
  result (try_catch m h s) =
  match result (m s) with
  | inl e => result (h e (final (m s)))
  | inr a => inr a
  end.
Proof.
  unfold try_catch, result, final, trace.
  destruct (m s) as [[[e|a] s'] ev]; simpl; [|reflexivity].
  destruct (h e s') as [[r s''] ev']. reflexivity.
Qed.

(** *** Rules for [shaped] *)

Lemma shaped_silent {A} L (m : M St A) : silent m → shaped L m.
Proof. intros Hm s. rewrite Hm. apply sublist_nil_l. Qed.

Lemma shaped_weaken {A} L L' (m : M St A) :
  shaped L m → L `sublist_of` L' → shaped L' m.
Proof. intros Hm HL s. transitivity L; [apply Hm|exact HL]. Qed.

Lemma shaped_emit e : shaped [tag_of e] (emit e : M St unit).
Proof. intros s. reflexivity. Qed.

Lemma shaped_bind {A B} L1 L2 L (m : M St A) (k : A → M St B) :
  shaped L1 m → (∀ a, shaped L2 (k a)) → L1 ++ L2 `sublist_of` L →
  shaped L (m ≫= k).
Proof.
  intros Hm Hk HL s. rewrite trace_bind. etrans; [|exact HL].
  destruct (result (m s)) as [e|a].
  - etrans; [apply Hm|]. by apply sublist_inserts_r.
  - rewrite fmap_app. apply sublist_app; [apply Hm|apply Hk].
Qed.

Lemma shaped_bind_silent {A B} L (m : M St A) (k : A → M St B) :
  silent m → (∀ a, shaped L (k a)) → shaped L (m ≫= k).
Proof.
  intros Hm Hk. apply (shaped_bind [] L); [by apply shaped_silent|done|done].
Qed.

Lemma shaped_try {A} L1 L2 L (m : M St A) h :
  shaped L1 m → (∀ e, shaped L2 (h e)) → L1 ++ L2 `sublist_of` L →
  shaped L (try_catch m h).
Proof.
  intros Hm Hh HL s. rewrite trace_try. etrans; [|exact HL].
  destruct (result (m s)) as [e|a].
  - rewrite fmap_app. apply sublist_app; [apply Hm|apply Hh].
  - etrans; [apply Hm|]. by apply sublist_inserts_r.
Qed.

Lemma shaped_try_silent {A} L (m : M St A) h :
  shaped L m → (∀ e, silent (h e)) → shaped L (try_catch m h).
Proof.
  intros Hm Hh. apply (shaped_try L []); [done| |by rewrite app_nil_r].
  intros e. by apply shaped_silent.
Qed.

Lemma shaped_emits {A} L (P : event → Prop) (m : M St A) :
  shaped L m → (∀ e, tag_of e ∈ L → P e) → emits P m.
Proof.
  intros Hm HP s. apply Forall_forall. intros e He. apply HP.
  eapply elem_of_sublist; [|apply Hm]. by apply list_elem_of_fmap_2.
Qed.

(** *** Rules for [emits] *)

Lemma emits_silent {A} P (m : M St A) : silent m → emits P m.
Proof. intros Hm s. rewrite Hm. constructor. Qed.

Lemma emits_emit (P : event → Prop) e : P e → emits P (emit e : M St unit).
Proof. intros He s. simpl. by repeat constructor. Qed.

Lemma emits_bind {A B} P (m : M St A) (k : A → M St B) :
  emits P m → (∀ a, emits P (k a)) → emits P (m ≫= k).
Proof.
  intros Hm Hk s. rewrite trace_bind. destruct (result (m s)); [apply Hm|].
  apply Forall_app. split; [apply Hm|apply Hk].
Qed.

Lemma emits_try {A} P (m : M St A) h :
  emits P m → (∀ e, emits P (h e)) → emits P (try_catch m h).
Proof.
  intros Hm Hh s. rewrite trace_try. destruct (result (m s)); [|apply Hm].
  apply Forall_app. split; [apply Hm|apply Hh].
Qed.

Lemma emits_mono {A} (P Q : event → Prop) (m : M St A) :
  emits P m → (∀ e, P e → Q e) → emits Q m.
Proof. intros Hm HPQ s. eapply Forall_impl; [apply Hm|exact HPQ]. Qed.

Lemma emits_for_each {A} P (f : A → M St unit) l :
  (∀ x, x ∈ l → emits P (f x)) → emits P (for_each f l).
Proof.
  induction l as [|x l IH]; intros Hf; simpl.
  - by apply emits_silent, silent_ret.
  - apply emits_bind; [apply Hf; left|]. intros _. apply IH.
    intros y Hy. apply Hf. by right.
Qed.

(** *** Rules for [total] *)

Lemma total_ret {A} (a : A) : total (mret a : M St A).
Proof. intros s. by exists a. Qed.
Lemma total_gets {A} (f : St → A) : total (gets f).
Proof. intros s. by eexists. Qed.
Lemma total_modify f : total (modify f : M St unit).
Proof. intros s. by eexists. Qed.
Lemma total_emit e : total (emit e : M St unit).
Proof. intros s. by eexists. Qed.

Lemma total_bind {A B} (m : M St A) (k : A → M St B) :
  total m → (∀ a, total (k a)) → total (m ≫= k).
Proof.
  intros Hm Hk s. rewrite result_bind. destruct (Hm s) as [a ->]. apply Hk.
Qed.

Lemma total_try {A} (m : M St A) h : (∀ e, total (h e)) → total (try_catch m h).
Proof.
  intros Hh s. rewrite result_try. destruct (result (m s)) as [e|a]; [apply Hh|by eexists].
Qed.

Lemma total_for_each {A} (f : A → M St unit) l :
  (∀ x, total (f x)) → total (for_each f l).
Proof.
  intros Hf. induction l as [|x l IH]; simpl; [apply total_ret|].
  apply total_bind; [apply Hf|]. intros _. apply IH.
Qed.

(** *** Rules for [keeps] *)

Lemma keeps_same {A} (R : St → St → Prop) `{!Reflexive R} (m : M St A) :
  (∀ s, final (m s) = s) → keeps R m.
Proof. intros Hm s. by rewrite Hm. Qed.

Lemma keeps_bind {A B} (R : St → St → Prop) `{!Transitive R}
    (m : M St A) (k : A → M St B) :
  keeps R m → (∀ a, keeps R (k a)) → keeps R (m ≫= k).
Proof.
  intros Hm Hk s. rewrite final_bind. destruct (result (m s)); [apply Hm|].
  etrans; [apply Hm|apply Hk].
Qed.

Lemma keeps_try {A} (R : St → St → Prop) `{!Transitive R} (m : M St A) h :
  keeps R m → (∀ e, keeps R (h e)) → keeps R (try_catch m h).
Proof.
  intros Hm Hh s. rewrite final_try. destruct (result (m s)); [|apply Hm].
  etrans; [apply Hm|apply Hh].
Qed.

Lemma keeps_for_each {A} (R : St → St → Prop) `{!Reflexive R, !Transitive R}
    (f : A → M St unit) l :
  (∀ x, keeps R (f x)) → keeps R (for_each f l).
Proof.
  intros Hf. induction l as [|x l IH]; simpl.
  - by apply keeps_same.
  - apply keeps_bind; [done|apply Hf|]. intros _. apply IH.
Qed.

End Shapes.

Lemma silent_bind {St A B} (m : M St A) (k : A → M St B) :
  silent m → (∀ a, silent (k a)) → silent (m ≫= k).
Proof.
  intros Hm Hk s. rewrite trace_bind, Hm. destruct (result (m s)); [reflexivity|apply Hk].
Qed.

Ltac solve_silent :=
  repeat first
    [ apply silent_ret | apply silent_raise | apply silent_gets
    | apply silent_modify | apply silent_pure
    | apply silent_bind; [|intros ?]
    | match goal with |- silent (if ?b then _ else _) => destruct b end ].

Ltac shape_step :=
  lazymatch goal with
  | |- shaped _ (mret _) => apply shaped_silent, silent_ret
  | |- shaped _ (raise _) => apply shaped_silent, silent_raise
  | |- shaped _ (if ?b then _ else _) => destruct b
  | |- shaped _ (try_catch _ (λ _, mret _)) =>
      apply shaped_try_silent; [|intros ?; apply silent_ret]
  | |- shaped _ (mbind _ _) =>
      apply shaped_bind_silent; [solve [solve_silent]|intros ?]
  end.

Ltac solve_sublist :=
  simpl;
  repeat first [apply sublist_nil | apply sublist_skip | apply sublist_cons].

(** ** Shapes of the client's runs *)

Section ClientShapes.
Context {W : Type}.
Variable handle : W → request → W * reply.
Variable hmac : string → string → string.

Lemma shaped_http r : shaped [tag_of (EvHttp r)] (http handle r).
Proof.
  intros s. unfold http. destruct (handle (gw s) r) as [w' [e|code body]]; reflexivity.
Qed.

Lemma shaped_http_auth T tok mk :
  (∀ t, tag_of (EvHttp (mk t)) = T) → shaped [T] (http_auth handle tok mk).
Proof.
  intros HT. unfold http_auth.
  destruct tok as [| | |t| |]; try (apply shaped_silent, silent_raise).
  rewrite <- (HT t). apply shaped_http.
Qed.

Lemma shaped_save_token : shaped [TSave] (@save_session_token_to_file W).
Proof.
  unfold save_session_token_to_file. shape_step. apply (shaped_emit (EvSaveToken _)).
Qed.

Lemma shaped_get_new_session_token :
  shaped handshake_tags (get_new_session_token handle hmac).
Proof.
  unfold get_new_session_token, handshake_tags, set_session_token.
  repeat shape_step.
  apply (shaped_bind [TChallenge] [TSession; TSave]);
    [apply (shaped_http GET_login)| |solve_sublist].
  intros resp. repeat shape_step.
  apply (shaped_bind [TSession] [TSave]);
    [apply (shaped_http (POST_login_session _ _))| |solve_sublist].
  intros resp'. repeat shape_step.
  apply (shaped_bind [TSave] []); [apply shaped_save_token| |solve_sublist].
  intros _. shape_step.
Qed.

Lemma shaped_is_session_valid : shaped [TProbe] (is_session_valid handle).
Proof.
  unfold is_session_valid. repeat shape_step.
  apply (shaped_bind [TProbe] []);
    [by apply shaped_http_auth| |solve_sublist].
  intros resp. repeat shape_step.
Qed.

Lemma shaped_ensure_valid_session :
  shaped session_tags (ensure_valid_session handle hmac).
Proof.
  unfold ensure_valid_session, session_tags, set_connected. repeat shape_step.
  { eapply shaped_weaken; [apply shaped_get_new_session_token|solve_sublist]. }
  apply (shaped_bind [TProbe] handshake_tags);
    [apply shaped_is_session_valid| |solve_sublist].
  intros valid. repeat shape_step.
  apply (shaped_bind handshake_tags []);
    [apply shaped_get_new_session_token| |solve_sublist].
  intros renewed. repeat shape_step.
Qed.

Lemma shaped_get_network_devices :
  shaped (session_tags ++ [TDevices]) (get_network_devices handle hmac).
Proof.
  unfold get_network_devices. repeat shape_step.
  apply (shaped_bind session_tags [TDevices]);
    [apply shaped_ensure_valid_session| |solve_sublist].
  intros ok. repeat shape_step.
  apply (shaped_bind [TDevices] []);
    [by apply shaped_http_auth| |solve_sublist].
  intros resp. repeat shape_step.
Qed.

Lemma shaped_block_device_by_mac mac :
  shaped (block_tags mac) (block_device_by_mac handle hmac mac).
Proof.
  unfold block_device_by_mac, block_tags.
  apply (shaped_bind [TCall Block mac] (session_tags ++ [TFilterGet; TFilterAdd]));
    [apply (shaped_emit (EvCall Block mac))| |solve_sublist].
  intros _. repeat shape_step.
  apply (shaped_bind session_tags [TFilterGet; TFilterAdd]);
    [apply shaped_ensure_valid_session| |solve_sublist].
  intros ok. repeat shape_step.
  apply (shaped_bind [TFilterGet] [TFilterAdd]);
    [by apply shaped_http_auth| |solve_sublist].
  intros resp. repeat shape_step.
  apply (shaped_bind [TFilterAdd] []);
    [by apply shaped_http_auth| |solve_sublist].
  intros resp'. repeat shape_step.
Qed.

Lemma shaped_allow_device_by_mac mac :
  shaped (allow_tags mac) (allow_device_by_mac handle hmac mac).
Proof.
  unfold allow_device_by_mac, allow_tags.
  apply (shaped_bind [TCall Allow mac] (session_tags ++ [TFilterGet; TFilterDel]));
    [apply (shaped_emit (EvCall Allow mac))| |solve_sublist].
  intros _. repeat shape_step.
  apply (shaped_bind session_tags [TFilterGet; TFilterDel]);
    [apply shaped_ensure_valid_session| |solve_sublist].
  intros ok. repeat shape_step.
  apply (shaped_bind [TFilterGet] [TFilterDel]);
    [by apply shaped_http_auth| |solve_sublist].
  intros resp. repeat shape_step.
  apply (shaped_bind [TFilterDel] []);
    [by apply shaped_http_auth| |solve_sublist].
  intros resp'. repeat shape_step.
Qed.

End ClientShapes.

(** ** Totality of the client operations *)

Create HintDb totality.

Ltac solve_total :=
  repeat first
    [ apply total_ret | apply total_gets | apply total_emit | apply total_modify
    | apply total_try; intros ?
    | solve [auto with totality]
    | apply total_bind; [|intros ?]
    | match goal with |- total (if ?b then _ else _) => destruct b end
    | match goal with |- total (match ?x with _ => _ end) => destruct x end ].

Section ClientTotal.
Context {W : Type}.
Variable handle : W → request → W * reply.
Variable hmac : string → string → string.

Lemma total_get_new_session_token : total (get_new_session_token handle hmac).
Proof. unfold get_new_session_token. solve_total. Qed.

Lemma total_is_session_valid : total (is_session_valid handle).
Proof. unfold is_session_valid. solve_total. Qed.

Hint Resolve total_get_new_session_token total_is_session_valid : totality.

Lemma total_ensure_valid_session : total (ensure_valid_session handle hmac).
Proof. unfold ensure_valid_session, set_connected. solve_total. Qed.

Hint Resolve total_ensure_valid_session : totality.

Lemma total_get_network_devices : total (get_network_devices handle hmac).
Proof. unfold get_network_devices. solve_total. Qed.

Lemma total_block_device_by_mac mac : total (block_device_by_mac handle hmac mac).
Proof. unfold block_device_by_mac. solve_total. Qed.

Lemma total_allow_device_by_mac mac : total (allow_device_by_mac handle hmac mac).
Proof. unfold allow_device_by_mac. solve_total. Qed.

Hint Resolve total_get_network_devices total_block_device_by_mac
  total_allow_device_by_mac : totality.

Lemma total_get_device_hostname mac : total (get_device_hostname handle hmac mac).
Proof. unfold get_device_hostname. solve_total. Qed.

Hint Resolve total_get_device_hostname : totality.

Lemma total_send_slack_alert mac st : total (send_slack_alert handle hmac mac st).
Proof. unfold send_slack_alert. solve_total. Qed.

Lemma total_block_mac mac : total (block_mac handle hmac mac).
Proof. unfold block_mac. solve_total. Qed.

Lemma total_allow_mac mac : total (allow_mac handle hmac mac).
Proof. unfold allow_mac. solve_total. Qed.

Lemma total_check_device states entry : total (check_device handle hmac states entry).
Proof. unfold check_device. destruct entry as [mac db_status]. solve_total. Qed.

End ClientTotal.

#[global] Hint Resolve total_get_new_session_token total_is_session_valid
  total_ensure_valid_session total_get_network_devices total_block_device_by_mac
  total_allow_device_by_mac total_get_device_hostname total_send_slack_alert
  total_block_mac total_allow_mac total_check_device : totality.

(** ** Session rejected in the middle of an operation *)

Section Rejected.
Context {W : Type}.
Variable handle : W → request → W * reply.
Variable hmac : string → string → string.
Hypothesis rejects :
  ∀ w r, is_filter_request r = true → is_rejection (handle w r).2 = true.

Lemma http_auth_rejected tok mk (s : @gstate W) :
  (∀ t, is_filter_request (mk t) = true) →
  (∃ e, result (http_auth handle tok mk s) = inl e) ∨
  (∃ code body, result (http_auth handle tok mk s) = inr (code, Some body)
                ∧ success_of body = inr false).
Proof.
  intros Hmk. unfold http_auth.
  destruct tok as [| | |t| |]; try (left; eexists; reflexivity).
  right. unfold http. specialize (rejects (gw s) (mk t) (Hmk t)).
  destruct (handle (gw s) (mk t)) as [w' [e|code [body|]]]; simpl in rejects; try done.
  destruct (success_of body) as [e|[|]] eqn:Hs; try done.
  exists code, body. done.
Qed.

Lemma block_rejected mac s :
  result (block_device_by_mac handle hmac mac s) = inr false.
Proof.
  unfold block_device_by_mac.
  rewrite result_bind. simpl. rewrite result_bind. simpl.
  destruct (negb (connected (api s))); [reflexivity|].
  rewrite result_bind.
  destruct (total_ensure_valid_session handle hmac s) as [ok ->].
  destruct ok; [|reflexivity]. simpl.
  set (s1 := final (ensure_valid_session handle hmac s)).
  rewrite result_bind. simpl. rewrite result_try, result_bind.
  destruct (http_auth_rejected (session_token (api s1)) GET_mac_filter s1)
    as [[e ->]|(code & body & -> & Hs)]; [done|reflexivity|].
  set (s2 := final _).
  rewrite result_bind. simpl. rewrite result_bind. simpl. rewrite Hs. simpl.
  rewrite result_bind. simpl. rewrite result_bind.
  destruct (http_auth_rejected (session_token (api s1))
              (λ t, POST_mac_filter t (Py.upper mac)) s2)
    as [[e ->]|(code' & body' & -> & Hs')]; [done|reflexivity|].
  rewrite result_bind. simpl. rewrite result_bind. simpl. rewrite Hs'. simpl.
  rewrite result_bind. simpl.
  destruct (PyJson.get body' "msg" (JStr "Erreur inconnue")); [reflexivity|].
  simpl. rewrite result_bind. simpl.
  destruct (PyJson.get body' "error_code" (JStr "")); reflexivity.
Qed.

Lemma allow_rejected mac s :
  result (allow_device_by_mac handle hmac mac s) = inr false.
Proof.
  unfold allow_device_by_mac.
  rewrite result_bind. simpl. rewrite result_bind. simpl.
  destruct (negb (connected (api s))); [reflexivity|].
  rewrite result_bind.
  destruct (total_ensure_valid_session handle hmac s) as [ok ->].
  destruct ok; [|reflexivity]. simpl.
  set (s1 := final (ensure_valid_session handle hmac s)).
  rewrite result_bind. simpl. rewrite result_try, result_bind.
  destruct (http_auth_rejected (session_token (api s1)) GET_mac_filter s1)
    as [[e ->]|(code & body & -> & Hs)]; [done|reflexivity|].
  rewrite result_bind. simpl. rewrite result_bind. simpl. rewrite Hs. reflexivity.
Qed.

End Rejected.

(** C3, as stated, fails: the token is rejected on the filter requests of
    [block_device_by_mac]; the operation reports failure after a single
    fetch of the filter and without any handshake. *)
Lemma rejected_block_no_rehandshake :
  let run := block_device_by_mac scripted no_hmac "aa:bb:cc:dd:ee:01" stale_client in
  result run = inr false ∧
  tag_of <$> trace run = [TCall Block "aa:bb:cc:dd:ee:01"; TProbe; TFilterGet; TFilterAdd] ∧
  ¬ rehandshake_and_retry (trace run).
Proof.
  split; [reflexivity|]. split; [reflexivity|].
  intros (H & _). vm_compute in H. discriminate H.
Qed.

Section RejectedPolicy.
Context {W : Type}.
Variable handle : W → request → W * reply.
Variable hmac : string → string → string.

(** C3, amended. An enforcement operation validates the session once,
    before its first filter request: the kinds of its events form a
    subsequence of call, probe, challenge, session request, token saved,
    filter fetch, filter change. So at most one handshake is made, none
    after a filter request, and no filter request is sent twice. When the
    gateway rejects the filter requests, the operation reports failure. *)
Theorem session_checked_once_no_retry mac :
  shaped (block_tags mac) (block_device_by_mac handle hmac mac) ∧
  shaped (allow_tags mac) (allow_device_by_mac handle hmac mac) ∧
  ((∀ w r, is_filter_request r = true → is_rejection (handle w r).2 = true) →
   ∀ s, result (block_device_by_mac handle hmac mac s) = inr false ∧
        result (allow_device_by_mac handle hmac mac s) = inr false).
Proof.
  split; [apply shaped_block_device_by_mac|].
  split; [apply shaped_allow_device_by_mac|].
  intros Hrej s. split; [by apply block_rejected|by apply allow_rejected].
Qed.

End RejectedPolicy.

Lemma session_checked_once_no_retry_witness :
  result (allow_device_by_mac rejecting no_hmac "aa:bb:cc:dd:ee:01"
            (mkG (mkApi (JStr "stale") (JStr "secret") true) tt)) = inr false.
Proof.
  apply (session_checked_once_no_retry rejecting no_hmac "aa:bb:cc:dd:ee:01").
  intros w r Hr. unfold rejecting. rewrite Hr. reflexivity.
Defined.

(** ** Allowing a MAC that the filter does not hold *)

Lemma list_absent_no_filter_id l target :
  list_has_mac l target = inr false → list_filter_id l target = inr JNull.
Proof.
  induction l as [|f l IH]; simpl; [done|].
  destruct (PyJson.get f "mac" (JStr "")) as [e|m]; simpl; [done|].
  destruct (PyJson.str_lower m) as [e|x]; simpl; [done|].
  destruct (String.eqb x target); [done|exact IH].
Qed.

Lemma dict_absent_no_filter_id d target :
  dict_has_mac d target = false → dict_filter_id d target = inr JNull.
Proof.
  induction d as [|[k info] d IH]; simpl; [done|].
  destruct (String.eqb (Py.lower k) target); [done|exact IH].
Qed.

Lemma absent_no_filter_id flt target :
  filter_has_mac flt target = inr false → find_filter_id flt target = inr JNull.
Proof.
  destruct flt as [| | | |l|d]; simpl; try done.
  - apply list_absent_no_filter_id.
  - intros [= H]. by apply dict_absent_no_filter_id.
Qed.

Section AllowAbsent.
Context {W : Type}.
Variable handle : W → request → W * reply.
Variable hmac : string → string → string.

Lemma json_of_some code res : json_of (code, Some res) = inr res.
Proof. reflexivity. Qed.

Lemma json_of_none code : json_of (code, None) = inl OtherError.
Proof. reflexivity. Qed.

Lemma run_http r (s : @gstate W) w' code body :
  handle (gw s) r = (w', Response code body) →
  http handle r s = (inr (code, body), mkG (api s) w', [EvHttp r]).
Proof. intros H. unfold http. by rewrite H. Qed.

Lemma run_http_raise r (s : @gstate W) w' e :
  handle (gw s) r = (w', Raises e) →
  http handle r s = (inl e, mkG (api s) w', [EvHttp r]).
Proof. intros H. unfold http. by rewrite H. Qed.

(** C6. The client is connected and its session is valid (or was just
    renewed); the filter list it fetches, in either shape, has no entry
    for the MAC. Then [allow_device_by_mac] returns [True], the filter
    fetch is its last request (no delete request is sent) and the gateway
    is left in the state in which the fetch left it. *)
Theorem allow_absent_is_noop mac s s1 ev1 t w2 code res flt :
  connected (api s) = true →
  ensure_valid_session handle hmac s = (inr true, s1, ev1) →
  session_token (api s1) = JStr t →
  handle (gw s1) (GET_mac_filter t) = (w2, Response code (Some res)) →
  success_of res = inr true →
  PyJson.get res "result" (JList []) = inr flt →
  filter_has_mac flt (Py.lower mac) = inr false →
  allow_device_by_mac handle hmac mac s =
    (inr true, mkG (api s1) w2,
     EvCall Allow mac :: ev1 ++ [EvHttp (GET_mac_filter t)]).
Proof.
  intros Hconn Hens Htok Hget Hok Hflt Habs.
  unfold allow_device_by_mac. rewrite run_bind_emit. run_step.
  rewrite Hconn. simpl. rewrite (run_bind_ok _ _ _ _ _ _ Hens). simpl.
  run_step. rewrite Htok.
  erewrite run_try_ok; [reflexivity|].
  unfold http_auth. rewrite (run_bind_ok _ _ _ _ _ _ (run_http _ _ _ _ _ Hget)).
  unfold json_of. simpl. run_step. rewrite Hok. run_step. simpl.
  rewrite Hflt. run_step. rewrite (absent_no_filter_id _ _ Habs). run_step.
  reflexivity.
Qed.

(** X19. With the client connected, the session validated and the filter
    list fetched with a truthy success, block_device_by_mac of a MAC found
    in the list (compared in lower case) returns True right after the fetch:
    no add request is sent. *)
Lemma block_listed_is_noop mac s s1 ev1 t w2 code res flt :
  connected (api s) = true →
  ensure_valid_session handle hmac s = (inr true, s1, ev1) →
  session_token (api s1) = JStr t →
  handle (gw s1) (GET_mac_filter t) = (w2, Response code (Some res)) →
  success_of res = inr true →
  PyJson.get res "result" (JList []) = inr flt →
  filter_has_mac flt (Py.lower mac) = inr true →
  block_device_by_mac handle hmac mac s =
    (inr true, mkG (api s1) w2,
     EvCall Block mac :: ev1 ++ [EvHttp (GET_mac_filter t)]).
Proof.
  intros Hconn Hens Htok Hget Hok Hflt Hhas.
  unfold block_device_by_mac. rewrite run_bind_emit. run_step.
  rewrite Hconn. simpl. rewrite (run_bind_ok _ _ _ _ _ _ Hens). simpl.
  run_step. rewrite Htok.
  erewrite run_try_ok; [reflexivity|].
  unfold http_auth. rewrite (run_bind_ok _ _ _ _ _ _ (run_http _ _ _ _ _ Hget)).
  rewrite json_of_some. run_step. rewrite Hok. run_step.
  rewrite Hflt. run_step. rewrite Hhas. run_step. reflexivity.
Qed.

End AllowAbsent.

Lemma allow_absent_is_noop_witness :
  allow_device_by_mac scripted no_hmac "aa:bb:cc:dd:ee:01"
    (valid_client [Response 200 (Some ok_body);
                   Response 200 (Some (filter_body (JList [other_entry])))])
  = (inr true, valid_client [],
     [EvCall Allow "aa:bb:cc:dd:ee:01"; EvHttp (GET_login_probe "tok");
      EvHttp (GET_mac_filter "tok")]).
Proof.
  apply (allow_absent_is_noop scripted no_hmac "aa:bb:cc:dd:ee:01"
           (valid_client [Response 200 (Some ok_body);
                          Response 200 (Some (filter_body (JList [other_entry])))])
           (valid_client [Response 200 (Some (filter_body (JList [other_entry])))])
           [EvHttp (GET_login_probe "tok")] "tok" [] 200
           (filter_body (JList [other_entry])) (JList [other_entry]));
    vm_compute; reflexivity.
Defined.

(** ** The two shapes of the filter list *)

Lemma list_has_mac_entries l es target :
  entries_of_list l = Some es → list_has_mac l target = inr (entries_have es target).
Proof.
  revert es. induction l as [|f l IH]; intros es.
  - by intros [= <-].
  - destruct f as [| | | | |f]; try done.
    cbn [entries_of_list list_has_mac PyJson.get].
    destruct (PyJson.dict_lookup f "mac") as [[| | |m| |]|]; try done.
    destruct (entries_of_list l) as [es'|]; [|done]. intros [= <-]. simpl.
    destruct (String.eqb (Py.lower m) target); [done|]. by apply IH.
Qed.

Lemma list_filter_id_entries l es target :
  entries_of_list l = Some es → list_filter_id l target = inr (entries_id es target).
Proof.
  revert es. induction l as [|f l IH]; intros es.
  - by intros [= <-].
  - destruct f as [| | | | |f]; try done.
    cbn [entries_of_list list_filter_id PyJson.get].
    destruct (PyJson.dict_lookup f "mac") as [[| | |m| |]|]; try done.
    destruct (entries_of_list l) as [es'|]; [|done]. intros [= <-]. simpl.
    destruct (String.eqb (Py.lower m) target); [done|]. by apply IH.
Qed.

Lemma dict_has_mac_entries d target :
  dict_has_mac d target = entries_have (entries_of_dict d) target.
Proof.
  induction d as [|[k info] d IH]; simpl; [done|].
  destruct (String.eqb (Py.lower k) target); [done|exact IH].
Qed.

Lemma dict_filter_id_entries d target :
  dict_filter_id d target = inr (entries_id (entries_of_dict d) target).
Proof.
  induction d as [|[k info] d IH]; simpl; [done|].
  destruct (String.eqb (Py.lower k) target); [|exact IH].
  by destruct info.
Qed.





Lemma bind_ext {St A B} (m1 m2 : M St A) (k1 k2 : A → M St B) s :
  m1 s = m2 s → (∀ a s', k1 a s' = k2 a s') → (m1 ≫= k1) s = (m2 ≫= k2) s.
Proof.
  intros Hm Hk. rewrite !run_bind, Hm.
  destruct (m2 s) as [[[e|a] s'] ev]; [done|]. by rewrite Hk.
Qed.




Section TwoShapes.
Context {W : Type}.
Variables handle1 handle2 : W → request → W * reply.
Variable hmac : string → string → string.

(** The two gateways behave alike, except that the second may send the
    filter list as a dict where the first sends it as a list. *)
Hypothesis same_elsewhere :
  ∀ w r, (∀ tok, r ≠ GET_mac_filter tok) → handle1 w r = handle2 w r.
Hypothesis same_filter :
  ∀ w tok, (handle1 w (GET_mac_filter tok)).1 = (handle2 w (GET_mac_filter tok)).1 ∧
           same_filter_reply (handle1 w (GET_mac_filter tok)).2
                             (handle2 w (GET_mac_filter tok)).2.

Implicit Types s : @gstate W.














End TwoShapes.


(** ** Blocking twice *)

Lemma lower_upper_char c : Py.lower_char (Py.upper_char c) = Py.lower_char c.
Proof. destruct c as [[] [] [] [] [] [] [] []]; reflexivity. Qed.

Lemma lower_upper s : Py.lower (Py.upper s) = Py.lower s.
Proof. induction s as [|c s IH]; simpl; [done|]. by rewrite lower_upper_char, IH. Qed.

Section Idempotence.
Context {W : Type}.
Variable handle : W → request → W * reply.
Variable hmac : string → string → string.

(** Which (lower-case) MACs the gateway's filter blocks. *)
Variable in_filter : W → string → bool.

(** What the client relies on: only an add or a delete request changes the
    filter; an add request changes it at most at its own MAC, which it can
    only add, and does add it when it answers with success; a MAC found in
    a successfully fetched list is in the filter. *)
Hypothesis other_requests_keep : ∀ w r m,
  (∀ tok mac, r ≠ POST_mac_filter tok mac) →
  (∀ tok i, r ≠ DELETE_mac_filter tok i) →
  in_filter (handle w r).1 m = in_filter w m.
Hypothesis add_only_adds : ∀ w tok mac m,
  in_filter (handle w (POST_mac_filter tok mac)).1 m = in_filter w m ∨
  (m = Py.lower mac ∧ in_filter (handle w (POST_mac_filter tok mac)).1 m = true).
Hypothesis add_success_adds : ∀ w tok mac w' code res,
  handle w (POST_mac_filter tok mac) = (w', Response code (Some res)) →
  success_of res = inr true →
  in_filter w' (Py.lower mac) = true.
Hypothesis listing_sound : ∀ w tok w' code res flt target,
  handle w (GET_mac_filter tok) = (w', Response code (Some res)) →
  success_of res = inr true →
  PyJson.get res "result" (JList []) = inr flt →
  filter_has_mac flt target = inr true →
  in_filter w target = true.

Local Abbreviation at_most_added := (filter_at_most_added in_filter).

#[local] Instance at_most_added_refl target : Reflexive (at_most_added target).
Proof. intros s m. by left. Qed.

#[local] Instance at_most_added_trans target : Transitive (at_most_added target).
Proof.
  intros s1 s2 s3 H12 H23 m.
  destruct (H23 m) as [H|H]; [|by right]. rewrite H. apply H12.
Qed.

Lemma keeps_unchanged {A} target (m : M gstate A) :
  (∀ s, final (m s) = s) → keeps (at_most_added target) m.
Proof. intros Hm s. rewrite Hm. reflexivity. Qed.

Lemma keeps_http target r :
  (∀ tok i, r ≠ DELETE_mac_filter tok i) →
  (∀ tok mac, r = POST_mac_filter tok mac → Py.lower mac = target) →
  keeps (at_most_added target) (http handle r).
Proof.
  intros Hdel Hadd s m. unfold http.
  destruct (handle (gw s) r) as [w' rp] eqn:Hh.
  assert (in_filter w' m = in_filter (gw s) m ∨ (m = target ∧ in_filter w' m = true)) as H.
  { replace w' with (handle (gw s) r).1 by by rewrite Hh.
    destruct r as [| | | | |tok mac|]; try (left; apply other_requests_keep; done).
    rewrite <- (Hadd tok mac eq_refl). apply add_only_adds. }
  by destruct rp.
Qed.

Lemma keeps_http_auth target tok mk :
  (∀ t tok' i, mk t ≠ DELETE_mac_filter tok' i) →
  (∀ t tok' mac, mk t = POST_mac_filter tok' mac → Py.lower mac = target) →
  keeps (at_most_added target) (http_auth handle tok mk).
Proof.
  intros Hdel Hadd. unfold http_auth.
  destruct tok as [| | |t| |]; try (by apply keeps_unchanged).
  apply (keeps_http target (mk t)); [intros; apply Hdel|intros; by eapply Hadd].
Qed.

Lemma keeps_api target (f : FreeboxAPI → FreeboxAPI) :
  keeps (at_most_added target) (modify (λ s : @gstate W, mkG (f (api s)) (gw s))).
Proof. intros s m. by left. Qed.

Ltac solve_keeps hints :=
  repeat first
    [ apply keeps_unchanged; reflexivity
    | solve [hints]
    | apply keeps_http; [intros; discriminate|intros ? ? [=]; subst; try done]
    | apply keeps_http_auth; [intros; discriminate|intros ? ? ? [=]; subst; try done]
    | apply keeps_try; [apply _| |intros ?]
    | apply keeps_bind; [apply _| |intros ?]
    | match goal with |- keeps _ (if ?b then _ else _) => destruct b end ].

Lemma keeps_get_new_session_token target :
  keeps (at_most_added target) (get_new_session_token handle hmac).
Proof.
  unfold get_new_session_token, set_session_token, save_session_token_to_file.
  solve_keeps ltac:(apply (keeps_api target (λ a, mkApi _ (app_token a) (connected a)))).
Qed.

Lemma keeps_is_session_valid target :
  keeps (at_most_added target) (is_session_valid handle).
Proof. unfold is_session_valid. solve_keeps fail. Qed.

Lemma keeps_ensure_valid_session target :
  keeps (at_most_added target) (ensure_valid_session handle hmac).
Proof.
  unfold ensure_valid_session, set_connected.
  solve_keeps ltac:(first
    [ apply keeps_get_new_session_token | apply keeps_is_session_valid
    | apply (keeps_api target (λ a, mkApi (session_token a) (app_token a) false)) ]).
Qed.

Lemma keeps_block_device_by_mac mac :
  keeps (at_most_added (Py.lower mac)) (block_device_by_mac handle hmac mac).
Proof.
  unfold block_device_by_mac.
  solve_keeps ltac:(apply keeps_ensure_valid_session).
  apply lower_upper.
Qed.

(** The request that adds the entry, and what follows it. *)
Lemma add_success_in_filter t mac (s2 : @gstate W) :
  let post :=
    (http handle (POST_mac_filter t (Py.upper mac)) ≫= λ resp,
     pure (json_of resp) ≫= λ res0, pure (success_of res0) ≫= λ ok0 : bool,
     if ok0 then
       pure (PyJson.get res0 "result" (JDict [])) ≫= λ r,
       pure (PyJson.get r "hostname" (JStr "Appareil")) ≫= λ _, mret true
     else
       pure (PyJson.get res0 "msg" (JStr "Erreur inconnue")) ≫= λ _,
       pure (PyJson.get res0 "error_code" (JStr "")) ≫= λ _, mret false) s2 in
  result post = inr true → in_filter (gw (final post)) (Py.lower mac) = true.
Proof.
  intros post. subst post.
  destruct (handle (gw s2) (POST_mac_filter t (Py.upper mac)))
    as [w3 [e|code' [res'|]]] eqn:Hadd.
  - by rewrite (run_bind_raise _ _ _ _ _ _ (run_http_raise _ _ _ _ _ Hadd)).
  - rewrite (run_bind_ok _ _ _ _ _ _ (run_http _ _ _ _ _ _ Hadd)).
    rewrite ?json_of_some, ?json_of_none. run_proj. run_step.
    assert (success_of res' = inr true → in_filter w3 (Py.lower mac) = true) as Hin.
    { intros Hok'. rewrite <- (lower_upper mac). by eapply add_success_adds. }
    destruct (success_of res') as [e|[|]]; run_step; [discriminate| |].
    + destruct (PyJson.get res' "result" (JDict [])) as [e|r]; run_step; [discriminate|].
      destruct (PyJson.get r "hostname" (JStr "Appareil")) as [e|h]; run_step;
        [discriminate|]. intros _. simpl. by apply Hin.
    + destruct (PyJson.get res' "msg" (JStr "Erreur inconnue")) as [e|x]; run_step;
        [discriminate|].
      destruct (PyJson.get res' "error_code" (JStr "")) as [e|y]; run_step; discriminate.
  - rewrite (run_bind_ok _ _ _ _ _ _ (run_http _ _ _ _ _ _ Hadd)).
    rewrite ?json_of_some, ?json_of_none. run_proj. run_step. discriminate.
Qed.

Lemma block_success_in_filter mac s :
  result (block_device_by_mac handle hmac mac s) = inr true →
  in_filter (gw (final (block_device_by_mac handle hmac mac s))) (Py.lower mac) = true.
Proof.
  unfold block_device_by_mac. rewrite run_bind_emit. simpl. run_step.
  destruct (negb (connected (api s))); [discriminate|].
  rewrite result_bind, final_bind.
  destruct (result (ensure_valid_session handle hmac s)) as [e|[|]];
    [discriminate| |discriminate].
  cbn [negb]. set (s1 := final (ensure_valid_session handle hmac s)). run_step.
  rewrite result_try, final_try.
  unfold http_auth. destruct (session_token (api s1)) as [| | |t| |];
    run_step; try discriminate.
  destruct (handle (gw s1) (GET_mac_filter t)) as [w2 [e|code [res|]]] eqn:Hget.
  - by rewrite (run_bind_raise _ _ _ _ _ _ (run_http_raise _ _ _ _ _ Hget)).
  - rewrite (run_bind_ok _ _ _ _ _ _ (run_http _ _ _ _ _ _ Hget)).
    rewrite ?json_of_some, ?json_of_none. run_proj. run_step.
    assert (∀ m, in_filter w2 m = in_filter (gw s1) m) as Hw2.
    { intros m. replace w2 with (handle (gw s1) (GET_mac_filter t)).1 by by rewrite Hget.
      by apply other_requests_keep. }
    pose proof (add_success_in_filter t mac (mkG (api s1) w2)) as Hpost.
    cbv zeta in Hpost.
    destruct (success_of res) as [e|[|]] eqn:Hok; run_step; [discriminate| |].
    + destruct (PyJson.get res "result" (JList [])) as [e|flt] eqn:Hflt; run_step;
        [discriminate|].
      destruct (filter_has_mac flt (Py.lower mac)) as [e|[|]] eqn:Hhas; run_step;
        [discriminate| |].
      * intros _. simpl. rewrite Hw2. by eapply listing_sound.
      * destruct (result _) eqn:Hr in |- *; [discriminate|].
        intros Ht. rewrite Ht in Hr. by apply Hpost.
    + destruct (result _) eqn:Hr in |- *; [discriminate|].
      intros Ht. rewrite Ht in Hr. by apply Hpost.
  - rewrite (run_bind_ok _ _ _ _ _ _ (run_http _ _ _ _ _ _ Hget)).
    rewrite ?json_of_some, ?json_of_none. run_proj. by run_step.
Qed.

(** What one call and a second one do to the membership: a call changes the
    filter at most by adding its MAC; once a call has returned [True] the
    MAC is in the filter and a second call leaves the membership of every
    MAC as the first call left it. *)
Lemma block_membership mac s :
  let once := block_device_by_mac handle hmac mac s in
  let twice := block_device_by_mac handle hmac mac (final once) in
  at_most_added (Py.lower mac) s (final once) ∧
  (result once = inr true →
   in_filter (gw (final once)) (Py.lower mac) = true ∧
   ∀ m, in_filter (gw (final twice)) m = in_filter (gw (final once)) m).
Proof.
  intros once twice. split; [apply keeps_block_device_by_mac|].
  intros Hok. split; [by apply block_success_in_filter|]. intros m.
  destruct (keeps_block_device_by_mac mac (final once) m) as [H|[-> H]]; [exact H|].
  fold twice in H. rewrite H. symmetry. by apply block_success_in_filter.
Qed.

End Idempotence.

Lemma filter_gateway_listing w target :
  list_has_mac (entry_of_mac <$> w) target = inr (gateway_blocks w target).
Proof.
  induction w as [|m w IH]; [done|].
  cbn [fmap list_fmap list_has_mac gateway_blocks].
  change (PyJson.get (entry_of_mac m) "mac" (JStr "")) with (@inr exn json (JStr m)).
  cbn [mbind exn_bind PyJson.str_lower].
  destruct (String.eqb (Py.lower m) target); [done|exact IH].
Qed.

Lemma filter_gateway_other w r m :
  (∀ tok mac, r ≠ POST_mac_filter tok mac) →
  (∀ tok i, r ≠ DELETE_mac_filter tok i) →
  gateway_blocks (filter_gateway w r).1 m = gateway_blocks w m.
Proof. intros Hadd Hdel. destruct r; try reflexivity. by destruct (Hadd tok mac). Qed.

Lemma filter_gateway_add_only w tok mac m :
  gateway_blocks (filter_gateway w (POST_mac_filter tok mac)).1 m = gateway_blocks w m ∨
  (m = Py.lower mac ∧
   gateway_blocks (filter_gateway w (POST_mac_filter tok mac)).1 m = true).
Proof.
  simpl. destruct (String.eqb_spec (Py.lower mac) m) as [<-|_]; [by right|by left].
Qed.

Lemma filter_gateway_add_success w tok mac w' code res :
  filter_gateway w (POST_mac_filter tok mac) = (w', Response code (Some res)) →
  success_of res = inr true →
  gateway_blocks w' (Py.lower mac) = true.
Proof. intros [= <- _ _] _. simpl. by rewrite String.eqb_refl. Qed.

Lemma filter_gateway_listing_sound w tok w' code res flt target :
  filter_gateway w (GET_mac_filter tok) = (w', Response code (Some res)) →
  success_of res = inr true →
  PyJson.get res "result" (JList []) = inr flt →
  filter_has_mac flt target = inr true →
  gateway_blocks w target = true.
Proof.
  intros [= _ _ <-] _ [= <-] Hhas.
  simpl in Hhas. rewrite filter_gateway_listing in Hhas. by injection Hhas.
Qed.

(** ** Shapes of the loop helpers *)

Section HelperShapes.
Context {W : Type}.
Variable handle : W → request → W * reply.
Variable hmac : string → string → string.

Lemma shaped_get_device_hostname mac :
  shaped devices_tags (get_device_hostname handle hmac mac).
Proof.
  unfold get_device_hostname. repeat shape_step.
  apply (shaped_bind devices_tags []);
    [apply shaped_get_network_devices| |by rewrite app_nil_r].
  intros devices. repeat shape_step.
Qed.

Lemma shaped_send_blocking_alert mac :
  shaped (devices_tags ++ [TBlockedAlert mac]) (send_blocking_alert handle hmac mac).
Proof.
  unfold send_blocking_alert.
  apply (shaped_bind devices_tags [TBlockedAlert mac]);
    [apply shaped_get_device_hostname| |done].
  intros hostname. apply (shaped_emit (EvBlockedAlert mac hostname)).
Qed.

Lemma shaped_block_mac mac :
  shaped (block_mac_tags mac) (block_mac handle hmac mac).
Proof.
  unfold block_mac, block_mac_tags.
  apply (shaped_bind [TEnforce Block mac]
           (block_tags mac ++ devices_tags ++ [TBlockedAlert mac]));
    [apply (shaped_emit (EvEnforce Block mac))| |done].
  intros _. repeat shape_step.
  apply (shaped_bind (block_tags mac) (devices_tags ++ [TBlockedAlert mac]));
    [apply shaped_block_device_by_mac| |done].
  intros ok. repeat shape_step. apply shaped_send_blocking_alert.
Qed.

Lemma shaped_allow_mac mac :
  shaped (allow_mac_tags mac) (allow_mac handle hmac mac).
Proof.
  unfold allow_mac, allow_mac_tags.
  apply (shaped_bind [TEnforce Allow mac] (allow_tags mac));
    [apply (shaped_emit (EvEnforce Allow mac))| |done].
  intros _. repeat shape_step.
  apply (shaped_bind (allow_tags mac) []);
    [apply shaped_allow_device_by_mac| |by rewrite app_nil_r].
  intros ok. repeat shape_step.
Qed.

(** The new-device alert goes out exactly once, last. *)
Lemma run_send_slack_alert mac st (s : @gstate W) :
  ∃ host,
    send_slack_alert handle hmac mac st s =
    (inr tt, final (get_device_hostname handle hmac mac s),
     trace (get_device_hostname handle hmac mac s) ++ [EvNewDeviceAlert mac st host]).
Proof.
  unfold send_slack_alert.
  destruct (total_get_device_hostname handle hmac mac s) as [host Hhost].
  exists host. rewrite run_bind.
  destruct (get_device_hostname handle hmac mac s) as [[r s'] ev].
  simpl in Hhost. subst r. reflexivity.
Qed.

(** [block_mac] announces itself first. *)
Lemma run_block_mac mac (s : @gstate W) :
  ∃ rest, trace (block_mac handle hmac mac s) = EvEnforce Block mac :: rest ∧
          Forall (λ e, tag_of e ∈ block_tags mac ++ devices_tags ++ [TBlockedAlert mac]) rest.
Proof.
  unfold block_mac. rewrite run_bind_emit. eexists. split; [reflexivity|].
  eapply (shaped_emits (block_tags mac ++ devices_tags ++ [TBlockedAlert mac])
            (λ e, tag_of e ∈ block_tags mac ++ devices_tags ++ [TBlockedAlert mac]));
    [|done].
  repeat shape_step.
  apply (shaped_bind (block_tags mac) (devices_tags ++ [TBlockedAlert mac]));
    [apply shaped_block_device_by_mac| |done].
  intros ok. repeat shape_step. apply shaped_send_blocking_alert.
Qed.

(** An enforcement call announces itself first, then only talks to the
    gateway. *)
Lemma run_block_device_by_mac mac (s : @gstate W) :
  ∃ rest, trace (block_device_by_mac handle hmac mac s) = EvCall Block mac :: rest ∧
          Forall (λ e, tag_of e ∈ session_tags ++ [TFilterGet; TFilterAdd]) rest.
Proof.
  unfold block_device_by_mac. rewrite run_bind_emit. eexists. split; [reflexivity|].
  eapply (shaped_emits (session_tags ++ [TFilterGet; TFilterAdd])
            (λ e, tag_of e ∈ session_tags ++ [TFilterGet; TFilterAdd])); [|done].
  repeat shape_step.
  apply (shaped_bind session_tags [TFilterGet; TFilterAdd]);
    [apply shaped_ensure_valid_session| |solve_sublist].
  intros ok. repeat shape_step.
  apply (shaped_bind [TFilterGet] [TFilterAdd]);
    [by apply shaped_http_auth| |solve_sublist].
  intros resp. repeat shape_step.
  apply (shaped_bind [TFilterAdd] []);
    [by apply shaped_http_auth| |solve_sublist].
  intros resp'. repeat shape_step.
Qed.

Lemma run_allow_device_by_mac mac (s : @gstate W) :
  ∃ rest, trace (allow_device_by_mac handle hmac mac s) = EvCall Allow mac :: rest ∧
          Forall (λ e, tag_of e ∈ session_tags ++ [TFilterGet; TFilterDel]) rest.
Proof.
  unfold allow_device_by_mac. rewrite run_bind_emit. eexists. split; [reflexivity|].
  eapply (shaped_emits (session_tags ++ [TFilterGet; TFilterDel])
            (λ e, tag_of e ∈ session_tags ++ [TFilterGet; TFilterDel])); [|done].
  repeat shape_step.
  apply (shaped_bind session_tags [TFilterGet; TFilterDel]);
    [apply shaped_ensure_valid_session| |solve_sublist].
  intros ok. repeat shape_step.
  apply (shaped_bind [TFilterGet] [TFilterDel]);
    [by apply shaped_http_auth| |solve_sublist].
  intros resp. repeat shape_step.
  apply (shaped_bind [TFilterDel] []);
    [by apply shaped_http_auth| |solve_sublist].
  intros resp'. repeat shape_step.
Qed.

End HelperShapes.

(** ** Counting events *)

Lemma count_tag_app T t1 t2 :
  count_tag T (t1 ++ t2) = (count_tag T t1 + count_tag T t2)%nat.
Proof. unfold count_tag. by rewrite filter_app, length_app. Qed.

Lemma count_tag_cons T e t :
  count_tag T (e :: t) = ((if decide (tag_of e = T) then 1 else 0) + count_tag T t)%nat.
Proof. unfold count_tag. rewrite filter_cons. by destruct (decide (tag_of e = T)). Qed.

Lemma count_tag_none T t :
  Forall (λ e, tag_of e ≠ T) t → count_tag T t = 0%nat.
Proof.
  induction 1 as [|e t He _ IH]; [done|].
  rewrite count_tag_cons, IH. by destruct (decide (tag_of e = T)).
Qed.

Lemma count_tag_outside T (L : list tag) t :
  T ∉ L → Forall (λ e, tag_of e ∈ L) t → count_tag T t = 0%nat.
Proof.
  intros HT Ht. apply count_tag_none. eapply Forall_impl; [exact Ht|].
  intros e He Heq. apply HT. by rewrite <- Heq.
Qed.

(** ** The main loop: runs of its parts *)

Lemma total_run {St A} (m : M St A) s :
  total m → ∃ a, m s = (inr a, final (m s), trace (m s)).
Proof.
  intros Hm. destruct (Hm s) as [a Ha]. exists a.
  destruct (m s) as [[r s'] ev]. simpl in *. by subst.
Qed.

Lemma for_each_app {St A} (f : A → M St unit) l1 l2 s :
  for_each f (l1 ++ l2) s = (for_each f l1 ≫= λ _, for_each f l2) s.
Proof.
  revert s. induction l1 as [|x l1 IH]; intros s; simpl.
  - by rewrite run_bind_ret.
  - rewrite run_bind_assoc. apply bind_ext; [done|]. intros [] s'. apply IH.
Qed.

Lemma for_each_final_inv {St A} (I : St → Prop) (f : A → M St unit) l s :
  (∀ x s', x ∈ l → I s' → I (final (f x s'))) → I s → I (final (for_each f l s)).
Proof.
  revert s. induction l as [|x l IH]; intros s Hf Hs; simpl; [done|].
  rewrite final_bind. destruct (result (f x s)) as [e|[]].
  - apply Hf; [left|done].
  - apply IH; [|apply Hf; [left|done]]. intros y s' Hy. apply Hf. by right.
Qed.

(** The trace of a loop around the turn of one element. *)
Lemma for_each_around {St A} (f : A → M St unit) l1 x l2 s :
  (∀ y, total (f y)) →
  let s1 := final (for_each f l1 s) in
  let s2 := final (f x s1) in
  trace (for_each f (l1 ++ x :: l2) s) =
    trace (for_each f l1 s) ++ trace (f x s1) ++ trace (for_each f l2 s2) ∧
  final (for_each f (l1 ++ x :: l2) s) = final (for_each f l2 s2).
Proof.
  intros Hf s1 s2. rewrite for_each_app.
  destruct (total_run (for_each f l1) s (total_for_each f l1 Hf)) as [[] H1].
  rewrite (run_bind_ok _ _ _ _ _ _ H1). fold s1. simpl for_each.
  destruct (total_run (f x) s1 (Hf x)) as [[] Hx].
  rewrite (run_bind_ok _ _ _ _ _ _ Hx). fold s2. simpl. done.
Qed.

Section Loop.
Context {W : Type}.
Variable handle : W → request → W * reply.
Variable hmac : string → string → string.
Variable clock : nat → Z.
Implicit Types s : @lstate W.

Lemma run_lift {A} (m : M (@gstate W) A) s :
  lift m s =
  (result (m (fbx s)),
   mkL (final (m (fbx s))) (db s) (clock_reads s) (status_check_counter s),
   trace (m (fbx s))).
Proof. unfold lift. by destruct (m (fbx s)) as [[r g'] ev]. Qed.

Lemma total_lift {A} (m : M (@gstate W) A) : total m → total (lift m).
Proof. intros Hm s. rewrite run_lift. apply Hm. Qed.

Lemma emits_lift {A} P (m : M (@gstate W) A) : emits P m → emits P (lift m).
Proof. intros Hm s. rewrite run_lift. apply Hm. Qed.

Lemma db_lift {A} (m : M (@gstate W) A) s : db (final (lift m s)) = db s.
Proof. by rewrite run_lift. Qed.

Lemma total_update_mac_status mac st :
  total (update_mac_status (W:=W) clock mac st).
Proof.
  intros s. rewrite update_mac_status_run. destruct (db s !! mac); by eexists.
Qed.

Lemma trace_update_mac_status mac st s :
  trace (update_mac_status clock mac st s) = [EvUpsert mac st].
Proof. rewrite update_mac_status_run. by destruct (db s !! mac). Qed.

Lemma status_update_mac_status mac st s mac' :
  status_of (db (final (update_mac_status clock mac st s))) mac' =
  if decide (mac' = mac) then Some st else status_of (db s) mac'.
Proof.
  rewrite update_mac_status_run. unfold status_of.
  destruct (db s !! mac); simpl; destruct (decide (mac' = mac)) as [->|Hne];
    by rewrite ?lookup_insert_eq, ?lookup_insert_ne.
Qed.

(** The turn of a MAC the registry does not know. *)
Lemma handle_mac_new known mac s :
  status_of known mac = None →
  ∃ tb th host,
    handle_mac handle hmac clock known mac s =
      (inr tt, final (handle_mac handle hmac clock known mac s),
       EvUpsert mac Quarantine :: EvEnforce Block mac :: tb ++ th
         ++ [EvNewDeviceAlert mac Quarantine host]) ∧
    Forall (λ e, tag_of e ∈ block_tags mac ++ devices_tags ++ [TBlockedAlert mac]) tb ∧
    Forall (λ e, tag_of e ∈ devices_tags) th ∧
    db (final (handle_mac handle hmac clock known mac s)) =
      db (final (update_mac_status clock mac Quarantine s)).
Proof.
  intros Hnew. unfold handle_mac. fold (status_of known mac). rewrite Hnew.
  destruct (total_run _ s (total_update_mac_status mac Quarantine)) as [[] Hup].
  set (s1 := final (update_mac_status clock mac Quarantine s)) in *.
  rewrite trace_update_mac_status in Hup.
  destruct (run_block_mac handle hmac mac (fbx s1)) as (tb & Htb & Hftb).
  destruct (total_run _ (fbx s1) (total_block_mac handle hmac mac)) as [[] Hbm].
  rewrite Htb in Hbm.
  set (g2 := final (block_mac handle hmac mac (fbx s1))) in *.
  destruct (run_send_slack_alert handle hmac mac Quarantine g2) as (host & Hss).
  exists tb, (trace (get_device_hostname handle hmac mac g2)), host.
  assert (Forall (λ e, tag_of e ∈ devices_tags)
            (trace (get_device_hostname handle hmac mac g2))) as Hth.
  { by apply (shaped_emits devices_tags (λ e, tag_of e ∈ devices_tags) _
                (shaped_get_device_hostname handle hmac mac)). }
  set (s2 := mkL g2 (db s1) (clock_reads s1) (status_check_counter s1)).
  assert (lift (block_mac handle hmac mac) s1 = (inr tt, s2, EvEnforce Block mac :: tb))
    as Hl1 by (by rewrite run_lift, Hbm).
  assert (lift (send_slack_alert handle hmac mac Quarantine) s2 =
          (inr tt,
           mkL (final (get_device_hostname handle hmac mac g2)) (db s1)
             (clock_reads s1) (status_check_counter s1),
           trace (get_device_hostname handle hmac mac g2) ++
             [EvNewDeviceAlert mac Quarantine host]))
    as Hl2 by (by rewrite run_lift; simpl; rewrite Hss).
  rewrite !run_bind_assoc. rewrite (run_bind_ok _ _ _ _ _ _ Hup). cbv beta.
  rewrite !run_bind_assoc. rewrite (run_bind_ok _ _ _ _ _ _ Hl1). cbv beta.
  rewrite (run_bind_ok _ _ _ _ _ _ Hl2). cbv beta. run_proj.
  rewrite <- !app_assoc. simpl. done.
Qed.

Ltac split_binds :=
  repeat match goal with
    | |- total (mbind _ _) => apply total_bind; [|intros ?]
    | |- emits _ (mbind _ _) => apply emits_bind; [|intros ?]
    end.

Lemma handle_mac_cases known mac :
  (status_of known mac = None ∧
   handle_mac handle hmac clock known mac =
     ((update_mac_status clock mac Quarantine;;
       lift (block_mac handle hmac mac);;
       lift (send_slack_alert handle hmac mac Quarantine));; mret tt)) ∨
  (∃ st, status_of known mac = Some st ∧
   handle_mac handle hmac clock known mac =
     (lift (if banned_or_quarantine st then block_mac handle hmac mac
            else allow_mac handle hmac mac);;
      update_mac_status clock mac st)).
Proof.
  unfold handle_mac. fold (status_of known mac).
  destruct (status_of known mac) as [[| |]|]; [right|right|right|left]; eauto.
Qed.

Lemma total_handle_mac known mac : total (handle_mac handle hmac clock known mac).
Proof.
  destruct (handle_mac_cases known mac) as [[_ ->]|(st & _ & ->)].
  - split_binds;
      first [apply total_update_mac_status | apply total_lift; auto with totality
            | apply total_ret].
  - apply total_bind; [|intros ?; apply total_update_mac_status].
    apply total_lift. destruct (banned_or_quarantine st); auto with totality.
Qed.

Lemma emits_update_mac_status (P : event → Prop) mac st :
  P (EvUpsert mac st) → emits P (update_mac_status (W:=W) clock mac st).
Proof. intros HP s. rewrite trace_update_mac_status. by repeat constructor. Qed.

(** Every event of the turn of [mac] is a gateway exchange or is about
    [mac]. *)
Lemma emits_handle_mac known mac :
  emits (λ e, tag_of e ∈ handle_tags mac) (handle_mac handle hmac clock known mac).
Proof.
  assert (∀ L : list tag, L ⊆ handle_tags mac →
          ∀ e, tag_of e ∈ L → tag_of e ∈ handle_tags mac) as Hsub by set_solver.
  destruct (handle_mac_cases known mac) as [[_ ->]|(st & _ & ->)].
  - split_binds.
    + apply emits_update_mac_status. set_solver.
    + apply emits_lift. apply (shaped_emits _ _ _ (shaped_block_mac handle hmac mac)).
      apply Hsub. unfold handle_tags. set_solver.
    + apply emits_lift. destruct a0. intros g.
      destruct (run_send_slack_alert handle hmac mac Quarantine g) as (host & ->).
      apply Forall_app. split.
      * eapply Forall_impl;
          [apply (shaped_emits _ (λ e, tag_of e ∈ devices_tags) _
                    (shaped_get_device_hostname handle hmac mac)); done|].
        apply Hsub. unfold handle_tags. set_solver.
      * apply Forall_singleton. simpl. unfold handle_tags. set_solver.
    + by apply emits_silent, silent_ret.
  - apply emits_bind; [|intros ?; apply emits_update_mac_status; set_solver].
    apply emits_lift. destruct (banned_or_quarantine st).
    + apply (shaped_emits _ _ _ (shaped_block_mac handle hmac mac)).
      apply Hsub. unfold handle_tags. set_solver.
    + apply (shaped_emits _ _ _ (shaped_allow_mac handle hmac mac)).
      apply Hsub. unfold handle_tags. set_solver.
Qed.

(** The only status the turn of [mac] writes is the one read at the start
    of the cycle, or [Quarantine] when there was none. *)
Lemma upserts_handle_mac known mac :
  emits (λ e, ∀ m st, e = EvUpsert m st →
                m = mac ∧ st = default Quarantine (status_of known mac))
        (handle_mac handle hmac clock known mac).
Proof.
  assert (∀ L : list tag, (∀ m, TUpsert m ∉ L) →
          ∀ e, tag_of e ∈ L →
          ∀ m st, e = EvUpsert m st →
            m = mac ∧ st = default Quarantine (status_of known mac)) as Hno.
  { intros L HL e He m st ->. by destruct (HL m). }
  assert (∀ m, TUpsert m ∉ block_mac_tags mac) as Hb
    by (intros m; unfold block_mac_tags, block_tags, devices_tags; set_solver).
  assert (∀ m, TUpsert m ∉ allow_mac_tags mac) as Ha
    by (intros m; unfold allow_mac_tags, allow_tags; set_solver).
  destruct (handle_mac_cases known mac) as [[Hst ->]|(st & Hst & ->)].
  - split_binds.
    + apply emits_update_mac_status. intros m st [= -> ->]. by rewrite Hst.
    + apply emits_lift. apply (shaped_emits _ _ _ (shaped_block_mac handle hmac mac)).
      by apply Hno.
    + apply emits_lift. intros g.
      destruct (run_send_slack_alert handle hmac mac Quarantine g) as (host & ->).
      apply Forall_app. split.
      * eapply Forall_impl;
          [apply (shaped_emits _ (λ e, tag_of e ∈ devices_tags) _
                    (shaped_get_device_hostname handle hmac mac)); done|].
        apply Hno. intros m. unfold devices_tags. set_solver.
      * apply Forall_singleton. intros m st [=].
    + by apply emits_silent, silent_ret.
  - apply emits_bind;
      [|intros ?; apply emits_update_mac_status; intros m st' [= -> ->]; by rewrite Hst].
    apply emits_lift. destruct (banned_or_quarantine st).
    + apply (shaped_emits _ _ _ (shaped_block_mac handle hmac mac)). by apply Hno.
    + apply (shaped_emits _ _ _ (shaped_allow_mac handle hmac mac)). by apply Hno.
Qed.

Lemma status_handle_mac known mac s mac' :
  status_of (db (final (handle_mac handle hmac clock known mac s))) mac' =
  if decide (mac' = mac) then Some (default Quarantine (status_of known mac))
  else status_of (db s) mac'.
Proof.
  destruct (handle_mac_cases known mac) as [[Hst _]|(st & Hst & Heq)].
  - destruct (handle_mac_new known mac s Hst) as (tb & th & host & _ & _ & _ & ->).
    by rewrite status_update_mac_status, Hst.
  - rewrite Heq, Hst, final_bind.
    destruct (total_lift _ (λ g, match banned_or_quarantine st as b return
        ∃ a, result ((if b then block_mac handle hmac mac
                      else allow_mac handle hmac mac) g) = inr a
      with true => total_block_mac handle hmac mac g
         | false => total_allow_mac handle hmac mac g end) s) as [[] ->].
    by rewrite status_update_mac_status, db_lift.
Qed.

Lemma drift_event_in (L : list tag) e :
  (∀ m, TUpsert m ∉ L) → (∀ m, TNewDeviceAlert m ∉ L) →
  (∀ o m, TEnforce o m ∉ L) → (∀ m, TBlockedAlert m ∉ L) →
  tag_of e ∈ L → drift_event e.
Proof.
  intros H1 H2 H3 H4 He. unfold drift_event.
  destruct (tag_of e) eqn:Ht; try done;
    [by destruct (H3 o mac)|by destruct (H4 mac)|by destruct (H2 mac)|by destruct (H1 mac)].
Qed.

Lemma emits_check_device states entry :
  emits drift_event (check_device handle hmac states entry).
Proof.
  unfold check_device. destruct entry as [mac db_status].
  destruct (states !! mac) as [current_access|]; [|by apply emits_silent, silent_ret].
  destruct db_status as [st|]; [|by apply emits_silent, silent_ret].
  destruct (negb _); [|by apply emits_silent, silent_ret].
  destruct (_ && _).
  { split_binds; [by apply emits_emit| |by apply emits_silent, silent_ret].
    apply (shaped_emits _ _ _ (shaped_block_device_by_mac handle hmac mac)).
    intros e. apply drift_event_in; intros; unfold block_tags; set_solver. }
  destruct (_ && _); [|by apply emits_silent, silent_ret].
  split_binds; [by apply emits_emit| |by apply emits_silent, silent_ret].
  apply (shaped_emits _ _ _ (shaped_allow_device_by_mac handle hmac mac)).
  intros e. apply drift_event_in; intros; unfold allow_tags; set_solver.
Qed.

Lemma total_check_status_changes : total (check_status_changes handle hmac).
Proof.
  unfold check_status_changes. apply total_bind; [apply total_gets|]. intros s0.
  destruct (negb _); [apply total_ret|].
  apply total_lift, total_try. intros e. apply total_emit.
Qed.

Lemma db_check_status_changes s :
  db (final (check_status_changes handle hmac s)) = db s.
Proof.
  unfold check_status_changes. rewrite run_bind_gets.
  destruct (negb _); [done|]. apply db_lift.
Qed.

Lemma emits_check_status_changes :
  emits drift_event (check_status_changes handle hmac).
Proof.
  unfold check_status_changes. apply emits_bind; [by apply emits_silent, silent_gets|].
  intros s0. destruct (negb _); [by apply emits_silent, silent_ret|].
  apply emits_lift, emits_try; [|intros e; by apply emits_emit].
  apply emits_bind.
  { apply (shaped_emits _ _ _ (shaped_get_network_devices handle hmac)).
    intros e. apply drift_event_in; intros; set_solver. }
  intros devices. destruct (negb _); [by apply emits_silent, silent_ret|].
  apply emits_bind; [by apply emits_silent, silent_pure|]. intros states.
  apply emits_for_each. intros entry _. apply emits_check_device.
Qed.

(** A cycle is the loop over the scanned MACs followed by a tail that
    only counts and, every third time, checks for drift. *)
Lemma run_cycle_parts detected s :
  let turns := for_each (handle_mac handle hmac clock (db s)) detected s in
  ∃ tail,
    result (run_cycle handle hmac clock detected s) = inr tt ∧
    trace (run_cycle handle hmac clock detected s) = trace turns ++ tail ∧
    db (final (run_cycle handle hmac clock detected s)) = db (final turns) ∧
    Forall drift_event tail.
Proof.
  intros turns. unfold run_cycle. rewrite run_bind_gets. fold turns.
  destruct (total_run _ s (total_for_each _ detected
              (total_handle_mac (db s)))) as [[] Hturns].
  fold turns in Hturns. rewrite (run_bind_ok _ _ _ _ _ _ Hturns). cbv beta.
  unfold set_counter. run_step.
  set (s1 := mkL (fbx (final turns)) (db (final turns)) (clock_reads (final turns))
                 (status_check_counter (final turns) + 1)).
  match goal with |- context [(if ?b then _ else _) s1] => destruct b end.
  - destruct (total_run _ s1 total_check_status_changes) as [[] Hcheck].
    rewrite (run_bind_ok _ _ _ _ _ _ Hcheck). run_proj.
    exists (trace (check_status_changes handle hmac s1) ++ []).
    split; [done|]. split; [done|]. split.
    + by rewrite db_check_status_changes.
    + rewrite app_nil_r. apply emits_check_status_changes.
  - exists []. run_proj. by rewrite app_nil_r.
Qed.

Lemma upserts_run_cycle detected s mac st :
  EvUpsert mac st ∈ trace (run_cycle handle hmac clock detected s) →
  st = default Quarantine (status_of (db s) mac).
Proof.
  destruct (run_cycle_parts detected s) as (tail & _ & -> & _ & Htail).
  rewrite elem_of_app. intros [Hin|Hin].
  - assert (emits (λ e, ∀ m st', e = EvUpsert m st' →
                      st' = default Quarantine (status_of (db s) m))
              (for_each (handle_mac handle hmac clock (db s)) detected)) as Hturns.
    { apply emits_for_each. intros x _.
      eapply emits_mono; [apply upserts_handle_mac|].
      intros e He m' st' Heq. by destruct (He m' st' Heq) as [-> ->]. }
    specialize (Hturns s). rewrite Forall_forall in Hturns.
    by apply (Hturns _ Hin).
  - rewrite Forall_forall in Htail. by destruct (Htail _ Hin).
Qed.

(** C8. Through a whole cycle (the turns of the scanned MACs, the
    refresh of [last_seen] and the drift check) a row keeps the status it
    had when the cycle started; a MAC without a status has none at the end
    or is in quarantine; and every status the cycle writes is the one it
    read for that MAC, or [Quarantine] where it read none. *)
Theorem cycle_preserves_status detected s :
  let run := run_cycle handle hmac clock detected s in
  result run = inr tt ∧
  (∀ mac st, status_of (db s) mac = Some st →
             status_of (db (final run)) mac = Some st) ∧
  (∀ mac, status_of (db s) mac = None →
          status_of (db (final run)) mac = None ∨
          status_of (db (final run)) mac = Some Quarantine) ∧
  (∀ mac st, EvUpsert mac st ∈ trace run →
             status_of (db s) mac = Some st ∨
             (status_of (db s) mac = None ∧ st = Quarantine)).
Proof.
  intros run.
  assert (∀ mac, status_of (db (final run)) mac = status_of (db s) mac ∨
                 (status_of (db s) mac = None ∧
                  status_of (db (final run)) mac = Some Quarantine)) as Hinv.
  { subst run. destruct (run_cycle_parts detected s) as (tail & _ & _ & -> & _).
    apply (for_each_final_inv
             (λ s', ∀ mac, status_of (db s') mac = status_of (db s) mac ∨
                           (status_of (db s) mac = None ∧
                            status_of (db s') mac = Some Quarantine))); [|by left].
    intros x s' _ Hs' mac. rewrite status_handle_mac.
    destruct (decide (mac = x)) as [->|_]; [|apply Hs'].
    destruct (status_of (db s) x); [by left|by right]. }
  split; [subst run; by destruct (run_cycle_parts detected s) as (tail & -> & _)|].
  split; [|split].
  - intros mac st Hst. destruct (Hinv mac) as [->|[Hnone _]]; [done|congruence].
  - intros mac Hst. destruct (Hinv mac) as [->|[_ ->]]; [by left|by right].
  - intros mac st Hin. rewrite (upserts_run_cycle _ _ _ _ Hin).
    destruct (status_of (db s) mac); [by left|by right].
Qed.

Lemma no_alert_for_others known m l :
  m ∉ l →
  emits (λ e, tag_of e ≠ TNewDeviceAlert m)
        (for_each (handle_mac handle hmac clock known) l).
Proof.
  intros Hm. apply emits_for_each. intros x Hx.
  eapply emits_mono; [apply emits_handle_mac|].
  intros e He Heq. cbv beta in He. rewrite Heq in He.
  assert (m = x) as ->; [|done].
  unfold handle_tags, block_mac_tags, allow_mac_tags, block_tags, allow_tags,
    devices_tags, session_tags, handshake_tags in He.
  set_solver.
Qed.

Lemma status_kept_by_others known m st l s :
  m ∉ l → status_of (db s) m = Some st →
  status_of (db (final (for_each (handle_mac handle hmac clock known) l s))) m = Some st.
Proof.
  intros Hm Hst.
  apply (for_each_final_inv (λ s', status_of (db s') m = Some st)); [|done].
  intros x s' Hx Hs'. rewrite status_handle_mac.
  destruct (decide (m = x)) as [->|_]; [done|exact Hs'].
Qed.

(** C1. A MAC of the scan that has no row at the start of the cycle: at
    the end its row is in quarantine, every status written for it during
    the cycle is [Quarantine], and the cycle performs, in this order, the
    insertion of the row, the call of [block_mac] and the new-device alert,
    which is emitted exactly once. *)
Theorem new_device_quarantined detected m s :
  NoDup detected → m ∈ detected → db s !! m = None →
  let run := run_cycle handle hmac clock detected s in
  status_of (db (final run)) m = Some Quarantine ∧
  (∀ st, EvUpsert m st ∈ trace run → st = Quarantine) ∧
  count_tag (TNewDeviceAlert m) (trace run) = 1%nat ∧
  ∃ t1 t2 t3 t4 host,
    trace run =
      t1 ++ EvUpsert m Quarantine :: t2 ++ EvEnforce Block m :: t3
         ++ EvNewDeviceAlert m Quarantine host :: t4.
Proof.
  intros Hnd Hin Hnew run.
  assert (status_of (db s) m = None) as Hst by (unfold status_of; by rewrite Hnew).
  assert (∀ st, EvUpsert m st ∈ trace run → st = Quarantine) as Hups.
  { intros st Hst'. by rewrite (upserts_run_cycle _ _ _ _ Hst'), Hst. }
  subst run.
  destruct (run_cycle_parts detected s) as (tail & _ & Htr & Hdb & Htail).
  cbv zeta in Htr, Hdb.
  apply list_elem_of_split in Hin as (l1 & l2 & ->).
  apply NoDup_app in Hnd as (_ & Hl1 & Hnd2).
  apply NoDup_cons in Hnd2 as [Hl2 _].
  assert (m ∉ l1) as Hl1' by (intros H; apply (Hl1 m H); left).
  destruct (for_each_around (handle_mac handle hmac clock (db s)) l1 m l2 s
              (total_handle_mac (db s))) as [Haround Hfinal].
  set (s1 := final (for_each (handle_mac handle hmac clock (db s)) l1 s)) in *.
  destruct (handle_mac_new (db s) m s1 Hst) as (tb & th & host & Hrun & Htb & Hth & _).
  assert (trace (handle_mac handle hmac clock (db s) m s1) =
          EvUpsert m Quarantine :: EvEnforce Block m :: tb ++ th
            ++ [EvNewDeviceAlert m Quarantine host]) as Htrm by (by rewrite Hrun).
  clear Hrun. rewrite Htrm in Haround. rewrite Haround in Htr.
  split; [|split; [exact Hups|split]].
  - rewrite Hdb, Hfinal. apply status_kept_by_others; [done|].
    rewrite status_handle_mac. rewrite decide_True by done. by rewrite Hst.
  - rewrite Htr. rewrite !count_tag_app, !count_tag_cons, !count_tag_app.
    rewrite (count_tag_none _ _ (no_alert_for_others (db s) m l1 Hl1' s)).
    rewrite (count_tag_none _ _ (no_alert_for_others (db s) m l2 Hl2 _)).
    assert (TNewDeviceAlert m ∉ block_tags m ++ devices_tags ++ [TBlockedAlert m]) as Hnb
      by (unfold block_tags, devices_tags, session_tags, handshake_tags; set_solver).
    assert (TNewDeviceAlert m ∉ devices_tags) as Hnh
      by (unfold devices_tags, session_tags, handshake_tags; set_solver).
    rewrite (count_tag_outside _ _ tb Hnb Htb), (count_tag_outside _ _ th Hnh Hth).
    rewrite (count_tag_none _ tail).
    + rewrite count_tag_cons. cbn [tag_of].
      rewrite !decide_False by done. rewrite decide_True by done. reflexivity.
    + eapply Forall_impl; [exact Htail|]. intros e He Heq.
      unfold drift_event in He. by rewrite Heq in He.
  - exists (trace (for_each (handle_mac handle hmac clock (db s)) l1 s)), [],
      (tb ++ th), (trace (for_each (handle_mac handle hmac clock (db s)) l2
                            (final (handle_mac handle hmac clock (db s) m s1))) ++ tail),
      host.
    rewrite Htr. repeat (cbn [app]; rewrite <- ?app_assoc). reflexivity.
Qed.

(** *** The drift check on one mismatching device *)

Lemma count_tag_quiet mac T t :
  T ∈ drift_marks mac → Forall (quiet_about mac) t → count_tag T t = 0%nat.
Proof.
  intros HT Ht. apply count_tag_none. eapply Forall_impl; [exact Ht|].
  intros e He Heq. apply He. by rewrite Heq.
Qed.

Lemma quiet_in (L : list tag) mac e :
  (∀ T, T ∈ drift_marks mac → T ∉ L) → tag_of e ∈ L → quiet_about mac e.
Proof. intros HL He Hin. by apply (HL _ Hin). Qed.

Lemma quiet_check_device states mac x db_status :
  x ≠ mac → emits (quiet_about mac) (check_device handle hmac states (x, db_status)).
Proof.
  intros Hx. unfold check_device.
  destruct (states !! x) as [current_access|]; [|by apply emits_silent, silent_ret].
  destruct db_status as [st|]; [|by apply emits_silent, silent_ret].
  destruct (negb _); [|by apply emits_silent, silent_ret].
  destruct (_ && _).
  { split_binds; [apply emits_emit| |by apply emits_silent, silent_ret].
    - unfold quiet_about, drift_marks. set_solver.
    - apply (shaped_emits _ _ _ (shaped_block_device_by_mac handle hmac x)).
      intros e. apply quiet_in. intros T HT.
      unfold drift_marks in HT. unfold block_tags, session_tags, handshake_tags.
      set_solver. }
  destruct (_ && _); [|by apply emits_silent, silent_ret].
  split_binds; [apply emits_emit| |by apply emits_silent, silent_ret].
  - unfold quiet_about, drift_marks. set_solver.
  - apply (shaped_emits _ _ _ (shaped_allow_device_by_mac handle hmac x)).
    intros e. apply quiet_in. intros T HT.
    unfold drift_marks in HT. unfold allow_tags, session_tags, handshake_tags.
    set_solver.
Qed.

Lemma quiet_check_devices states mac (l : list (string * option policy_status)) :
  mac ∉ l.*1 →
  emits (quiet_about mac) (for_each (check_device handle hmac states) l).
Proof.
  intros Hl. apply emits_for_each. intros [x db_status] Hx.
  apply quiet_check_device. intros ->. apply Hl.
  by apply (list_elem_of_fmap_2 fst) in Hx.
Qed.

(** The turn of the mismatching device: one warning, then one call. *)
Lemma run_check_device_drift states mac st g :
  states !! mac = Some (JBool (banned_or_quarantine st)) →
  let o := if banned_or_quarantine st then Block else Allow in
  ∃ rest,
    trace (check_device handle hmac states (mac, Some st) g) =
      EvDriftWarning o mac :: EvCall o mac :: rest ∧
    Forall (quiet_about mac) rest.
Proof.
  intros Hacc o. unfold check_device. rewrite Hacc.
  assert (∀ L : list tag, (∀ T, T ∈ drift_marks mac → T ∉ L) →
          ∀ rest, Forall (λ e, tag_of e ∈ L) rest → Forall (quiet_about mac) rest) as Hq.
  { intros L HL rest Hrest. eapply Forall_impl; [exact Hrest|].
    intros e. by apply quiet_in. }
  subst o. destruct (banned_or_quarantine st); simpl.
  - rewrite run_bind_emit. run_proj.
    destruct (total_run _ g (total_block_device_by_mac handle hmac mac)) as [ok Hrun].
    rewrite (run_bind_ok _ _ _ _ _ _ Hrun). run_proj.
    destruct (run_block_device_by_mac handle hmac mac g) as (rest & -> & Hrest).
    exists rest. rewrite app_nil_r. split; [done|].
    eapply Hq; [|exact Hrest]. intros T HT.
    unfold drift_marks in HT. unfold session_tags, handshake_tags. set_solver.
  - rewrite run_bind_emit. run_proj.
    destruct (total_run _ g (total_allow_device_by_mac handle hmac mac)) as [ok Hrun].
    rewrite (run_bind_ok _ _ _ _ _ _ Hrun). run_proj.
    destruct (run_allow_device_by_mac handle hmac mac g) as (rest & -> & Hrest).
    exists rest. rewrite app_nil_r. split; [done|].
    eapply Hq; [|exact Hrest]. intros T HT.
    unfold drift_marks in HT. unfold session_tags, handshake_tags. set_solver.
Qed.

(** The counts of the drift check for a row whose status the reported access
    flag contradicts: one warning and one corrective call of the kind the
    status calls for, none of the opposite kind; the check ends normally,
    without its error line, and leaves the registry as it was. *)
Lemma drift_counts s devices g1 ev1 states mac r st :
  connected (api (fbx s)) = true →
  get_network_devices handle hmac (fbx s) = (inr devices, g1, ev1) →
  PyJson.truthy devices = true →
  build_states (iter_devices devices) ∅ = inr states →
  db s !! mac = Some r → status r = Some st →
  states !! mac = Some (JBool (banned_or_quarantine st)) →
  let run := check_status_changes handle hmac s in
  let o := if banned_or_quarantine st then Block else Allow in
  let o' := if banned_or_quarantine st then Allow else Block in
  result run = inr tt ∧ db (final run) = db s ∧
  count_tag (TDrift o mac) (trace run) = 1%nat ∧
  count_tag (TCall o mac) (trace run) = 1%nat ∧
  count_tag (TCall o' mac) (trace run) = 0%nat ∧
  count_tag TCheckError (trace run) = 0%nat.
Proof.
  intros Hconn Hgnd Htruthy Hstates Hrow Hst Hacc run o o'.
  (* the rows, around the one of [mac] *)
  assert ((mac, r) ∈ map_to_list (db s)) as Hin by by apply elem_of_map_to_list.
  apply list_elem_of_split in Hin as (ma & mb & Hsplit).
  pose proof (NoDup_fst_map_to_list (db s)) as Hnd.
  rewrite Hsplit, fmap_app, fmap_cons in Hnd.
  apply NoDup_app in Hnd as (_ & Hma & Hnd). apply NoDup_cons in Hnd as [Hmb _].
  simpl in Hma, Hmb.
  set (f := λ kv : string * row, (kv.1, status kv.2)).
  assert (db_devices_of (db s) = (f <$> ma) ++ (mac, Some st) :: (f <$> mb)) as Hl.
  { unfold db_devices_of. fold f. rewrite Hsplit, fmap_app, fmap_cons.
    unfold f at 2. simpl. by rewrite Hst. }
  assert (mac ∉ (f <$> ma).*1) as Hqa.
  { rewrite <- list_fmap_compose. intros H. apply (Hma mac H). left. }
  assert (mac ∉ (f <$> mb).*1) as Hqb by by rewrite <- list_fmap_compose.
  (* the run of the loop over the rows *)
  destruct (for_each_around (check_device handle hmac states) (f <$> ma)
              (mac, Some st) (f <$> mb) g1 (total_check_device handle hmac states))
    as [Haround _].
  set (ga := final (for_each (check_device handle hmac states) (f <$> ma) g1)) in *.
  destruct (run_check_device_drift states mac st ga Hacc) as (rest & Hdev & Hrest).
  fold o in Hdev. rewrite Hdev in Haround.
  destruct (total_run _ g1 (total_for_each (check_device handle hmac states)
              (db_devices_of (db s)) (total_check_device handle hmac states)))
    as [[] Hloop].
  (* the run of the check *)
  assert (check_status_changes handle hmac s =
          (inr tt,
           mkL (final (for_each (check_device handle hmac states)
                         (db_devices_of (db s)) g1))
               (db s) (clock_reads s) (status_check_counter s),
           ev1 ++ trace (for_each (check_device handle hmac states)
                           (db_devices_of (db s)) g1))) as Hrun.
  { unfold check_status_changes. rewrite run_bind_gets. unfold id. rewrite Hconn.
    cbn [negb]. rewrite run_lift.
    erewrite run_try_ok; [reflexivity|].
    rewrite (run_bind_ok _ _ _ _ _ _ Hgnd). rewrite Htruthy. cbn [negb].
    rewrite Hstates. run_step. rewrite Hloop. reflexivity. }
  subst run. rewrite Hrun. run_proj. rewrite Hl, Haround.
  assert (Forall (quiet_about mac) ev1) as Hev1.
  { replace ev1 with (trace (get_network_devices handle hmac (fbx s)))
      by by rewrite Hgnd.
    apply (shaped_emits _ _ _ (shaped_get_network_devices handle hmac)).
    intros e. apply quiet_in. intros T HT.
    unfold drift_marks in HT. unfold session_tags, handshake_tags. set_solver. }
  pose proof (quiet_check_devices states mac _ Hqa g1) as Ha.
  pose proof (quiet_check_devices states mac _ Hqb
                (final (check_device handle hmac states (mac, Some st) ga))) as Hb.
  assert (∀ T, T ∈ drift_marks mac →
    count_tag T (ev1 ++ trace (for_each (check_device handle hmac states) (f <$> ma) g1)
      ++ (EvDriftWarning o mac :: EvCall o mac :: rest)
      ++ trace (for_each (check_device handle hmac states) (f <$> mb)
                  (final (check_device handle hmac states (mac, Some st) ga))))
    = ((if decide (TDrift o mac = T) then 1 else 0) +
       (if decide (TCall o mac = T) then 1 else 0))%nat) as Hcount.
  { intros T HT. rewrite !count_tag_app, !count_tag_cons. cbn [tag_of].
    rewrite (count_tag_quiet mac T ev1 HT Hev1), (count_tag_quiet mac T _ HT Ha),
      (count_tag_quiet mac T rest HT Hrest), (count_tag_quiet mac T _ HT Hb).
    lia. }
  split; [done|]. split; [done|].
  rewrite !Hcount by (unfold drift_marks; subst o o';
                      destruct (banned_or_quarantine st); set_solver).
  subst o o'.
  destruct (banned_or_quarantine st);
    repeat split; repeat case_decide; first [done|congruence].
Qed.

End Loop.

(** ** Concrete cycles *)

Lemma new_device_quarantined_witness :
  status_of (db (final (run_cycle scripted no_hmac tick ["aa:bb:cc:dd:ee:01"]
                          (sample_lstate ∅))))
            "aa:bb:cc:dd:ee:01" = Some Quarantine.
Proof.
  refine (proj1 (new_device_quarantined scripted no_hmac tick ["aa:bb:cc:dd:ee:01"]
                   "aa:bb:cc:dd:ee:01" (sample_lstate ∅) _ _ _)).
  - apply NoDup_singleton.
  - constructor.
  - reflexivity.
Defined.

Lemma cycle_preserves_status_witness :
  status_of (db (final (run_cycle scripted no_hmac tick ["aa:bb:cc:dd:ee:01"]
                          (sample_lstate {[ "aa:bb:cc:dd:ee:01" := sample_row ]}))))
            "aa:bb:cc:dd:ee:01" = Some Banned.
Proof.
  apply (proj1 (proj2 (cycle_preserves_status scripted no_hmac tick
                         ["aa:bb:cc:dd:ee:01"]
                         (sample_lstate {[ "aa:bb:cc:dd:ee:01" := sample_row ]})))
           "aa:bb:cc:dd:ee:01" Banned).
  vm_compute. reflexivity.
Defined.

(** * Further properties *)

(** ** More facts about runs *)

Lemma try_true {St} (m : M St bool) (s : St) :
  result (try_catch m (λ _, mret false) s) = inr true →
  try_catch m (λ _, mret false) s = m s ∧ result (m s) = inr true.
Proof.
  unfold try_catch. destruct (m s) as [[[e|a] s'] ev]; simpl; [done|].
  by intros [= ->].
Qed.

Lemma run_try_const {St A} (m : M St A) (b : A) (s : St) :
  try_catch m (λ _, mret b) s =
  (match result (m s) with inl _ => inr b | inr a => inr a end,
   final (m s), trace (m s)).
Proof.
  unfold try_catch. destruct (m s) as [[[e|a] s'] ev]; simpl; [|done].
  by rewrite app_nil_r.
Qed.



Ltac split_binds :=
  repeat match goal with
    | |- total (mbind _ _) => apply total_bind; [|intros ?]
    | |- emits _ (mbind _ _) => apply emits_bind; [|intros ?]
    end.

(** ** The scan adapter, exactly *)

Lemma contains_app c s1 s2 :
  Py.contains c (s1 ++ s2) = Py.contains c s1 || Py.contains c s2.
Proof.
  induction s1 as [|d s1 IH]; simpl; [done|].
  destruct (Ascii.eqb c d); [done|exact IH].
Qed.

Lemma contains_lower_colon s : Py.contains ":" (Py.lower s) = Py.contains ":" s.
Proof.
  induction s as [|c s IH]; simpl; [done|]. rewrite IH.
  f_equal. destruct c as [[] [] [] [] [] [] [] []]; reflexivity.
Qed.

Lemma split_on_go_no_sep sep acc s :
  Py.contains sep s = false → length (Py.split_on_go sep acc s) = 1%nat.
Proof.
  revert acc. induction s as [|c s IH]; intros acc; simpl; [done|].
  rewrite (Ascii.eqb_sym c sep). destruct (Ascii.eqb sep c); [done|]. apply IH.
Qed.

Lemma split_ws_go_chars c acc s w :
  w ∈ Py.split_ws_go acc s → Py.contains c w = true →
  Py.contains c acc = true ∨ Py.contains c s = true.
Proof.
  revert acc. induction s as [|d s IH]; intros acc; simpl.
  - destruct acc; [by intros ?%elem_of_nil|].
    intros ->%list_elem_of_singleton. by left.
  - destruct (Py.is_space d).
    + destruct acc as [|a acc].
      * intros Hw Hc. destruct (IH _ Hw Hc) as [H|H]; [done|].
        right. rewrite H. by destruct (Ascii.eqb c d).
      * intros [->|Hw]%elem_of_cons Hc; [by left|].
        destruct (IH _ Hw Hc) as [H|H]; [done|].
        right. rewrite H. by destruct (Ascii.eqb c d).
    + intros Hw Hc. destruct (IH _ Hw Hc) as [H|H].
      * rewrite contains_app in H. apply orb_true_iff in H as [H|H]; [by left|].
        right. simpl in H. by destruct (Ascii.eqb c d).
      * right. rewrite H. by destruct (Ascii.eqb c d).
Qed.

Lemma six_groups_colon_in_line line a w rest :
  Py.split_ws line = a :: w :: rest →
  length (Py.split_on ":" (Py.lower w)) = 6%nat →
  Py.contains ":" line = true.
Proof.
  intros Hsplit Hlen.
  assert (Py.contains ":" w = true) as Hw.
  { destruct (Py.contains ":" w) eqn:Hc; [done|].
    rewrite <- contains_lower_colon in Hc.
    unfold Py.split_on in Hlen. rewrite (split_on_go_no_sep _ _ _ Hc) in Hlen. done. }
  assert (w ∈ Py.split_ws_go EmptyString line) as Hin.
  { unfold Py.split_ws in Hsplit. rewrite Hsplit. set_solver. }
  by destruct (split_ws_go_chars ":" _ _ _ Hin Hw).
Qed.

Lemma elem_of_scan_line devices line m :
  m ∈ scan_line devices line ↔
  m ∈ devices ∨
  ∃ a w rest, Py.split_ws line = a :: w :: rest ∧ m = Py.lower w ∧
              length (Py.split_on ":" (Py.lower w)) = 6%nat.
Proof.
  unfold scan_line. split.
  - destruct (Py.contains ":" line && _); [|by left].
    destruct (Py.split_ws line) as [|a [|w rest]]; [by left|by left|].
    simpl. destruct (length _ =? 6)%nat eqn:Hlen; [|by left].
    rewrite elem_of_union, elem_of_singleton. intros [->|H]; [|by left].
    right. exists a, w, rest. by apply Nat.eqb_eq in Hlen.
  - intros [H|(a & w & rest & Hsplit & -> & Hlen)].
    + destruct (Py.contains ":" line && _); [|done].
      destruct (Py.split_ws line) as [|a [|w rest]]; [done|done|].
      simpl. destruct (length _ =? 6)%nat; [set_solver|done].
    + rewrite (six_groups_colon_in_line _ _ _ _ Hsplit Hlen), Hsplit. simpl.
      apply Nat.eqb_eq in Hlen as ->. set_solver.
Qed.

Lemma elem_of_scan_lines lines devices m :
  m ∈ foldl scan_line devices lines ↔
  m ∈ devices ∨
  ∃ line a w rest, line ∈ lines ∧ Py.split_ws line = a :: w :: rest ∧
                   m = Py.lower w ∧ length (Py.split_on ":" (Py.lower w)) = 6%nat.
Proof.
  revert devices. induction lines as [|line lines IH]; intros devices; simpl.
  - split; [by left|]. intros [H|(line & a & w & rest & Hin & _)]; [done|].
    by apply elem_of_nil in Hin.
  - rewrite IH, elem_of_scan_line. split.
    + intros [[H|(a & w & rest & H)]|(l & a & w & rest & Hin & H)]; [by left| |].
      * right. exists line, a, w, rest. split; [left|done].
      * right. exists l, a, w, rest. split; [by right|done].
    + intros [H|(l & a & w & rest & Hin & H)]; [by left; left|].
      apply elem_of_cons in Hin as [->|Hin].
      * left. right. by exists a, w, rest.
      * right. by exists l, a, w, rest.
Qed.

(** X1. For a completed arp-scan, a MAC is in the set returned by
    scan_network exactly when some line of the output has at least two
    whitespace-separated fields and the second one, lower-cased, splits at
    the colons into exactly six parts; the MAC is that lower-cased field.
    The content of the six parts is not inspected. *)
Theorem scan_network_exact stdout m :
  m ∈ scan_network (Completed stdout) ↔
  ∃ line a w rest,
    line ∈ Py.splitlines stdout ∧ Py.split_ws line = a :: w :: rest ∧
    m = Py.lower w ∧ length (Py.split_on ":" (Py.lower w)) = 6%nat.
Proof.
  simpl. rewrite elem_of_scan_lines. split; [|by right].
  intros [H|H]; [by apply elem_of_empty in H|done].
Qed.

(** ** What a cycle does to the registry *)

Section CycleRegistry.
Context {W : Type}.
Variable handle : W → request → W * reply.
Variable hmac : string → string → string.
Variable clock : nat → Z.
Implicit Types s : @lstate W.

(** The registry part of the loop state: table, clock and counter. *)
Lemma registry_lift {A} (m : M (@gstate W) A) s :
  db (final (lift m s)) = db s ∧
  clock_reads (final (lift m s)) = clock_reads s ∧
  status_check_counter (final (lift m s)) = status_check_counter s.
Proof. by rewrite run_lift. Qed.

(** The turn of [mac] is, for the registry, one call of
    [update_mac_status] with the status read at the start of the cycle
    ([Quarantine] when there was none). *)
Lemma handle_mac_registry known mac s :
  let s' := final (handle_mac handle hmac clock known mac s) in
  ∃ s0, db s0 = db s ∧ clock_reads s0 = clock_reads s ∧
        status_check_counter s0 = status_check_counter s ∧
    let u := final (update_mac_status clock mac
                      (default Quarantine (status_of known mac)) s0) in
    db s' = db u ∧ clock_reads s' = clock_reads u ∧
    status_check_counter s' = status_check_counter u.
Proof.
  destruct (handle_mac_cases handle hmac clock known mac) as [[Hst Heq]|(st & Hst & Heq)];
    rewrite Heq, Hst; clear Heq; simpl default.
  - exists s. do 3 (split; [done|]).
    rewrite final_bind.
    set (body := (update_mac_status clock mac Quarantine ≫= _)).
    assert (∃ x, body s = (inr tt, x, trace (body s)) ∧
                 db x = db (final (update_mac_status clock mac Quarantine s)) ∧
                 clock_reads x = clock_reads (final (update_mac_status clock mac Quarantine s)) ∧
                 status_check_counter x =
                   status_check_counter (final (update_mac_status clock mac Quarantine s)))
      as (x & Hx & Hdb & Hck & Hct).
    { subst body.
      destruct (total_run _ s (total_update_mac_status clock mac Quarantine)) as [[] Hup].
      set (s1 := final (update_mac_status clock mac Quarantine s)) in *.
      destruct (total_run _ s1 (total_lift _ (total_block_mac handle hmac mac))) as [[] Hb].
      set (s2 := final (lift (block_mac handle hmac mac) s1)) in *.
      destruct (total_run _ s2 (total_lift _ (total_send_slack_alert handle hmac mac Quarantine)))
        as [[] Ha].
      set (s3 := final (lift (send_slack_alert handle hmac mac Quarantine) s2)) in *.
      exists s3.
      destruct (registry_lift (send_slack_alert handle hmac mac Quarantine) s2) as (D3 & C3 & K3).
      destruct (registry_lift (block_mac handle hmac mac) s1) as (D2 & C2 & K2).
      fold s3 in D3, C3, K3. fold s2 in D2, C2, K2, D3, C3, K3.
      split; [|split; [congruence|split; congruence]].
      rewrite (run_bind_ok _ _ _ _ _ _ Hup). cbv beta.
      rewrite (run_bind_ok _ _ _ _ _ _ Hb). cbv beta. rewrite Ha. run_proj.
      try done. }
    rewrite Hx. run_proj. done.
  - set (enforce := lift (if banned_or_quarantine st then block_mac handle hmac mac
                          else allow_mac handle hmac mac)).
    assert (total enforce) as Htot.
    { apply total_lift. destruct (banned_or_quarantine st);
        [apply total_block_mac|apply total_allow_mac]. }
    exists (final (enforce s)).
    destruct (registry_lift (if banned_or_quarantine st then block_mac handle hmac mac
                             else allow_mac handle hmac mac) s) as (D & C & K).
    fold enforce in D, C, K. do 3 (split; [done|]).
    rewrite final_bind. by destruct (Htot s) as [[] ->].
Qed.

(** The row written by [update_mac_status]. *)
Lemma update_mac_status_row mac st s :
  let s' := final (update_mac_status clock mac st s) in
  ∃ r', db s' = <[mac := r']> (db s) ∧ status r' = Some st ∧
        last_seen r' = clock (clock_reads s' - 1) ∧
        (clock_reads s < clock_reads s')%nat ∧
        status_check_counter s' = status_check_counter s ∧
        (∀ r, db s !! mac = Some r →
              first_seen r' = first_seen r ∧ comment r' = comment r).
Proof.
  rewrite update_mac_status_run. destruct (db s !! mac) as [r|]; simpl.
  - eexists. split; [reflexivity|]. simpl. rewrite Nat.sub_0_r.
    split; [done|]. split; [done|]. split; [lia|]. split; [done|].
    by intros ? [= <-].
  - eexists. split; [reflexivity|]. simpl.
    split; [done|]. split; [done|]. split; [lia|]. split; [done|]. done.
Qed.

Lemma handle_mac_row known mac s :
  let s' := final (handle_mac handle hmac clock known mac s) in
  ∃ r', db s' = <[mac := r']> (db s) ∧
        status r' = Some (default Quarantine (status_of known mac)) ∧
        last_seen r' = clock (clock_reads s' - 1) ∧
        (clock_reads s < clock_reads s')%nat ∧
        status_check_counter s' = status_check_counter s ∧
        (∀ r, db s !! mac = Some r →
              first_seen r' = first_seen r ∧ comment r' = comment r).
Proof.
  destruct (handle_mac_registry known mac s) as (s0 & D0 & C0 & K0 & D & C & K).
  destruct (update_mac_status_row mac (default Quarantine (status_of known mac)) s0)
    as (r' & Hdb & Hst & Hls & Hck & Hct & Hh).
  cbv zeta in *. exists r'.
  rewrite D, C, K, Hdb, D0, <- C0, <- K0. rewrite D0 in Hh. done.
Qed.


(** A cycle, spelled out: the turns of the scanned MACs, the counter, and
    the drift check when the counter reaches the interval. *)
Lemma run_cycle_eq detected s :
  let turns := for_each (handle_mac handle hmac clock (db s)) detected s in
  let c := (status_check_counter (final turns) + 1)%nat in
  let s1 := mkL (fbx (final turns)) (db (final turns)) (clock_reads (final turns)) c in
  let chk := check_status_changes handle hmac s1 in
  run_cycle handle hmac clock detected s =
    if (STATUS_CHECK_INTERVAL <=? c)%nat then
      (inr tt, mkL (fbx (final chk)) (db (final chk)) (clock_reads (final chk)) 0,
       trace turns ++ trace chk)
    else (inr tt, s1, trace turns).
Proof.
  intros turns c s1 chk. unfold run_cycle. rewrite run_bind_gets. fold turns.
  destruct (total_run _ s (total_for_each _ detected
              (total_handle_mac handle hmac clock (db s)))) as [[] Hturns].
  fold turns in Hturns. rewrite (run_bind_ok _ _ _ _ _ _ Hturns). cbv beta.
  unfold set_counter. run_step. fold c. fold s1.
  change (status_check_counter s1) with c.
  destruct (STATUS_CHECK_INTERVAL <=? c)%nat.
  - destruct (total_run _ s1 (total_check_status_changes handle hmac)) as [[] Hcheck].
    fold chk in Hcheck. rewrite (run_bind_ok _ _ _ _ _ _ Hcheck). run_proj.
    by rewrite app_nil_r.
  - run_proj. by rewrite app_nil_r.
Qed.

Lemma turns_inv (I : lstate → Prop) known detected s :
  (∀ x s', x ∈ detected → I s' →
           I (final (handle_mac handle hmac clock known x s'))) →
  I s → I (final (for_each (handle_mac handle hmac clock known) detected s)).
Proof. apply for_each_final_inv. Qed.

Lemma run_cycle_registry detected s :
  let turns := for_each (handle_mac handle hmac clock (db s)) detected s in
  db (final (run_cycle handle hmac clock detected s)) = db (final turns) ∧
  clock_reads (final (run_cycle handle hmac clock detected s)) = clock_reads (final turns).
Proof.
  intros turns. rewrite run_cycle_eq. fold turns. cbv zeta.
  destruct (_ <=? _)%nat; run_proj; [|done].
  unfold check_status_changes. rewrite run_bind_gets. cbv beta.
  destruct (negb _); [done|]. by rewrite run_lift.
Qed.

(** X2. A cycle of the main loop (one iteration with a non-empty scan)
    leaves the row of every MAC that was not scanned exactly as it was; a
    MAC without a row that was not scanned still has none. *)
Theorem cycle_leaves_unscanned_rows detected s mac :
  mac ∉ detected →
  db (final (run_cycle handle hmac clock detected s)) !! mac = db s !! mac.
Proof.
  intros Hmac. destruct (run_cycle_registry detected s) as [-> _].
  apply (turns_inv (λ s', db s' !! mac = db s !! mac)); [|done].
  intros x s' Hx Hs'.
  destruct (handle_mac_row (db s) x s') as (r' & -> & _).
  rewrite lookup_insert_ne; [done|]. by intros ->.
Qed.

(** X3. A cycle of the main loop deletes no row: a row present at the start
    is present at the end, with the same first_seen and the same comment. *)
Theorem cycle_keeps_history detected s mac r :
  db s !! mac = Some r →
  ∃ r', db (final (run_cycle handle hmac clock detected s)) !! mac = Some r' ∧
        first_seen r' = first_seen r ∧ comment r' = comment r.
Proof.
  intros Hr. destruct (run_cycle_registry detected s) as [-> _].
  apply (turns_inv (λ s', ∃ r', db s' !! mac = Some r' ∧
                           first_seen r' = first_seen r ∧ comment r' = comment r));
    [|by exists r].
  intros x s' _ (r1 & Hr1 & Hf & Hc).
  destruct (handle_mac_row (db s) x s') as (r' & -> & _ & _ & _ & _ & Hh).
  destruct (decide (mac = x)) as [->|Hne].
  - exists r'. rewrite lookup_insert_eq. destruct (Hh _ Hr1) as [-> ->]. done.
  - exists r1. by rewrite lookup_insert_ne.
Qed.

(** X4. Every scanned MAC ends the cycle with a row whose status is the one
    read at the start of the cycle (quarantine when there was no row or no
    status) and whose last_seen is a reading of the clock taken during the
    cycle. *)
Theorem cycle_refreshes_last_seen detected s mac :
  mac ∈ detected →
  let s' := final (run_cycle handle hmac clock detected s) in
  ∃ r' n, db s' !! mac = Some r' ∧
          status r' = Some (default Quarantine (status_of (db s) mac)) ∧
          (clock_reads s ≤ n < clock_reads s')%nat ∧
          last_seen r' = clock n.
Proof.
  intros Hin. cbv zeta. destruct (run_cycle_registry detected s) as [-> ->].
  apply list_elem_of_split in Hin as (l1 & l2 & ->).
  destruct (for_each_around (handle_mac handle hmac clock (db s)) l1 mac l2 s
              (total_handle_mac handle hmac clock (db s))) as [_ ->].
  set (s1 := final (for_each (handle_mac handle hmac clock (db s)) l1 s)).
  assert (clock_reads s ≤ clock_reads s1)%nat as H1.
  { apply (turns_inv (λ s', clock_reads s ≤ clock_reads s')%nat); [|done].
    intros x s' _ Hs'. destruct (handle_mac_row (db s) x s') as (r' & _ & _ & _ & Hck & _).
    lia. }
  apply (turns_inv (λ s', ∃ r' n, db s' !! mac = Some r' ∧
            status r' = Some (default Quarantine (status_of (db s) mac)) ∧
            (clock_reads s ≤ n < clock_reads s')%nat ∧ last_seen r' = clock n)).
  - intros x s' _ (r1 & n & Hr1 & Hst & Hn & Hls).
    destruct (handle_mac_row (db s) x s') as (r' & -> & Hst' & Hls' & Hck & _).
    destruct (decide (mac = x)) as [<-|Hne].
    + exists r', (clock_reads (final (handle_mac handle hmac clock (db s) mac s')) - 1)%nat.
      rewrite lookup_insert_eq. repeat split; try done; lia.
    + exists r1, n. rewrite lookup_insert_ne by done. repeat split; try done; lia.
  - destruct (handle_mac_row (db s) mac s1) as (r' & -> & Hst' & Hls' & Hck & _).
    exists r', (clock_reads (final (handle_mac handle hmac clock (db s) mac s1)) - 1)%nat.
    rewrite lookup_insert_eq. repeat split; try done; lia.
Qed.

(** X5. In a cycle the counter of non-empty scans is incremented after the
    turns of the scanned MACs. When it reaches STATUS_CHECK_INTERVAL the
    drift check runs right after those turns, on the state they left, and
    the counter is reset to 0; otherwise no drift check runs: the events and
    the client state of the cycle are those of the turns, and the counter
    keeps the incremented value. *)
Theorem drift_check_every_third_cycle detected s :
  let run := run_cycle handle hmac clock detected s in
  let turns := for_each (handle_mac handle hmac clock (db s)) detected s in
  let c := (status_check_counter s + 1)%nat in
  let s1 := mkL (fbx (final turns)) (db (final turns)) (clock_reads (final turns)) c in
  if (STATUS_CHECK_INTERVAL <=? c)%nat then
    status_check_counter (final run) = 0%nat ∧
    trace run = trace turns ++ trace (check_status_changes handle hmac s1)
  else
    status_check_counter (final run) = c ∧ trace run = trace turns ∧
    fbx (final run) = fbx (final turns).
Proof.
  intros run turns c s1. subst run. rewrite run_cycle_eq. fold turns.
  assert (status_check_counter (final turns) = status_check_counter s) as ->.
  { apply (turns_inv (λ s', status_check_counter s' = status_check_counter s)); [|done].
    intros x s' _ Hs'.
    destruct (handle_mac_row (db s) x s') as (r' & _ & _ & _ & _ & -> & _). done. }
  fold c. fold s1. by destruct (_ <=? _)%nat.
Qed.

End CycleRegistry.

(** ** Which operation a cycle applies to which MAC *)

Section CycleEnforcement.
Context {W : Type}.
Variable handle : W → request → W * reply.
Variable hmac : string → string → string.
Variable clock : nat → Z.
Implicit Types s : @lstate W.

Lemma enters_tag (L : list tag) e o m :
  tag_of e ∈ L → enters e o m → TEnforce o m ∈ L ∨ TCall o m ∈ L.
Proof. intros He [-> | ->]; [by left|by right]. Qed.

Lemma block_mac_enters mac :
  emits (λ e, ∀ o m, enters e o m → m = mac ∧ o = Block) (block_mac handle hmac mac).
Proof.
  apply (shaped_emits _ _ _ (shaped_block_mac handle hmac mac)).
  intros e He o m Hen. destruct (enters_tag _ _ _ _ He Hen) as [H|H];
    unfold block_mac_tags, block_tags, devices_tags, session_tags, handshake_tags in H;
    set_solver.
Qed.

Lemma allow_mac_enters mac :
  emits (λ e, ∀ o m, enters e o m → m = mac ∧ o = Allow) (allow_mac handle hmac mac).
Proof.
  apply (shaped_emits _ _ _ (shaped_allow_mac handle hmac mac)).
  intros e He o m Hen. destruct (enters_tag _ _ _ _ He Hen) as [H|H];
    unfold allow_mac_tags, allow_tags, session_tags, handshake_tags in H;
    set_solver.
Qed.

Lemma no_enters (L : list tag) {St A} (m : M St A) (P : event → op → string → Prop) :
  shaped L m → (∀ o x, (TEnforce o x ∉ L) ∧ (TCall o x ∉ L)) →
  emits (λ e, ∀ o x, enters e o x → P e o x) m.
Proof.
  intros Hm HL. apply (shaped_emits _ _ _ Hm).
  intros e He o x Hen. destruct (HL o x) as [H1 H2].
  by destruct (enters_tag _ _ _ _ He Hen).
Qed.

Lemma handle_mac_enters known x :
  emits (λ e, ∀ o m, enters e o m →
                m = x ∧ (o = Allow ↔ status_of known x = Some Authorized))
        (handle_mac handle hmac clock known x).
Proof.
  destruct (handle_mac_cases handle hmac clock known x) as [[Hst ->]|(st & Hst & ->)].
  - split_binds.
    + apply emits_update_mac_status. by intros o m [|].
    + apply emits_lift. eapply emits_mono; [apply block_mac_enters|].
      intros e He o m Hen. destruct (He o m Hen) as [-> ->]. by rewrite Hst.
    + apply emits_lift. intros g.
      destruct (run_send_slack_alert handle hmac x Quarantine g) as (host & ->).
      apply Forall_app. split.
      * apply (no_enters devices_tags _ _ (shaped_get_device_hostname handle hmac x)).
        intros o m. unfold devices_tags, session_tags, handshake_tags. set_solver.
      * apply Forall_singleton. by intros o m [|].
    + by apply emits_silent, silent_ret.
  - apply emits_bind; [|intros ?; apply emits_update_mac_status; by intros o m [|]].
    apply emits_lift. destruct st; simpl.
    + eapply emits_mono; [apply allow_mac_enters|].
      intros e He o m Hen. destruct (He o m Hen) as [-> ->]. by rewrite Hst.
    + eapply emits_mono; [apply block_mac_enters|].
      intros e He o m Hen. destruct (He o m Hen) as [-> ->]. by rewrite Hst.
    + eapply emits_mono; [apply block_mac_enters|].
      intros e He o m Hen. destruct (He o m Hen) as [-> ->]. by rewrite Hst.
Qed.

Lemma check_device_enters states x db_status :
  emits (λ e, ∀ o m, enters e o m →
                m = x ∧ (o = Allow ↔ db_status = Some Authorized))
        (check_device handle hmac states (x, db_status)).
Proof.
  unfold check_device.
  destruct (states !! x) as [current_access|]; [|by apply emits_silent, silent_ret].
  destruct db_status as [st|]; [|by apply emits_silent, silent_ret].
  destruct (negb _); [|by apply emits_silent, silent_ret].
  destruct (banned_or_quarantine st && PyJson.truthy current_access) eqn:Hb.
  { apply andb_true_iff in Hb as [Hb _].
    split_binds; [apply emits_emit; by intros o m [|]| |by apply emits_silent, silent_ret].
    apply (shaped_emits _ _ _ (shaped_block_device_by_mac handle hmac x)).
    intros e He o m Hen. destruct (enters_tag _ _ _ _ He Hen) as [H|H];
      unfold block_tags, session_tags, handshake_tags in H;
      (assert (m = x ∧ o = Block) as [-> ->] by set_solver);
      (split; [done|]); by destruct st. }
  destruct (negb (banned_or_quarantine st) && negb (PyJson.truthy current_access)) eqn:Ha;
    [|by apply emits_silent, silent_ret].
  apply andb_true_iff in Ha as [Ha _].
  split_binds; [apply emits_emit; by intros o m [|]| |by apply emits_silent, silent_ret].
  apply (shaped_emits _ _ _ (shaped_allow_device_by_mac handle hmac x)).
  intros e He o m Hen. destruct (enters_tag _ _ _ _ He Hen) as [H|H];
    unfold allow_tags, session_tags, handshake_tags in H;
    (assert (m = x ∧ o = Allow) as [-> ->] by set_solver);
    (split; [done|]); by destruct st.
Qed.

Lemma check_status_changes_enters :
  ∀ s, Forall (λ e, ∀ o m, enters e o m →
                      (o = Allow ↔ status_of (db s) m = Some Authorized))
         (trace (check_status_changes handle hmac s)).
Proof.
  intros s. unfold check_status_changes. rewrite run_bind_gets. cbv beta.
  destruct (negb _); [by constructor|]. rewrite run_lift. run_proj.
  revert s. intros s.
  apply (emits_try (λ e, ∀ o m, enters e o m →
                      (o = Allow ↔ status_of (db s) m = Some Authorized)));
    [|intros e; apply emits_emit; by intros o m [|]].
  apply emits_bind.
  { apply (no_enters devices_tags _ _ (shaped_get_network_devices handle hmac)).
    intros o m. unfold devices_tags, session_tags, handshake_tags. set_solver. }
  intros devices. destruct (negb _); [by apply emits_silent, silent_ret|].
  apply emits_bind; [by apply emits_silent, silent_pure|]. intros states.
  apply emits_for_each. intros [x db_status] Hx.
  eapply emits_mono; [apply check_device_enters|].
  intros e He o m Hen. destruct (He o m Hen) as [-> Hiff]. rewrite Hiff.
  unfold db_devices_of in Hx. apply list_elem_of_fmap in Hx as ([k r] & [= -> ->] & Hkr).
  apply elem_of_map_to_list in Hkr. unfold status_of. by rewrite Hkr.
Qed.

(** X6. Whenever a cycle enters an enforcement operation for a MAC
    (block_mac or allow_mac in the turn of that MAC, block_device_by_mac or
    allow_device_by_mac there or in the drift check), the operation is the
    one that the status read at the start of the cycle calls for: allow
    exactly when the status was authorized, block otherwise (banned,
    quarantine, no row or no status). *)
Theorem enforcement_follows_status detected s e o mac :
  e ∈ trace (run_cycle handle hmac clock detected s) →
  e = EvEnforce o mac ∨ e = EvCall o mac →
  (o = Allow ↔ status_of (db s) mac = Some Authorized).
Proof.
  intros Hin Hen. rewrite run_cycle_eq in Hin. cbv zeta in Hin.
  set (turns := for_each (handle_mac handle hmac clock (db s)) detected s) in *.
  assert (e ∈ trace turns →
          o = Allow ↔ status_of (db s) mac = Some Authorized) as Hturns.
  { intros He.
    assert (emits (λ e, ∀ o m, enters e o m →
                      (o = Allow ↔ status_of (db s) m = Some Authorized))
              (for_each (handle_mac handle hmac clock (db s)) detected)) as Hem.
    { apply emits_for_each. intros x _.
      eapply emits_mono; [apply handle_mac_enters|].
      intros e' He' o' m' Hen'. by destruct (He' o' m' Hen') as [-> ?]. }
    specialize (Hem s). rewrite Forall_forall in Hem. by apply (Hem e He o mac). }
  destruct (_ <=? _)%nat; run_proj; [|by apply Hturns].
  apply elem_of_app in Hin as [Hin|Hin]; [by apply Hturns|].
  pose proof (check_status_changes_enters
    (mkL (fbx (final turns)) (db (final turns)) (clock_reads (final turns))
         (status_check_counter (final turns) + 1))) as Hchk.
  rewrite Forall_forall in Hchk. rewrite (Hchk e Hin o mac Hen). simpl db.
  assert (status_of (db (final turns)) mac = status_of (db s) mac ∨
          (status_of (db s) mac = None ∧
           status_of (db (final turns)) mac = Some Quarantine)) as [->|[-> ->]];
    [|done|done].
  apply (for_each_final_inv
           (λ s', status_of (db s') mac = status_of (db s) mac ∨
                  (status_of (db s) mac = None ∧
                   status_of (db s') mac = Some Quarantine))); [|by left].
  intros x s' _ Hs'. rewrite status_handle_mac.
  destruct (decide (mac = x)) as [->|_]; [|apply Hs'].
  destruct (status_of (db s) x); [by left|by right].
Qed.

End CycleEnforcement.

(** ** What the operations never change in the client *)

#[global] Instance client_stable_refl {W} : Reflexive (@client_stable W).
Proof. by intros g. Qed.

#[global] Instance client_stable_trans {W} : Transitive (@client_stable W).
Proof. intros g1 g2 g3 [H1 H2] [H3 H4]. split; [congruence|auto]. Qed.

#[global] Instance loop_stable_refl {W} : Reflexive (@loop_stable W).
Proof. intros s. unfold loop_stable. reflexivity. Qed.

#[global] Instance loop_stable_trans {W} : Transitive (@loop_stable W).
Proof. intros s1 s2 s3. unfold loop_stable. intros. by etrans. Qed.

Create HintDb frame.

Ltac frame_step :=
  lazymatch goal with
  | |- keeps _ (mret _) => apply keeps_same; [apply _|intros ?; reflexivity]
  | |- keeps _ (gets _) => apply keeps_same; [apply _|intros ?; reflexivity]
  | |- keeps _ (pure _) => apply keeps_same; [apply _|intros ?; reflexivity]
  | |- keeps _ (emit _) => apply keeps_same; [apply _|intros ?; reflexivity]
  | |- keeps _ (raise _) => apply keeps_same; [apply _|intros ?; reflexivity]
  | |- keeps _ (try_catch _ _) => apply keeps_try; [apply _| |intros ?]
  | |- keeps _ (mbind _ _) => apply keeps_bind; [apply _| |intros ?]
  | |- keeps _ (if ?b then _ else _) => destruct b
  | |- _ => solve [auto with frame nocore]
  end.

Section ClientFrame.
Context {W : Type}.
Variable handle : W → request → W * reply.
Variable hmac : string → string → string.

Lemma stable_http r : keeps client_stable (http handle r).
Proof. intros s. unfold http. by destruct (handle (gw s) r) as [w' [e|code body]]. Qed.

Lemma stable_http_auth tok mk : keeps client_stable (http_auth handle tok mk).
Proof.
  unfold http_auth. destruct tok; try (by apply keeps_same). apply stable_http.
Qed.

Lemma stable_set_session_token t : keeps client_stable (@set_session_token W t).
Proof. by intros s. Qed.

Lemma stable_disconnect : keeps client_stable (@set_connected W false).
Proof. by intros s. Qed.

#[local] Hint Extern 0 (keeps _ (http _ _)) => apply stable_http : frame.
#[local] Hint Extern 0 (keeps _ (http_auth _ _ _)) => apply stable_http_auth : frame.
#[local] Hint Extern 0 (keeps _ (set_session_token _)) =>
  apply stable_set_session_token : frame.
#[local] Hint Extern 0 (keeps _ (set_connected false)) => apply stable_disconnect : frame.

Lemma stable_get_new_session_token :
  keeps client_stable (get_new_session_token handle hmac).
Proof.
  unfold get_new_session_token, save_session_token_to_file. repeat frame_step.
Qed.

Lemma stable_is_session_valid : keeps client_stable (is_session_valid handle).
Proof. unfold is_session_valid. repeat frame_step. Qed.

#[local] Hint Extern 0 (keeps _ (get_new_session_token _ _)) =>
  apply stable_get_new_session_token : frame.
#[local] Hint Extern 0 (keeps _ (is_session_valid _)) =>
  apply stable_is_session_valid : frame.

Lemma stable_ensure_valid_session :
  keeps client_stable (ensure_valid_session handle hmac).
Proof. unfold ensure_valid_session. repeat frame_step. Qed.

#[local] Hint Extern 0 (keeps _ (ensure_valid_session _ _)) =>
  apply stable_ensure_valid_session : frame.

Lemma stable_get_network_devices :
  keeps client_stable (get_network_devices handle hmac).
Proof. unfold get_network_devices. repeat frame_step. Qed.

Lemma stable_block_device_by_mac mac :
  keeps client_stable (block_device_by_mac handle hmac mac).
Proof. unfold block_device_by_mac. repeat frame_step. Qed.

Lemma stable_allow_device_by_mac mac :
  keeps client_stable (allow_device_by_mac handle hmac mac).
Proof. unfold allow_device_by_mac. repeat frame_step. Qed.

#[local] Hint Extern 0 (keeps _ (get_network_devices _ _)) =>
  apply stable_get_network_devices : frame.
#[local] Hint Extern 0 (keeps _ (block_device_by_mac _ _ _)) =>
  apply stable_block_device_by_mac : frame.
#[local] Hint Extern 0 (keeps _ (allow_device_by_mac _ _ _)) =>
  apply stable_allow_device_by_mac : frame.

Lemma stable_get_device_hostname mac :
  keeps client_stable (get_device_hostname handle hmac mac).
Proof. unfold get_device_hostname. repeat frame_step. Qed.

#[local] Hint Extern 0 (keeps _ (get_device_hostname _ _ _)) =>
  apply stable_get_device_hostname : frame.

Lemma stable_block_mac mac : keeps client_stable (block_mac handle hmac mac).
Proof. unfold block_mac, send_blocking_alert. repeat frame_step. Qed.

Lemma stable_allow_mac mac : keeps client_stable (allow_mac handle hmac mac).
Proof. unfold allow_mac. repeat frame_step. Qed.

Lemma stable_send_slack_alert mac st :
  keeps client_stable (send_slack_alert handle hmac mac st).
Proof. unfold send_slack_alert. repeat frame_step. Qed.

Lemma stable_check_device states entry :
  keeps client_stable (check_device handle hmac states entry).
Proof.
  unfold check_device. destruct entry as [mac db_status].
  destruct (states !! mac); [|by apply keeps_same].
  destruct db_status; [|by apply keeps_same].
  repeat frame_step.
Qed.

Variable clock : nat → Z.

Lemma stable_lift {A} (m : M (@gstate W) A) :
  keeps client_stable m → keeps loop_stable (lift m).
Proof. intros Hm s. unfold loop_stable. rewrite run_lift. apply Hm. Qed.

Lemma stable_update_mac_status mac st :
  keeps loop_stable (update_mac_status (W:=W) clock mac st).
Proof.
  intros s. rewrite update_mac_status_run. unfold loop_stable.
  by destruct (db s !! mac).
Qed.

Lemma stable_handle_mac known mac :
  keeps loop_stable (handle_mac handle hmac clock known mac).
Proof.
  destruct (handle_mac_cases handle hmac clock known mac) as [[_ ->]|(st & _ & ->)].
  - apply keeps_bind; [apply _| |intros ?; by apply keeps_same].
    apply keeps_bind; [apply _|apply stable_update_mac_status|intros ?].
    apply keeps_bind; [apply _| |intros ?];
      apply stable_lift; [apply stable_block_mac|apply stable_send_slack_alert].
  - apply keeps_bind; [apply _| |intros ?; apply stable_update_mac_status].
    apply stable_lift. destruct (banned_or_quarantine st);
      [apply stable_block_mac|apply stable_allow_mac].
Qed.

Lemma stable_check_status_changes :
  keeps loop_stable (check_status_changes handle hmac).
Proof.
  unfold check_status_changes. apply keeps_bind; [apply _|by apply keeps_same|].
  intros s0. destruct (negb _); [by apply keeps_same|].
  apply stable_lift.
  apply keeps_try; [apply _| |intros ?; by apply keeps_same].
  apply keeps_bind; [apply _|apply stable_get_network_devices|]. intros devices.
  destruct (negb _); [by apply keeps_same|].
  apply keeps_bind; [apply _|by apply keeps_same|]. intros states.
  apply keeps_for_each; [apply _|apply _|]. intros entry. apply stable_check_device.
Qed.

(** X7. block_device_by_mac, allow_device_by_mac, get_network_devices and a
    whole cycle of the main loop never change the app token and never
    connect a client that was not connected: the client is connected
    afterwards only if it was before. A client that has been marked as not
    connected therefore stays so for the rest of the loop. *)
Theorem loop_never_reconnects :
  (∀ mac, keeps client_stable (block_device_by_mac handle hmac mac)) ∧
  (∀ mac, keeps client_stable (allow_device_by_mac handle hmac mac)) ∧
  keeps client_stable (get_network_devices handle hmac) ∧
  (∀ detected, keeps loop_stable (run_cycle handle hmac clock detected)).
Proof.
  split; [apply stable_block_device_by_mac|].
  split; [apply stable_allow_device_by_mac|].
  split; [apply stable_get_network_devices|].
  intros detected. unfold run_cycle.
  apply keeps_bind; [apply _|by apply keeps_same|]. intros known.
  apply keeps_bind; [apply _| |intros ?].
  { apply keeps_for_each; [apply _|apply _|]. intros x. apply stable_handle_mac. }
  apply keeps_bind; [apply _|by apply keeps_same|]. intros c.
  apply keeps_bind; [apply _|by intros ?|]. intros ?.
  apply keeps_bind; [apply _|by apply keeps_same|]. intros c'.
  destruct (_ <=? _)%nat; [|by apply keeps_same].
  apply keeps_bind; [apply _|apply stable_check_status_changes|]. by intros ? ?.
Qed.

End ClientFrame.

(** ** A client that is not connected *)

Lemma for_each_inv_emits {St A} (I : St → Prop) (P : event → Prop)
    (f : A → M St unit) l s :
  (∀ x s', x ∈ l → I s' → I (final (f x s')) ∧ Forall P (trace (f x s'))) →
  I s → I (final (for_each f l s)) ∧ Forall P (trace (for_each f l s)).
Proof.
  revert s. induction l as [|x l IH]; intros s Hf Hs; simpl; [by split|].
  rewrite final_bind, trace_bind.
  destruct (Hf x s) as [Hx Htx]; [left|done|].
  destruct (result (f x s)) as [e|[]]; [done|].
  destruct (IH (final (f x s))) as [Hl Htl]; [|done|].
  { intros y s' Hy. apply Hf. by right. }
  split; [done|]. by apply Forall_app.
Qed.

Section Disconnected.
Context {W : Type}.
Variable handle : W → request → W * reply.
Variable hmac : string → string → string.
Variable clock : nat → Z.

Lemma block_device_by_mac_disconnected mac (g : @gstate W) :
  connected (api g) = false →
  block_device_by_mac handle hmac mac g = (inr false, g, [EvCall Block mac]).
Proof.
  intros Hc. unfold block_device_by_mac. rewrite run_bind_emit. run_step.
  by rewrite Hc.
Qed.

Lemma allow_device_by_mac_disconnected mac (g : @gstate W) :
  connected (api g) = false →
  allow_device_by_mac handle hmac mac g = (inr false, g, [EvCall Allow mac]).
Proof.
  intros Hc. unfold allow_device_by_mac. rewrite run_bind_emit. run_step.
  by rewrite Hc.
Qed.

Lemma get_network_devices_disconnected (g : @gstate W) :
  connected (api g) = false →
  get_network_devices handle hmac g = (inr (JList []), g, []).
Proof. intros Hc. unfold get_network_devices. run_step. by rewrite Hc. Qed.

Lemma block_mac_disconnected mac (g : @gstate W) :
  connected (api g) = false →
  block_mac handle hmac mac g = (inr tt, g, [EvEnforce Block mac]).
Proof. intros Hc. unfold block_mac. rewrite run_bind_emit. run_step. by rewrite Hc. Qed.

Lemma allow_mac_disconnected mac (g : @gstate W) :
  connected (api g) = false →
  allow_mac handle hmac mac g = (inr tt, g, [EvEnforce Allow mac]).
Proof. intros Hc. unfold allow_mac. rewrite run_bind_emit. run_step. by rewrite Hc. Qed.

Lemma send_slack_alert_disconnected mac st (g : @gstate W) :
  connected (api g) = false →
  send_slack_alert handle hmac mac st g =
    (inr tt, g, [EvNewDeviceAlert mac st unknown_device]).
Proof.
  intros Hc. unfold send_slack_alert, get_device_hostname. run_step. by rewrite Hc.
Qed.

Lemma check_status_changes_disconnected (s : @lstate W) :
  connected (api (fbx s)) = false →
  check_status_changes handle hmac s = (inr tt, s, []).
Proof.
  intros Hc. unfold check_status_changes. rewrite run_bind_gets. cbv beta.
  unfold id. by rewrite Hc.
Qed.

Lemma handle_mac_disconnected known mac (s : @lstate W) :
  connected (api (fbx s)) = false →
  fbx (final (handle_mac handle hmac clock known mac s)) = fbx s ∧
  Forall local_event (trace (handle_mac handle hmac clock known mac s)).
Proof.
  intros Hc.
  assert (∀ st (s0 : @lstate W),
            fbx (final (update_mac_status clock mac st s0)) = fbx s0) as Hup.
  { intros st s0. rewrite update_mac_status_run. by destruct (db s0 !! mac). }
  destruct (handle_mac_cases handle hmac clock known mac) as [[_ ->]|(st & _ & ->)].
  - destruct (total_run _ s (total_update_mac_status clock mac Quarantine)) as [[] Hu].
    rewrite trace_update_mac_status in Hu.
    set (s1 := final (update_mac_status clock mac Quarantine s)) in *.
    assert (fbx s1 = fbx s) as H1 by apply Hup.
    rewrite !run_bind_assoc. rewrite (run_bind_ok _ _ _ _ _ _ Hu). cbv beta.
    rewrite !run_bind_assoc.
    assert (connected (api (fbx s1)) = false) as Hc1 by by rewrite H1.
    erewrite (run_bind_ok (lift (block_mac handle hmac mac)));
      [|by rewrite run_lift, (block_mac_disconnected _ _ Hc1)].
    cbv beta.
    erewrite (run_bind_ok (lift (send_slack_alert handle hmac mac Quarantine)));
      [|by rewrite run_lift; simpl; rewrite (send_slack_alert_disconnected _ _ _ Hc1)].
    run_proj. split; [done|]. by repeat constructor.
  - set (b := banned_or_quarantine st).
    assert (lift (if b then block_mac handle hmac mac else allow_mac handle hmac mac) s =
            (inr tt, s, [EvEnforce (if b then Block else Allow) mac])) as Hl.
    { rewrite run_lift. destruct b.
      - rewrite (block_mac_disconnected _ _ Hc). by destruct s.
      - rewrite (allow_mac_disconnected _ _ Hc). by destruct s. }
    rewrite (run_bind_ok _ _ _ _ _ _ Hl). run_proj.
    rewrite trace_update_mac_status. split; [apply Hup|]. by repeat constructor.
Qed.

(** X8. When the client is not connected, a cycle ends normally and leaves
    the client and the gateway untouched: all it does is write the registry,
    enter block_mac and allow_mac (which then do nothing), and send new-
    device alerts that carry the placeholder host name. *)
Theorem disconnected_cycle_is_local detected (s : @lstate W) :
  connected (api (fbx s)) = false →
  let run := run_cycle handle hmac clock detected s in
  result run = inr tt ∧ fbx (final run) = fbx s ∧ Forall local_event (trace run).
Proof.
  intros Hc run. subst run. rewrite run_cycle_eq. cbv zeta.
  set (turns := for_each (handle_mac handle hmac clock (db s)) detected s).
  destruct (for_each_inv_emits (λ s', fbx s' = fbx s) local_event
              (handle_mac handle hmac clock (db s)) detected s) as [Hf Ht]; [|done|].
  { intros x s' _ Hs'. destruct (handle_mac_disconnected (db s) x s') as [H1 H2].
    - by rewrite Hs'.
    - split; [congruence|done]. }
  fold turns in Hf, Ht.
  destruct (_ <=? _)%nat; run_proj; [|done].
  rewrite check_status_changes_disconnected by (simpl; by rewrite Hf).
  run_proj. by rewrite app_nil_r.
Qed.

(** X9. When ensure_valid_session returns False for a client that holds a
    session token (the probe was refused and the handshake did not succeed),
    the client is marked as not connected; in that state block_device_by_mac
    and allow_device_by_mac return False and get_network_devices returns the
    empty list, each without sending a request or changing the client. *)
Theorem failed_renewal_disconnects (g : @gstate W) :
  PyJson.truthy (session_token (api g)) = true →
  result (ensure_valid_session handle hmac g) = inr false →
  let g' := final (ensure_valid_session handle hmac g) in
  connected (api g') = false ∧
  ∀ mac,
    block_device_by_mac handle hmac mac g' = (inr false, g', [EvCall Block mac]) ∧
    allow_device_by_mac handle hmac mac g' = (inr false, g', [EvCall Allow mac]) ∧
    get_network_devices handle hmac g' = (inr (JList []), g', []).
Proof.
  intros Htok Hres g'.
  assert (connected (api g') = false) as Hc.
  { subst g'. revert Hres. unfold ensure_valid_session. run_step. rewrite Htok.
    cbn [negb]. rewrite result_bind, final_bind.
    destruct (result (is_session_valid handle g)) as [e|[|]]; [done|done|].
    rewrite result_bind, final_bind.
    destruct (result (get_new_session_token handle hmac _)) as [e|[|]]; [done|done|].
    unfold set_connected. run_step. done. }
  split; [done|]. intros mac.
  by rewrite block_device_by_mac_disconnected, allow_device_by_mac_disconnected,
    get_network_devices_disconnected.
Qed.

End Disconnected.

(** ** The handshake and the probe *)

Section Session.
Context {W : Type}.
Variable handle : W → request → W * reply.
Variable hmac : string → string → string.

(** X10. Whenever get_new_session_token returns True, the app token is a
    string, the challenge request was answered with a body whose result
    holds a string challenge, the session request carried the HMAC of that
    challenge under the app token, and the new session token is the
    session_token in the result of the second answer; the run consists of
    exactly these two requests followed by the write-back of the token, and
    leaves the app token and the connected flag unchanged. *)
Theorem handshake_signs_the_challenge (g : @gstate W) :
  result (get_new_session_token handle hmac g) = inr true →
  ∃ key challenge tok w1 w2 code1 res1 r1 code2 res2 r2,
    app_token (api g) = JStr key ∧
    handle (gw g) GET_login = (w1, Response code1 (Some res1)) ∧
    PyJson.item res1 "result" = inr r1 ∧
    PyJson.item r1 "challenge" = inr (JStr challenge) ∧
    handle w1 (POST_login_session app_id (hmac key challenge)) =
      (w2, Response code2 (Some res2)) ∧
    PyJson.item res2 "result" = inr r2 ∧
    PyJson.item r2 "session_token" = inr tok ∧
    get_new_session_token handle hmac g =
      (inr true, mkG (mkApi tok (app_token (api g)) (connected (api g))) w2,
       [EvHttp GET_login;
        EvHttp (POST_login_session app_id (hmac key challenge));
        EvSaveToken tok]).
Proof.
  unfold get_new_session_token. rewrite run_bind_gets. cbv beta.
  destruct (negb (PyJson.truthy (app_token (api g)))); [done|].
  intros [-> Hres]%try_true. revert Hres.
  destruct (handle (gw g) GET_login) as [w1 [e|code1 [res1|]]] eqn:H1.
  { by rewrite (run_bind_raise _ _ _ _ _ _ (run_http_raise _ _ _ _ _ H1)). }
  2:{ rewrite (run_bind_ok _ _ _ _ _ _ (run_http _ _ _ _ _ _ H1)).
      rewrite json_of_none. run_proj. by run_step. }
  rewrite (run_bind_ok _ _ _ _ _ _ (run_http _ _ _ _ _ _ H1)).
  rewrite json_of_some. run_proj. run_step.
  destruct (success_of res1) as [e|[|]]; run_step; [done| |done]. cbn [negb].
  destruct (PyJson.item res1 "result") as [e|r1] eqn:Hr1; run_step; [done|].
  destruct (PyJson.item r1 "challenge") as [e|ch] eqn:Hch; run_step; [done|].
  destruct (PyJson.sliceable ch) as [e|[]]; run_step; [done|].
  destruct (PyJson.as_str (app_token (api g))) as [e|key] eqn:Hkey; run_step; [done|].
  destruct (PyJson.as_str ch) as [e|challenge] eqn:Hchs; run_step; [done|].
  assert (app_token (api g) = JStr key) as Hk
    by (destruct (app_token (api g)); by try injection Hkey as ->).
  assert (ch = JStr challenge) as ->
    by (destruct ch; by try injection Hchs as ->).
  destruct (handle w1 (POST_login_session app_id (hmac key challenge)))
    as [w2 [e|code2 [res2|]]] eqn:H2.
  { by rewrite (run_bind_raise _ _ _ _ _ _ (run_http_raise handle _ (mkG (api g) w1) _ _ H2)). }
  2:{ rewrite (run_bind_ok _ _ _ _ _ _ (run_http handle _ (mkG (api g) w1) _ _ _ H2)).
      rewrite json_of_none. run_proj. by run_step. }
  rewrite (run_bind_ok _ _ _ _ _ _ (run_http handle _ (mkG (api g) w1) _ _ _ H2)).
  rewrite json_of_some. run_proj. run_step.
  destruct (success_of res2) as [e|[|]]; run_step; [done| |done].
  destruct (PyJson.item res2 "result") as [e|r2] eqn:Hr2; run_step; [done|].
  destruct (PyJson.item r2 "session_token") as [e|tok] eqn:Htok; run_step; [done|].
  unfold set_session_token. run_step.
  destruct (PyJson.sliceable tok) as [e|[]]; run_step; [done|].
  unfold save_session_token_to_file. run_step. rewrite run_bind_emit. run_proj.
  intros _. exists key, challenge, tok, w1, w2, code1, res1, r1, code2, res2, r2.
  rewrite Hk. done.
Qed.

Ltac fails Hnosave :=
  run_step; run_proj; intros _; (split; [apply Hnosave; set_solver|by left]).

(** A handshake that returns [False] has not recorded a write-back of the
    token, and the session token is the one held before, or was replaced by
    a value that cannot be sliced. *)
Lemma failed_handshake_run (g : @gstate W) :
  result (get_new_session_token handle hmac g) = inr false →
  let run := get_new_session_token handle hmac g in
  (∀ t, EvSaveToken t ∉ trace run) ∧
  (session_token (api (final run)) = session_token (api g) ∨
   PyJson.sliceable (session_token (api (final run))) = inl OtherError).
Proof.
  cbv zeta. unfold get_new_session_token. rewrite run_bind_gets. cbv beta.
  destruct (negb (PyJson.truthy (app_token (api g)))).
  { intros _. split; [intros t Hin; by apply elem_of_nil in Hin|by left]. }
  rewrite run_try_const. run_proj.
  assert (∀ (ev : list event), (∀ e, e ∈ ev → ∃ r, e = EvHttp r) →
          ∀ t, EvSaveToken t ∉ ev) as Hnosave.
  { intros ev Hev t Hin. by destruct (Hev _ Hin). }
  destruct (handle (gw g) GET_login) as [w1 [e|code1 [res1|]]] eqn:H1.
  { rewrite (run_bind_raise _ _ _ _ _ _ (run_http_raise _ _ _ _ _ H1)). run_proj.
    intros _. split; [apply Hnosave; set_solver|by left]. }
  2:{ rewrite (run_bind_ok _ _ _ _ _ _ (run_http _ _ _ _ _ _ H1)).
      rewrite json_of_none. run_proj. run_step. run_proj.
      intros _. split; [apply Hnosave; set_solver|by left]. }
  rewrite (run_bind_ok _ _ _ _ _ _ (run_http _ _ _ _ _ _ H1)).
  rewrite json_of_some. run_proj. run_step.
  destruct (success_of res1) as [e|[|]]; [fails Hnosave| |fails Hnosave].
  run_step. cbn [negb].
  destruct (PyJson.item res1 "result") as [e|r1]; [fails Hnosave|]. run_step.
  destruct (PyJson.item r1 "challenge") as [e|ch]; [fails Hnosave|]. run_step.
  destruct (PyJson.sliceable ch) as [e|[]]; [fails Hnosave|]. run_step.
  destruct (PyJson.as_str (app_token (api g))) as [e|key]; [fails Hnosave|]. run_step.
  destruct (PyJson.as_str ch) as [e|challenge]; [fails Hnosave|]. run_step.
  destruct (handle w1 (POST_login_session app_id (hmac key challenge)))
    as [w2 [e|code2 [res2|]]] eqn:H2.
  { rewrite (run_bind_raise _ _ _ _ _ _ (run_http_raise handle _ (mkG (api g) w1) _ _ H2)).
    fails Hnosave. }
  2:{ rewrite (run_bind_ok _ _ _ _ _ _ (run_http handle _ (mkG (api g) w1) _ _ _ H2)).
      rewrite json_of_none. fails Hnosave. }
  rewrite (run_bind_ok _ _ _ _ _ _ (run_http handle _ (mkG (api g) w1) _ _ _ H2)).
  rewrite json_of_some. run_proj. run_step.
  destruct (success_of res2) as [e|[|]]; [fails Hnosave| |fails Hnosave]. run_step.
  destruct (PyJson.item res2 "result") as [e|r2]; [fails Hnosave|]. run_step.
  destruct (PyJson.item r2 "session_token") as [e|tok]; [fails Hnosave|]. run_step.
  unfold set_session_token. run_step.
  destruct (PyJson.sliceable tok) as [e|[]] eqn:Hsl.
  - run_step. run_proj. intros _. split; [apply Hnosave; set_solver|].
    right. simpl. destruct tok; simpl in *; congruence.
  - run_step. unfold save_session_token_to_file. run_step. rewrite run_bind_emit.
    run_proj. done.
Qed.

(** X12. is_session_valid never changes the tokens or the connected flag,
    and it returns True exactly when the session token is a non-empty string
    and the probe request is answered with status 200 and a JSON body whose
    success is truthy. *)
Theorem probe_accepts_exactly (g : @gstate W) :
  api (final (is_session_valid handle g)) = api g ∧
  (result (is_session_valid handle g) = inr true ↔
   ∃ t w' res,
     session_token (api g) = JStr t ∧ t ≠ "" ∧
     handle (gw g) (GET_login_probe t) = (w', Response 200 (Some res)) ∧
     success_of res = inr true).
Proof.
  unfold is_session_valid. rewrite run_bind_gets. cbv beta.
  destruct (session_token (api g)) as [| | |t| |] eqn:Htok;
    try (split; [by destruct (negb _)|];
         split; [by destruct (negb _)|by intros (t & w' & res & [=] & _)]).
  cbn [PyJson.truthy]. destruct (String.eqb_spec t "") as [->|Hne]; cbn [negb].
  { split; [done|]. split; [done|]. by intros (t & w' & res & [= <-] & Ht & _). }
  rewrite run_try_const. run_proj. unfold http_auth.
  destruct (handle (gw g) (GET_login_probe t)) as [w' [e|code [res|]]] eqn:Hp.
  - rewrite (run_bind_raise _ _ _ _ _ _ (run_http_raise _ _ _ _ _ Hp)). run_proj.
    split; [done|]. split; [done|].
    intros (t' & w'' & res & [= <-] & _ & Hh & _). by rewrite Hp in Hh.
  - rewrite (run_bind_ok _ _ _ _ _ _ (run_http _ _ _ _ _ _ Hp)). run_proj.
    destruct (code =? 200)%Z eqn:Hcode.
    + apply Z.eqb_eq in Hcode as ->. rewrite json_of_some. run_step.
      destruct (success_of res) as [e|[|]] eqn:Hok; run_step; run_proj.
      * split; [done|]. split; [done|].
        intros (t' & w'' & res' & [= <-] & _ & Hh & Hok').
        rewrite Hp in Hh. injection Hh as <- <-. congruence.
      * split; [done|]. split; [|done]. intros _. by exists t, w', res.
      * assert (∃ x, PyJson.get res "error_code" (JStr "unknown") = inr x) as [x ->].
        { unfold success_of in Hok. destruct res; try done. by eexists. }
        run_step. run_proj. split; [done|]. split; [done|].
        intros (t' & w'' & res' & [= <-] & _ & Hh & Hok').
        rewrite Hp in Hh. injection Hh as <- <-. congruence.
    + run_proj. split; [done|]. split; [done|].
      intros (t' & w'' & res' & [= <-] & _ & Hh & _).
      rewrite Hp in Hh. injection Hh as _ Hc _. by rewrite Hc in Hcode.
  - rewrite (run_bind_ok _ _ _ _ _ _ (run_http _ _ _ _ _ _ Hp)). run_proj.
    destruct (code =? 200)%Z; [rewrite json_of_none; run_step|]; run_proj;
      (split; [done|]); (split; [done|]);
      intros (t' & w'' & res' & [= <-] & _ & Hh & _); by rewrite Hp in Hh.
Qed.

End Session.

(** ** Exact runs of the enforcement operations *)

Lemma success_of_dict res ok :
  success_of res = inr ok → ∀ k dflt, ∃ x, PyJson.get res k dflt = inr x.
Proof. unfold success_of. destruct res; try done. intros _ k dflt. by eexists. Qed.

Section EnforcementRuns.
Context {W : Type}.
Variable handle : W → request → W * reply.
Variable hmac : string → string → string.

(** X13. With the client connected and the session validated, when the fetch
    of the filter list is answered with a falsy success, block_device_by_mac
    still sends the add request for the upper-cased MAC, and returns True
    when that request is answered with a truthy success and an object as
    result: a fetch that failed is treated like an empty list. *)
Theorem block_adds_despite_failed_fetch mac s s1 ev1 t w2 code res w3 code' res' d :
  connected (api s) = true →
  ensure_valid_session handle hmac s = (inr true, s1, ev1) →
  session_token (api s1) = JStr t →
  handle (gw s1) (GET_mac_filter t) = (w2, Response code (Some res)) →
  success_of res = inr false →
  handle w2 (POST_mac_filter t (Py.upper mac)) = (w3, Response code' (Some res')) →
  success_of res' = inr true →
  PyJson.get res' "result" (JDict []) = inr (JDict d) →
  block_device_by_mac handle hmac mac s =
    (inr true, mkG (api s1) w3,
     EvCall Block mac :: ev1 ++
       [EvHttp (GET_mac_filter t); EvHttp (POST_mac_filter t (Py.upper mac))]).
Proof.
  intros Hconn Hens Htok Hget Hok Hadd Hok' Hres.
  unfold block_device_by_mac. rewrite run_bind_emit. run_step.
  rewrite Hconn. simpl. rewrite (run_bind_ok _ _ _ _ _ _ Hens). simpl.
  run_step. rewrite Htok.
  erewrite run_try_ok; [reflexivity|].
  unfold http_auth. rewrite (run_bind_ok _ _ _ _ _ _ (run_http _ _ _ _ _ _ Hget)).
  rewrite json_of_some. run_proj. run_step. rewrite Hok. run_step.
  rewrite (run_bind_ok _ _ _ _ _ _ (run_http handle _ (mkG (api s1) w2) _ _ _ Hadd)).
  rewrite json_of_some. run_proj. run_step. rewrite Hok'. run_step.
  rewrite Hres. run_step. reflexivity.
Qed.

(** X14. With the client connected and the session validated, when the
    fetched filter list has an entry for the MAC whose id is missing or
    falsy, allow_device_by_mac sends no delete request and returns True,
    although the entry stays in the filter. *)
Theorem allow_skips_entry_without_id mac s s1 ev1 t w2 code res flt fid :
  connected (api s) = true →
  ensure_valid_session handle hmac s = (inr true, s1, ev1) →
  session_token (api s1) = JStr t →
  handle (gw s1) (GET_mac_filter t) = (w2, Response code (Some res)) →
  success_of res = inr true →
  PyJson.get res "result" (JList []) = inr flt →
  filter_has_mac flt (Py.lower mac) = inr true →
  find_filter_id flt (Py.lower mac) = inr fid →
  PyJson.truthy fid = false →
  allow_device_by_mac handle hmac mac s =
    (inr true, mkG (api s1) w2,
     EvCall Allow mac :: ev1 ++ [EvHttp (GET_mac_filter t)]).
Proof.
  intros Hconn Hens Htok Hget Hok Hflt _ Hfid Hfalsy.
  unfold allow_device_by_mac. rewrite run_bind_emit. run_step.
  rewrite Hconn. simpl. rewrite (run_bind_ok _ _ _ _ _ _ Hens). simpl.
  run_step. rewrite Htok.
  erewrite run_try_ok; [reflexivity|].
  unfold http_auth. rewrite (run_bind_ok _ _ _ _ _ _ (run_http _ _ _ _ _ _ Hget)).
  rewrite json_of_some. run_proj. run_step. rewrite Hok. run_step. simpl.
  rewrite Hflt. run_step. rewrite Hfid. run_step. rewrite Hfalsy.
  reflexivity.
Qed.

(** X15. With the client connected and the session validated, when the
    fetched filter list has an entry for the MAC with a truthy id,
    allow_device_by_mac sends exactly one delete request, for the id of the
    first matching entry, and returns the success flag of its answer. *)
Theorem allow_deletes_first_match mac s s1 ev1 t w2 code res flt fid w3 code' res' ok :
  connected (api s) = true →
  ensure_valid_session handle hmac s = (inr true, s1, ev1) →
  session_token (api s1) = JStr t →
  handle (gw s1) (GET_mac_filter t) = (w2, Response code (Some res)) →
  success_of res = inr true →
  PyJson.get res "result" (JList []) = inr flt →
  find_filter_id flt (Py.lower mac) = inr fid →
  PyJson.truthy fid = true →
  handle w2 (DELETE_mac_filter t fid) = (w3, Response code' (Some res')) →
  success_of res' = inr ok →
  allow_device_by_mac handle hmac mac s =
    (inr ok, mkG (api s1) w3,
     EvCall Allow mac :: ev1 ++
       [EvHttp (GET_mac_filter t); EvHttp (DELETE_mac_filter t fid)]).
Proof.
  intros Hconn Hens Htok Hget Hok Hflt Hfid Htruthy Hdel Hok'.
  unfold allow_device_by_mac. rewrite run_bind_emit. run_step.
  rewrite Hconn. simpl. rewrite (run_bind_ok _ _ _ _ _ _ Hens). simpl.
  run_step. rewrite Htok.
  erewrite run_try_ok; [reflexivity|].
  unfold http_auth. rewrite (run_bind_ok _ _ _ _ _ _ (run_http _ _ _ _ _ _ Hget)).
  rewrite json_of_some. run_proj. run_step. rewrite Hok. run_step. simpl.
  rewrite Hflt. run_step. rewrite Hfid. run_step. rewrite Htruthy. cbn [negb].
  rewrite (run_bind_ok _ _ _ _ _ _ (run_http handle _ (mkG (api s1) w2) _ _ _ Hdel)).
  rewrite json_of_some. run_proj. run_step. rewrite Hok'. run_step.
  destruct ok; [reflexivity|].
  destruct (success_of_dict _ _ Hok' "msg" (JStr "Erreur inconnue")) as [x ->].
  destruct (success_of_dict _ _ Hok' "error_code" (JStr "")) as [y ->].
  run_step. reflexivity.
Qed.

(** X16. With the client connected, the session validated and the device
    list fetched with status 200 and a truthy success, get_network_devices
    sends exactly that one request and returns the whole list of the
    gateway, inactive devices included, or the empty list when logging one
    of the first three active devices fails. *)
Theorem get_network_devices_all_or_nothing s s1 ev1 t w2 res devices active :
  connected (api s) = true →
  ensure_valid_session handle hmac s = (inr true, s1, ev1) →
  session_token (api s1) = JStr t →
  handle (gw s1) (GET_lan_browser t) = (w2, Response 200 (Some res)) →
  success_of res = inr true →
  PyJson.get res "result" (JList []) = inr devices →
  connected_devices_of devices = inr active →
  get_network_devices handle hmac s =
    (inr (match debug_lines (take 3 active) with
          | inr _ => devices
          | inl _ => JList []
          end),
     mkG (api s1) w2, ev1 ++ [EvHttp (GET_lan_browser t)]).
Proof.
  intros Hconn Hens Htok Hget Hok Hres Hact.
  unfold get_network_devices. run_step.
  rewrite Hconn. simpl. rewrite (run_bind_ok _ _ _ _ _ _ Hens). simpl.
  run_step. rewrite Htok. rewrite run_try_const.
  unfold http_auth. rewrite (run_bind_ok _ _ _ _ _ _ (run_http _ _ _ _ _ _ Hget)).
  run_proj. rewrite json_of_some. run_step. rewrite Hok. run_step.
  rewrite Hres. run_step. rewrite Hact. run_step.
  destruct (debug_lines (take 3 active)) as [e|[]]; run_step; run_proj;
    by rewrite ?app_nil_r.
Qed.

(** X17. block_mac sends the blocking alert for the MAC exactly once when
    block_device_by_mac returned True, and not at all otherwise. *)
Theorem blocking_alert_iff_blocked mac (g : @gstate W) :
  count_tag (TBlockedAlert mac) (trace (block_mac handle hmac mac g)) =
  match result (block_device_by_mac handle hmac mac g) with
  | inr true => 1%nat
  | _ => 0%nat
  end.
Proof.
  unfold block_mac. rewrite run_bind_emit. run_proj. rewrite count_tag_cons.
  cbn [tag_of]. rewrite decide_False by done. rewrite run_bind_gets. cbv beta.
  destruct (connected (api g)) eqn:Hc.
  2:{ by rewrite (block_device_by_mac_disconnected _ _ _ _ Hc). }
  rewrite run_try_const. run_proj. rewrite trace_bind.
  assert (count_tag (TBlockedAlert mac)
            (trace (block_device_by_mac handle hmac mac g)) = 0%nat) as Hb.
  { apply (count_tag_outside _ (block_tags mac)).
    - unfold block_tags, session_tags, handshake_tags. set_solver.
    - by apply (shaped_emits _ _ _ (shaped_block_device_by_mac handle hmac mac)). }
  destruct (result (block_device_by_mac handle hmac mac g)) as [e|[|]]; [done| |].
  - rewrite count_tag_app, Hb. unfold send_blocking_alert.
    set (g1 := final (block_device_by_mac handle hmac mac g)).
    destruct (total_run _ g1 (total_get_device_hostname handle hmac mac)) as [host Hh].
    rewrite (run_bind_ok _ _ _ _ _ _ Hh). run_proj.
    rewrite count_tag_app.
    rewrite (count_tag_outside _ devices_tags).
    + rewrite count_tag_cons. cbn [tag_of]. by rewrite decide_True.
    + unfold devices_tags, session_tags, handshake_tags. set_solver.
    + by apply (shaped_emits _ _ _ (shaped_get_device_hostname handle hmac mac)).
  - rewrite count_tag_app, Hb. done.
Qed.

End EnforcementRuns.

(** ** The drift check corrects only real mismatches *)

Lemma build_states_keys devices acc states :
  build_states devices acc = inr states →
  (∀ k, is_Some (acc !! k) → Py.lower k = k) →
  ∀ k, is_Some (states !! k) → Py.lower k = k.
Proof.
  revert acc. induction devices as [|device devices IH]; intros acc; simpl.
  { by intros [= <-]. }
  destruct (PyJson.get device "l2ident" (JDict [])) as [e|l2]; simpl; [done|].
  destruct (PyJson.get l2 "id" (JStr "")) as [e|i]; simpl; [done|].
  destruct (PyJson.str_lower i) as [e|mac] eqn:Hmac; simpl; [done|].
  destruct (String.eqb mac ""); [apply IH|].
  destruct (PyJson.get device "access" (JBool true)) as [e|access]; simpl; [done|].
  intros Hb Hacc. apply (IH _ Hb). intros k [x Hk].
  destruct (decide (k = mac)) as [->|Hne].
  - destruct i; try done. injection Hmac as <-. apply lower_idemp.
  - rewrite lookup_insert_ne in Hk by done. by apply Hacc.
Qed.

Section DriftSound.
Context {W : Type}.
Variable handle : W → request → W * reply.
Variable hmac : string → string → string.

Lemma corrects_tag (L : list tag) e o m :
  tag_of e ∈ L → corrects e o m → TDrift o m ∈ L ∨ TCall o m ∈ L.
Proof. intros He [-> | ->]; [by left|by right]. Qed.

Lemma check_device_corrects states x db_status :
  emits (λ e, ∀ o m, corrects e o m →
           m = x ∧ ∃ st access,
             db_status = Some st ∧ states !! x = Some access ∧
             PyJson.eq_bool access (negb (banned_or_quarantine st)) = false ∧
             o = if banned_or_quarantine st then Block else Allow)
        (check_device handle hmac states (x, db_status)).
Proof.
  unfold check_device.
  destruct (states !! x) as [current_access|]; [|by apply emits_silent, silent_ret].
  destruct db_status as [st|]; [|by apply emits_silent, silent_ret].
  destruct (PyJson.eq_bool current_access (negb (banned_or_quarantine st))) eqn:Heq;
    cbn [negb]; [by apply emits_silent, silent_ret|].
  destruct (banned_or_quarantine st && PyJson.truthy current_access) eqn:Hb.
  { apply andb_true_iff in Hb as [Hb _]. rewrite Hb in *.
    split_binds; [apply emits_emit| |by apply emits_silent, silent_ret].
    - intros o m [[= <- <-]|[=]]. split; [done|]. exists st, current_access; by rewrite ?Hb, ?Ha.
    - apply (shaped_emits _ _ _ (shaped_block_device_by_mac handle hmac x)).
      intros e He o m Hc. destruct (corrects_tag _ _ _ _ He Hc) as [H|H];
        unfold block_tags, session_tags, handshake_tags in H;
        (assert (m = x ∧ o = Block) as [-> ->] by set_solver);
        (split; [done|]); exists st, current_access; by rewrite ?Hb, ?Ha. }
  destruct (negb (banned_or_quarantine st) && negb (PyJson.truthy current_access)) eqn:Ha;
    [|by apply emits_silent, silent_ret].
  apply andb_true_iff in Ha as [Ha _]. apply negb_true_iff in Ha. rewrite Ha in *.
  split_binds; [apply emits_emit| |by apply emits_silent, silent_ret].
  - intros o m [[= <- <-]|[=]]. split; [done|]. exists st, current_access; by rewrite ?Hb, ?Ha.
  - apply (shaped_emits _ _ _ (shaped_allow_device_by_mac handle hmac x)).
    intros e He o m Hc. destruct (corrects_tag _ _ _ _ He Hc) as [H|H];
      unfold allow_tags, session_tags, handshake_tags in H;
      (assert (m = x ∧ o = Allow) as [-> ->] by set_solver);
      (split; [done|]); exists st, current_access; by rewrite ?Hb, ?Ha.
Qed.

(** X18. Every drift warning and every corrective call of
    check_status_changes is for a lower-case MAC that has a row with a
    status and that the fetched device list reports with an access flag
    different from the one this status calls for; the correction is a block
    for banned and quarantine and an allow for authorized. *)
Theorem drift_corrections_are_sound (s : @lstate W) e o mac :
  e ∈ trace (check_status_changes handle hmac s) →
  e = EvDriftWarning o mac ∨ e = EvCall o mac →
  ∃ st devices states access,
    status_of (db s) mac = Some st ∧
    result (get_network_devices handle hmac (fbx s)) = inr devices ∧
    build_states (iter_devices devices) ∅ = inr states ∧
    states !! mac = Some access ∧ Py.lower mac = mac ∧
    PyJson.eq_bool access (negb (banned_or_quarantine st)) = false ∧
    o = if banned_or_quarantine st then Block else Allow.
Proof.
  intros Hin Hc. revert Hin. unfold check_status_changes.
  rewrite run_bind_gets. cbv beta. unfold id.
  destruct (negb _); [by intros ?%elem_of_nil|].
  rewrite run_lift. run_proj. rewrite trace_try. intros Hin.
  assert (e ∈ trace ((get_network_devices handle hmac ≫= λ freebox_devices,
            if negb (PyJson.truthy freebox_devices) then mret ()
            else pure (build_states (iter_devices freebox_devices) ∅) ≫= λ freebox_states,
                 for_each (check_device handle hmac freebox_states)
                   (db_devices_of (db s))) (fbx s))) as Hin'.
  { destruct (result _) in Hin; [|done].
    apply elem_of_app in Hin as [Hin|Hin]; [done|].
    simpl in Hin. apply list_elem_of_singleton in Hin as ->. by destruct Hc. }
  clear Hin. revert Hin'. rewrite trace_bind.
  destruct (total_get_network_devices handle hmac (fbx s)) as [devices Hdev].
  rewrite Hdev. intros [Hin|Hin]%elem_of_app.
  { exfalso.
    pose proof (shaped_emits _ (λ e, tag_of e ∈ devices_tags) _
                  (shaped_get_network_devices handle hmac) (λ _ H, H) (fbx s)) as Hsh.
    rewrite Forall_forall in Hsh. specialize (Hsh e Hin).
    destruct (corrects_tag _ _ _ _ Hsh Hc) as [H|H];
      unfold devices_tags, session_tags, handshake_tags in H; set_solver. }
  set (g1 := final (get_network_devices handle hmac (fbx s))) in *.
  destruct (negb (PyJson.truthy devices)); [by apply elem_of_nil in Hin|].
  destruct (build_states (iter_devices devices) ∅) as [x|states] eqn:Hst;
    [by apply elem_of_nil in Hin|].
  rewrite run_bind_pure_ok in Hin.
  assert (emits (λ e, ∀ o m, corrects e o m →
            ∃ st access, status_of (db s) m = Some st ∧ states !! m = Some access ∧
              PyJson.eq_bool access (negb (banned_or_quarantine st)) = false ∧
              o = if banned_or_quarantine st then Block else Allow)
            (for_each (check_device handle hmac states) (db_devices_of (db s)))) as Hem.
  { apply emits_for_each. intros [x db_status] Hx.
    eapply emits_mono; [apply check_device_corrects|].
    intros e' He' o' m' Hc'.
    destruct (He' o' m' Hc') as (-> & st & access & -> & Hacc & Hneq & Ho).
    exists st, access. split; [|done].
    unfold db_devices_of in Hx.
    apply list_elem_of_fmap in Hx as ([k r] & [= -> Hr] & Hkr).
    apply elem_of_map_to_list in Hkr. unfold status_of. by rewrite Hkr. }
  specialize (Hem g1). rewrite Forall_forall in Hem.
  destruct (Hem e Hin o mac Hc) as (st & access & Hs & Hacc & Hneq & Ho).
  exists st, devices, states, access. repeat split; try done.
  apply (build_states_keys _ _ _ Hst); [|by eexists].
  intros k [x Hk]. by rewrite lookup_empty in Hk.
Qed.

End DriftSound.

Section RegistryRoundTrip.
Context {W : Type}.
Variable clock : nat → Z.

(** X20. After update_mac_status has written a status for a MAC,
    get_mac_status returns that status for this MAC, and for every other MAC
    what it returned before. *)
Theorem status_written_is_read mac st mac' (s : @lstate W) :
  result ((update_mac_status clock mac st ≫= λ _, get_mac_status mac') s) =
  inr (if decide (mac' = mac) then Some st else db s !! mac' ≫= status).
Proof.
  rewrite result_bind.
  destruct (total_update_mac_status clock mac st s) as [[] ->].
  unfold get_mac_status. simpl. f_equal.
  apply (status_update_mac_status clock mac st s mac').
Qed.

End RegistryRoundTrip.

(** ** Concrete runs *)

Lemma cycle_leaves_unscanned_rows_witness :
  db (final (run_cycle scripted no_hmac tick ["aa:bb:cc:dd:ee:02"]
               (sample_lstate {[ "aa:bb:cc:dd:ee:01" := sample_row ]})))
    !! "aa:bb:cc:dd:ee:01" = Some sample_row.
Proof.
  etrans.
  - apply (cycle_leaves_unscanned_rows scripted no_hmac tick ["aa:bb:cc:dd:ee:02"]
             (sample_lstate {[ "aa:bb:cc:dd:ee:01" := sample_row ]}) "aa:bb:cc:dd:ee:01").
    by intros ?%list_elem_of_singleton.
  - vm_compute. reflexivity.
Defined.

Lemma cycle_keeps_history_witness :
  ∃ r', db (final (run_cycle scripted no_hmac tick ["aa:bb:cc:dd:ee:01"]
                     (sample_lstate {[ "aa:bb:cc:dd:ee:01" := sample_row ]})))
          !! "aa:bb:cc:dd:ee:01" = Some r' ∧
        first_seen r' = first_seen sample_row ∧ comment r' = comment sample_row.
Proof.
  apply (cycle_keeps_history scripted no_hmac tick ["aa:bb:cc:dd:ee:01"]
           (sample_lstate {[ "aa:bb:cc:dd:ee:01" := sample_row ]}) "aa:bb:cc:dd:ee:01"
           sample_row).
  vm_compute. reflexivity.
Defined.

Lemma cycle_refreshes_last_seen_witness :
  let s := sample_lstate {[ "aa:bb:cc:dd:ee:01" := sample_row ]} in
  let s' := final (run_cycle scripted no_hmac tick ["aa:bb:cc:dd:ee:01"] s) in
  ∃ r' n, db s' !! "aa:bb:cc:dd:ee:01" = Some r' ∧
          status r' = Some (default Quarantine (status_of (db s) "aa:bb:cc:dd:ee:01")) ∧
          (clock_reads s ≤ n < clock_reads s')%nat ∧ last_seen r' = tick n.
Proof.
  apply (cycle_refreshes_last_seen scripted no_hmac tick ["aa:bb:cc:dd:ee:01"]
           (sample_lstate {[ "aa:bb:cc:dd:ee:01" := sample_row ]}) "aa:bb:cc:dd:ee:01").
  constructor.
Defined.

Lemma enforcement_follows_status_witness :
  Block = Allow ↔
  status_of (db (sample_lstate {[ "aa:bb:cc:dd:ee:01" := sample_row ]}))
    "aa:bb:cc:dd:ee:01" = Some Authorized.
Proof.
  apply (enforcement_follows_status scripted no_hmac tick ["aa:bb:cc:dd:ee:01"]
           (sample_lstate {[ "aa:bb:cc:dd:ee:01" := sample_row ]})
           (EvEnforce Block "aa:bb:cc:dd:ee:01") Block "aa:bb:cc:dd:ee:01").
  - vm_compute. constructor.
  - left. reflexivity.
Defined.

Lemma disconnected_cycle_is_local_witness :
  let s := sample_lstate {[ "aa:bb:cc:dd:ee:01" := sample_row ]} in
  let run := run_cycle scripted no_hmac tick ["aa:bb:cc:dd:ee:01"; "aa:bb:cc:dd:ee:02"] s in
  result run = inr tt ∧ fbx (final run) = fbx s ∧ Forall local_event (trace run).
Proof.
  apply (disconnected_cycle_is_local scripted no_hmac tick
           ["aa:bb:cc:dd:ee:01"; "aa:bb:cc:dd:ee:02"]
           (sample_lstate {[ "aa:bb:cc:dd:ee:01" := sample_row ]})).
  reflexivity.
Defined.

Lemma failed_renewal_disconnects_witness :
  connected (api (final (ensure_valid_session scripted no_hmac (valid_client [])))) = false.
Proof.
  apply (failed_renewal_disconnects scripted no_hmac (valid_client []));
    reflexivity.
Defined.

Lemma handshake_signs_the_challenge_witness :
  ∃ key challenge tok w1 w2 code1 res1 r1 code2 res2 r2,
    let g := fresh_client [Response 200 (Some challenge_body);
                           Response 200 (Some (session_body (JStr "s3ss10n")))] in
    app_token (api g) = JStr key ∧
    scripted (gw g) GET_login = (w1, Response code1 (Some res1)) ∧
    PyJson.item res1 "result" = inr r1 ∧
    PyJson.item r1 "challenge" = inr (JStr challenge) ∧
    scripted w1 (POST_login_session app_id (no_hmac key challenge)) =
      (w2, Response code2 (Some res2)) ∧
    PyJson.item res2 "result" = inr r2 ∧
    PyJson.item r2 "session_token" = inr tok ∧
    get_new_session_token scripted no_hmac g =
      (inr true, mkG (mkApi tok (app_token (api g)) (connected (api g))) w2,
       [EvHttp GET_login;
        EvHttp (POST_login_session app_id (no_hmac key challenge));
        EvSaveToken tok]).
Proof.
  apply (handshake_signs_the_challenge scripted no_hmac
           (fresh_client [Response 200 (Some challenge_body);
                          Response 200 (Some (session_body (JStr "s3ss10n")))])).
  reflexivity.
Defined.

Lemma block_adds_despite_failed_fetch_witness :
  block_device_by_mac scripted no_hmac "aa:bb:cc:dd:ee:01"
    (valid_client [Response 200 (Some ok_body);
                   Response 200 (Some rejected_body);
                   Response 200 (Some (filter_body (entry_of_mac "AA:BB:CC:DD:EE:01")))])
  = (inr true, valid_client [],
     [EvCall Block "aa:bb:cc:dd:ee:01"; EvHttp (GET_login_probe "tok");
      EvHttp (GET_mac_filter "tok");
      EvHttp (POST_mac_filter "tok" "AA:BB:CC:DD:EE:01")]).
Proof.
  apply (block_adds_despite_failed_fetch scripted no_hmac "aa:bb:cc:dd:ee:01"
           (valid_client [Response 200 (Some ok_body);
                          Response 200 (Some rejected_body);
                          Response 200 (Some (filter_body (entry_of_mac "AA:BB:CC:DD:EE:01")))])
           (valid_client [Response 200 (Some rejected_body);
                          Response 200 (Some (filter_body (entry_of_mac "AA:BB:CC:DD:EE:01")))])
           [EvHttp (GET_login_probe "tok")] "tok"
           [Response 200 (Some (filter_body (entry_of_mac "AA:BB:CC:DD:EE:01")))]
           200 rejected_body [] 200 (filter_body (entry_of_mac "AA:BB:CC:DD:EE:01"))
           [("mac", JStr "AA:BB:CC:DD:EE:01"); ("id", JStr "AA:BB:CC:DD:EE:01-blacklist")]);
    vm_compute; reflexivity.
Defined.

Lemma allow_skips_entry_without_id_witness :
  allow_device_by_mac scripted no_hmac "aa:bb:cc:dd:ee:01"
    (valid_client [Response 200 (Some ok_body);
                   Response 200 (Some (filter_body (JList [entry_without_id])))])
  = (inr true, valid_client [],
     [EvCall Allow "aa:bb:cc:dd:ee:01"; EvHttp (GET_login_probe "tok");
      EvHttp (GET_mac_filter "tok")]).
Proof.
  apply (allow_skips_entry_without_id scripted no_hmac "aa:bb:cc:dd:ee:01"
           (valid_client [Response 200 (Some ok_body);
                          Response 200 (Some (filter_body (JList [entry_without_id])))])
           (valid_client [Response 200 (Some (filter_body (JList [entry_without_id])))])
           [EvHttp (GET_login_probe "tok")] "tok" [] 200
           (filter_body (JList [entry_without_id])) (JList [entry_without_id]) JNull);
    vm_compute; reflexivity.
Defined.

Lemma allow_deletes_first_match_witness :
  allow_device_by_mac scripted no_hmac "aa:bb:cc:dd:ee:01"
    (valid_client [Response 200 (Some ok_body);
                   Response 200 (Some (filter_body (JList [other_entry; entry_01])));
                   Response 200 (Some ok_body)])
  = (inr true, valid_client [],
     [EvCall Allow "aa:bb:cc:dd:ee:01"; EvHttp (GET_login_probe "tok");
      EvHttp (GET_mac_filter "tok");
      EvHttp (DELETE_mac_filter "tok" (JStr "AA:BB:CC:DD:EE:01-blacklist"))]).
Proof.
  apply (allow_deletes_first_match scripted no_hmac "aa:bb:cc:dd:ee:01"
           (valid_client [Response 200 (Some ok_body);
                          Response 200 (Some (filter_body (JList [other_entry; entry_01])));
                          Response 200 (Some ok_body)])
           (valid_client [Response 200 (Some (filter_body (JList [other_entry; entry_01])));
                          Response 200 (Some ok_body)])
           [EvHttp (GET_login_probe "tok")] "tok" [Response 200 (Some ok_body)] 200
           (filter_body (JList [other_entry; entry_01])) (JList [other_entry; entry_01])
           (JStr "AA:BB:CC:DD:EE:01-blacklist") [] 200 ok_body true);
    vm_compute; reflexivity.
Defined.

Lemma get_network_devices_all_or_nothing_witness :
  get_network_devices scripted no_hmac
    (valid_client [Response 200 (Some ok_body);
                   Response 200 (Some (filter_body (JList [phone; idle_printer])))])
  = (inr (JList [phone; idle_printer]), valid_client [],
     [EvHttp (GET_login_probe "tok"); EvHttp (GET_lan_browser "tok")]).
Proof.
  apply (get_network_devices_all_or_nothing scripted no_hmac
           (valid_client [Response 200 (Some ok_body);
                          Response 200 (Some (filter_body (JList [phone; idle_printer])))])
           (valid_client [Response 200 (Some (filter_body (JList [phone; idle_printer])))])
           [EvHttp (GET_login_probe "tok")] "tok" []
           (filter_body (JList [phone; idle_printer])) (JList [phone; idle_printer])
           [phone]);
    vm_compute; reflexivity.
Defined.

Lemma drift_corrections_are_sound_witness :
  ∃ st devices states access,
    status_of (db drifted) "aa:bb:cc:dd:ee:01" = Some st ∧
    result (get_network_devices scripted no_hmac (fbx drifted)) = inr devices ∧
    build_states (iter_devices devices) ∅ = inr states ∧
    states !! "aa:bb:cc:dd:ee:01" = Some access ∧
    Py.lower "aa:bb:cc:dd:ee:01" = "aa:bb:cc:dd:ee:01" ∧
    PyJson.eq_bool access (negb (banned_or_quarantine st)) = false ∧
    Block = if banned_or_quarantine st then Block else Allow.
Proof.
  apply (drift_corrections_are_sound scripted no_hmac drifted
           (EvCall Block "aa:bb:cc:dd:ee:01") Block "aa:bb:cc:dd:ee:01").
  - vm_compute. repeat constructor.
  - right. reflexivity.
Defined.

Lemma block_listed_is_noop_witness :
  block_device_by_mac scripted no_hmac "aa:bb:cc:dd:ee:01"
    (valid_client [Response 200 (Some ok_body);
                   Response 200 (Some (filter_body (JList [other_entry; entry_01])))])
  = (inr true, valid_client [],
     [EvCall Block "aa:bb:cc:dd:ee:01"; EvHttp (GET_login_probe "tok");
      EvHttp (GET_mac_filter "tok")]).
Proof.
  apply (block_listed_is_noop scripted no_hmac "aa:bb:cc:dd:ee:01"
           (valid_client [Response 200 (Some ok_body);
                          Response 200 (Some (filter_body (JList [other_entry; entry_01])))])
           (valid_client [Response 200 (Some (filter_body (JList [other_entry; entry_01])))])
           [EvHttp (GET_login_probe "tok")] "tok" [] 200
           (filter_body (JList [other_entry; entry_01])) (JList [other_entry; entry_01]));
    vm_compute; reflexivity.
Defined.

(** ** Start-up synchronisation *)

Lemma count_tag_for_each {St A} T (c : A → nat) (f : A → M St unit) l s :
  (∀ x, total (f x)) →
  (∀ x s', count_tag T (trace (f x s')) = c x) →
  count_tag T (trace (for_each f l s)) = sum_list (c <$> l).
Proof.
  intros Hf Hc. revert s. induction l as [|x l IH]; intros s; simpl; [done|].
  rewrite trace_bind. destruct (Hf x s) as [[] ->].
  by rewrite count_tag_app, Hc, IH.
Qed.

Lemma sum_indicator {X} (l : list (string * X)) mac :
  NoDup l.*1 →
  sum_list ((λ x, if decide (x.1 = mac) then 1 else 0)%nat <$> l) =
  if decide (mac ∈ l.*1) then 1%nat else 0%nat.
Proof.
  induction l as [|[k v] l IH]; [done|]. csimpl.
  intros [Hk Hl]%NoDup_cons. change (sum_list_with id ?l) with (sum_list l).
  rewrite (IH Hl).
  destruct (decide (k = mac)) as [->|Hne].
  - rewrite decide_False by done. by rewrite decide_True by left.
  - destruct (decide (mac ∈ l.*1)) as [Hin|Hnin].
    + by rewrite decide_True by by right.
    + rewrite decide_False; [done|]. by intros [?|?]%elem_of_cons.
Qed.

Lemma banned_devices_keys (t : gmap string row) :
  NoDup (banned_devices_of t).*1 ∧
  ∀ mac, mac ∈ (banned_devices_of t).*1 ↔ status_of t mac = Some Banned.
Proof.
  unfold banned_devices_of. rewrite <- list_fmap_compose.
  assert (((fst ∘ λ kv : string * row, (kv.1, comment kv.2)) <$>
             filter (λ kv, status kv.2 = Some Banned) (map_to_list t)) =
          (filter (λ kv, status kv.2 = Some Banned) (map_to_list t)).*1) as ->
    by by apply list_fmap_ext.
  split.
  - eapply sublist_NoDup; [apply (NoDup_fst_map_to_list t)|].
    apply fmap_sublist, sublist_filter.
  - intros mac. rewrite list_elem_of_fmap. unfold status_of. split.
    + intros ([k r] & -> & [Hst Hin]%list_elem_of_filter).
      apply elem_of_map_to_list in Hin. simpl in *. by rewrite Hin.
    + destruct (t !! mac) as [r|] eqn:Hr; [|done]. simpl. intros Hst.
      exists (mac, r). split; [done|]. apply list_elem_of_filter. split; [done|].
      by apply elem_of_map_to_list.
Qed.

Section SyncProperties.
Context {W : Type}.
Variable handle : W → request → W * reply.
Variable hmac : string → string → string.

(** X21. sync_banned_devices_with_freebox always ends normally and never
    writes the registry, and everything it does is part of a block
    operation. When the client is connected it calls block_device_by_mac
    exactly once for every MAC whose status is banned and for no other MAC;
    when the client is not connected it calls nothing. *)
Theorem sync_blocks_exactly_banned (s : @lstate W) :
  let run := sync_banned_devices_with_freebox handle hmac s in
  result run = inr tt ∧ db (final run) = db s ∧
  (∀ e, e ∈ trace run → ∃ mac, tag_of e ∈ block_tags mac) ∧
  ∀ mac, count_tag (TCall Block mac) (trace run) =
         if connected (api (fbx s)) && bool_decide (status_of (db s) mac = Some Banned)
         then 1%nat else 0%nat.
Proof.
  cbv zeta. unfold sync_banned_devices_with_freebox. rewrite run_bind_gets.
  cbv beta. unfold id. destruct (connected (api (fbx s))); cbn [negb andb].
  2:{ split; [done|]. split; [done|]. split; [|done]. by intros e ?%elem_of_nil. }
  rewrite run_try_const.
  set (turn := λ entry : string * option string,
         lift (block_device_by_mac handle hmac entry.1) ≫= λ _ : bool, mret ()).
  assert (∀ entry, total (turn entry)) as Htot.
  { intros entry. apply total_bind; [|intros ?; apply total_ret].
    apply total_lift, total_block_device_by_mac. }
  assert (∀ entry s', trace (turn entry s') =
            trace (block_device_by_mac handle hmac entry.1 (fbx s'))) as Htr.
  { intros entry s'. unfold turn. rewrite trace_bind, run_lift. run_proj.
    destruct (result _); [done|]. by rewrite app_nil_r. }
  assert (∀ entry s', db (final (turn entry s')) = db s') as Hdb.
  { intros entry s'. unfold turn. rewrite final_bind, run_lift. run_proj.
    by destruct (result _). }
  assert (match banned_devices_of (db s) with
          | [] => mret ()
          | _ :: _ => for_each turn (banned_devices_of (db s))
          end = for_each turn (banned_devices_of (db s))) as ->
    by by destruct (banned_devices_of (db s)).
  run_proj.
  destruct (total_for_each turn (banned_devices_of (db s)) Htot s) as [[] ->].
  split; [done|]. split; [|split].
  - apply (for_each_final_inv (λ s', db s' = db s)); [|done].
    intros x s' _ Hs'. by rewrite Hdb.
  - assert (emits (λ e, ∃ mac, tag_of e ∈ block_tags mac)
              (for_each turn (banned_devices_of (db s)))) as Hem.
    { apply emits_for_each. intros entry _ s'. rewrite Htr.
      eapply (shaped_emits _ _ _ (shaped_block_device_by_mac handle hmac entry.1)).
      intros e He. by exists entry.1. }
    specialize (Hem s). by rewrite Forall_forall in Hem.
  - intros mac.
    rewrite (count_tag_for_each _ (λ x, if decide (x.1 = mac) then 1 else 0)%nat); [|done|].
    + destruct (banned_devices_keys (db s)) as [Hnd Hin].
      rewrite (sum_indicator _ _ Hnd).
      destruct (decide (mac ∈ (banned_devices_of (db s)).*1)) as [H|H];
        rewrite Hin in H.
      * by rewrite bool_decide_eq_true_2.
      * by rewrite bool_decide_eq_false_2.
    + intros entry s'. rewrite Htr.
      destruct (run_block_device_by_mac handle hmac entry.1 (fbx s')) as (rest & -> & Hrest).
      rewrite count_tag_cons. cbn [tag_of].
      rewrite (count_tag_outside _ (session_tags ++ [TFilterGet; TFilterAdd]) rest);
        [| |exact Hrest].
      * destruct (decide (entry.1 = mac)) as [->|Hne].
        -- by rewrite decide_True.
        -- rewrite decide_False; [done|]. by intros [= ?].
      * unfold session_tags, handshake_tags. set_solver.
Qed.

End SyncProperties.

(** ** Start-up: discovery *)

Section Discovery.
Context {W : Type}.
Variable handle_boot : W → boot_request → W * reply.
Variable py_repr : json → string.
Implicit Types b : @bstate W.

Lemma probe_one_run base_url b :
  try_catch
    (resp ← http_boot handle_boot (GET_api_version base_url);
     if (resp.1 =? 200)%Z then
       api_info ← pure (json_of resp);
       version ← pure (PyJson.get api_info "api_version" JNull);
       _ ← pure (PyJson.get api_info "device_name" (JStr "Freebox"));
       if PyJson.truthy version then
         let major_version := hd "" (Py.split_on "." (py_str py_repr version)) in
         set_endpoint base_url ("v" ++ major_version);;
         mret true
       else mret false
     else mret false)
    (λ _, mret false) b
  = (inr (probed handle_boot py_repr base_url b).1, (probed handle_boot py_repr base_url b).2, []).
Proof.
  rewrite run_try_const. unfold probed, http_boot at 1 2 3.
  rewrite !run_bind.
  destruct (handle_boot (gw (client b)) (GET_api_version base_url)) as [w' [e|code body]];
    [done|].
  cbn [fst snd]. destruct (code =? 200)%Z eqn:Hc.
  2:{ run_proj. by destruct body as [[| | | | |info]|]. }
  unfold json_of; cbn [snd].
  destruct body as [info|]; [|done]. run_step.
  destruct info as [| | | | |info]; try done.
  cbn [PyJson.get]. run_step. cbn [andb].
  destruct (PyJson.truthy _); [|done].
  unfold set_endpoint. run_step. done.
Qed.

Lemma probed_frame base_url b :
  let b' := (probed handle_boot py_repr base_url b).2 in
  api (client b') = api (client b) ∧ files b' = files b ∧
  token_file (setup b') = token_file (setup b) ∧
  tokens_data (setup b') = tokens_data (setup b) ∧
  now_reads b' = now_reads b ∧
  sent b' = sent b ++ [GET_api_version base_url] ∧
  ((probed handle_boot py_repr base_url b).1 = false → setup b' = setup b) ∧
  ((probed handle_boot py_repr base_url b).1 = true →
   ∃ info version,
     handle_boot (gw (client b)) (GET_api_version base_url) =
       (gw (client b'), Response 200 (Some info)) ∧
     PyJson.get info "api_version" JNull = inr version ∧
     PyJson.truthy version = true ∧
     freebox_url (setup b') = base_url ∧
     api_version (setup b') = ("v" ++ hd "" (Py.split_on "." (py_str py_repr version)))%string).
Proof.
  unfold probed.
  destruct (handle_boot (gw (client b)) (GET_api_version base_url)) as [w' rp].
  assert (∀ b0 : bstate, b0 = mkB (mkG (api (client b)) w') (setup b) (files b)
            (sent b ++ [GET_api_version base_url]) (now_reads b) →
          api (client b0) = api (client b) ∧ files b0 = files b ∧
          token_file (setup b0) = token_file (setup b) ∧
          tokens_data (setup b0) = tokens_data (setup b) ∧
          now_reads b0 = now_reads b ∧
          sent b0 = sent b ++ [GET_api_version base_url] ∧
          (false = false → setup b0 = setup b) ∧
          (false = true → ∃ info version,
             (w', rp) = (gw (client b0), Response 200 (Some info)) ∧
             PyJson.get info "api_version" JNull = inr version ∧
             PyJson.truthy version = true ∧
             freebox_url (setup b0) = base_url ∧
             api_version (setup b0) =
               ("v" ++ hd "" (Py.split_on "." (py_str py_repr version)))%string)) as Hno.
  { intros b0 ->. by repeat split. }
  destruct rp as [e|code [body|]]; [by apply Hno| |by apply Hno].
  destruct body as [| | | | |info]; try by apply Hno.
  cbv zeta. destruct (code =? 200)%Z eqn:Hc; cbn [andb]; [|by apply Hno].
  apply Z.eqb_eq in Hc as ->.
  destruct (PyJson.truthy (default JNull (PyJson.dict_lookup info "api_version")))
    eqn:Htr; [|by apply Hno].
  simpl. repeat split; try done.
  intros _. exists (JDict info), (default JNull (PyJson.dict_lookup info "api_version")).
  by repeat split.
Qed.

Lemma get_api_version_run b :
  let run := get_api_version handle_boot py_repr b in
  let b' := final run in
  trace run = [] ∧
  api (client b') = api (client b) ∧ files b' = files b ∧
  token_file (setup b') = token_file (setup b) ∧
  tokens_data (setup b') = tokens_data (setup b) ∧
  ∃ asked later,
    test_urls = asked ++ later ∧
    sent b' = sent b ++ (GET_api_version <$> asked) ∧
    ((result run = inr false ∧ later = [] ∧ setup b' = setup b) ∨
     (result run = inr true ∧
      ∃ base_url w info version,
        last asked = Some base_url ∧
        handle_boot w (GET_api_version base_url) =
          (gw (client b'), Response 200 (Some info)) ∧
        PyJson.get info "api_version" JNull = inr version ∧
        PyJson.truthy version = true ∧
        freebox_url (setup b') = base_url ∧
        api_version (setup b') =
          ("v" ++ hd "" (Py.split_on "." (py_str py_repr version)))%string)).
Proof.
  cbv zeta. unfold get_api_version. generalize test_urls as urls.
  intros urls. revert b. induction urls as [|base_url urls IH]; intros b.
  { simpl. do 5 (split; [done|]). exists [], [].
    split; [done|]. split; [by rewrite app_nil_r|]. by left. }
  cbn [probe_urls].
  rewrite (run_bind_ok _ _ _ _ _ _ (probe_one_run base_url b)).
  destruct (probed_frame base_url b) as (Ha & Hf & Htf & Htd & Hn & Hs & Hfalse & Htrue).
  cbv zeta in *. destruct (probed handle_boot py_repr base_url b) as [[|] b1]; cbn [fst snd] in *.
  - run_proj. repeat split; try done.
    exists [base_url], urls. repeat split; try done. right. split; [done|].
    destruct (Htrue eq_refl) as (info & version & H1 & H2 & H3 & H4 & H5).
    by exists base_url, (gw (client b)), info, version.
  - destruct (IH b1) as (Ht & Ha' & Hf' & Htf' & Htd' & asked & later & Hu & Hs' & Hcase).
    run_proj. rewrite Ht, Ha', Hf', Htf', Htd'. repeat split; try done.
    exists (base_url :: asked), later. split; [by rewrite Hu|].
    split; [rewrite Hs', Hs; by rewrite <- app_assoc|].
    destruct Hcase as [(Hr & Hl & Hset)|(Hr & u & w & info & version & Hlast & Hrest)].
    + left. repeat split; try done. rewrite Hset. by apply Hfalse.
    + right. split; [done|]. exists u, w, info, version. split; [|done].
      destruct asked; [done|]. done.
Qed.

End Discovery.

(** ** Start-up: the credential file *)

Section Credentials.
Context {W : Type}.
Variables can_read can_write : string → bool.
Variable clock : nat → Z.
Variable isoformat : Z → string.
Implicit Types b : @bstate W.

Lemma read_json_setup location b c :
  read_json can_read location (with_setup c b) = read_json can_read location b.
Proof. reflexivity. Qed.

Lemma load_first_run locations b :
  load_first can_read locations b =
  (inr tt,
   match first_loadable can_read locations b with
   | Some (location, j) =>
       with_setup (mkSetup (freebox_url (setup b)) (api_version (setup b))
                     (Some location) (Some j)) b
   | None => b
   end, []).
Proof.
  induction locations as [|location rest IH]; [done|].
  cbn [load_first first_loadable]. rewrite run_bind_gets.
  destruct (read_json can_read location b) as [j|]; [|exact IH].
  unfold set_tokens_data, set_token_file. run_step. reflexivity.
Qed.

Lemma load_tokens_from_file_run b :
  let run := load_tokens_from_file can_read b in
  let b' := final run in
  let found := first_loadable can_read possible_locations b in
  trace run = [] ∧ files b' = files b ∧ sent b' = sent b ∧
  gw (client b') = gw (client b) ∧
  connected (api (client b')) = connected (api (client b)) ∧
  token_file (setup b') = fst <$> found ∧
  tokens_data (setup b') = Some (default JNull (snd <$> found)) ∧
  (PyJson.truthy (default JNull (snd <$> found)) = false →
   result run = inr false ∧ api (client b') = api (client b)) ∧
  (result run = inr true →
   ∃ location d,
     found = Some (location, JDict d) ∧
     app_token (api (client b')) = default JNull (PyJson.dict_lookup d "app_token") ∧
     PyJson.truthy (app_token (api (client b'))) = true ∧
     session_token (api (client b')) =
       default JNull (PyJson.dict_lookup d "session_token")).
Proof.
  cbv zeta. unfold load_tokens_from_file, set_token_file, set_tokens_data.
  run_step. cbn [setup with_setup freebox_url api_version token_file tokens_data].
  set (b0 := with_setup _ (with_setup _ b)).
  assert (first_loadable can_read possible_locations b0 = first_loadable can_read possible_locations b)
    as Hfl by reflexivity.
  rewrite (run_bind_ok _ _ _ _ _ _ (load_first_run possible_locations b0)).
  rewrite Hfl. clear Hfl. subst b0. run_step.
  destruct (first_loadable can_read possible_locations b) as [[location data]|];
    cbn [fmap option_fmap option_map default fst snd].
  2:{ run_proj. by repeat split. }
  change (default JNull (tokens_data (setup (with_setup ?c ?x)))) with
    (default JNull (tokens_data c)).
  cbn [tokens_data]. change (default JNull (Some data)) with data.
  change (id data) with data.
  destruct (PyJson.truthy data) eqn:Htr; cbn [negb].
  2:{ run_proj. by repeat split. }
  destruct data as [| | | | |d];
    try (run_step; run_proj; by repeat split).
  cbn [PyJson.get]. run_step. unfold set_api. run_step.
  cbn [client with_client api gw session_token app_token connected].
  set (app := default JNull (PyJson.dict_lookup d "app_token")).
  set (session := default JNull (PyJson.dict_lookup d "session_token")).
  destruct (PyJson.truthy app) eqn:Happ.
  2:{ run_proj. by repeat split. }
  destruct (PyValue.len app) as [e|n]; run_step.
  { run_proj. by repeat split. }
  destruct (PyJson.truthy session).
  - destruct (PyValue.len session) as [e|n']; run_step; run_proj.
    + by repeat split.
    + do 8 (split; [done|]). intros _. by exists location, d.
  - run_step. run_proj. do 8 (split; [done|]). intros _. by exists location, d.
Qed.

(** X23. load_tokens_from_file takes the first of its four locations whose
    file can be opened and parsed and looks no further, even when the
    content is unusable; token_file and tokens_data are set from it (None
    when no file loads). It returns False without changing the tokens when
    the loaded value is falsy; when it returns True the value is an object
    with a truthy app_token, and app token and session token are those of
    the file (None when absent). It writes no file, sends no request and
    leaves the connected flag alone. *)
Theorem credentials_come_from_first_loadable_file b :
  let run := load_tokens_from_file can_read b in
  let b' := final run in
  let found := first_loadable can_read possible_locations b in
  trace run = [] ∧ files b' = files b ∧ sent b' = sent b ∧
  gw (client b') = gw (client b) ∧
  connected (api (client b')) = connected (api (client b)) ∧
  token_file (setup b') = fst <$> found ∧
  tokens_data (setup b') = Some (default JNull (snd <$> found)) ∧
  (PyJson.truthy (default JNull (snd <$> found)) = false →
   result run = inr false ∧ api (client b') = api (client b)) ∧
  (result run = inr true →
   ∃ location d,
     found = Some (location, JDict d) ∧
     app_token (api (client b')) = default JNull (PyJson.dict_lookup d "app_token") ∧
     PyJson.truthy (app_token (api (client b'))) = true ∧
     session_token (api (client b')) =
       default JNull (PyJson.dict_lookup d "session_token")).
Proof. exact (load_tokens_from_file_run b). Qed.

Lemma write_first_run locations data b :
  write_first can_write locations data b =
  (inr tt,
   match first_writable can_write locations with
   | Some location =>
       mkB (client b)
           (mkSetup (freebox_url (setup b)) (api_version (setup b))
              (Some location) (tokens_data (setup b)))
           (<[location := Json data]> (files b)) (sent b) (now_reads b)
   | None => b
   end, []).
Proof.
  induction locations as [|location rest IH]; [done|].
  cbn [write_first first_writable]. destruct (can_write location); [|exact IH].
  unfold set_token_file. run_step. reflexivity.
Qed.

Lemma dict_set_lookup d k v :
  PyJson.dict_lookup (PyValue.dict_set d k v) k = Some v.
Proof.
  induction d as [|[k' v'] d IH]; simpl.
  - by rewrite String.eqb_refl.
  - destruct (String.eqb k' k) eqn:Hk; simpl.
    + by rewrite String.eqb_refl.
    + by rewrite Hk.
Qed.

Lemma dict_set_lookup_ne d k v k' :
  k' ≠ k → PyJson.dict_lookup (PyValue.dict_set d k v) k' = PyJson.dict_lookup d k'.
Proof.
  intros Hne. induction d as [|[k0 v0] d IH]; simpl.
  - destruct (String.eqb_spec k k'); [congruence|done].
  - destruct (String.eqb_spec k0 k) as [->|Hk]; simpl.
    + destruct (String.eqb_spec k k'); [congruence|done].
    + destruct (String.eqb k0 k'); [done|exact IH].
Qed.

Lemma run_bind_boot_now {A} (k : Z → M bstate A) b :
  (boot_now clock ≫= k) b =
  k (clock (now_reads b))
    (mkB (client b) (setup b) (files b) (sent b) (S (now_reads b))).
Proof.
  rewrite run_bind. unfold boot_now.
  by destruct (k _ _) as [[r b'] ev].
Qed.

Lemma save_session_token_run b d :
  tokens_data (setup b) = Some (JDict d) →
  let run := save_session_token_to_file' can_write clock isoformat b in
  let b' := final run in
  result run = inr tt ∧ client b' = client b ∧
  ∃ data,
    tokens_data (setup b') = Some (JDict data) ∧
    PyJson.dict_lookup data "session_token" = Some (session_token (api (client b))) ∧
    PyJson.dict_lookup data "last_session_update" =
      Some (JStr (isoformat (clock (now_reads b)))) ∧
    (∀ k, k ≠ "session_token" → k ≠ "last_session_update" →
          PyJson.dict_lookup data k = PyJson.dict_lookup d k) ∧
    match first_writable can_write (save_locations b) with
    | Some location =>
        token_file (setup b') = Some location ∧
        files b' = <[location := Json (JDict data)]> (files b) ∧
        (can_read location = true →
         read_json can_read location b' = Some (JDict data))
    | None => token_file (setup b') = token_file (setup b) ∧ files b' = files b
    end.
Proof.
  intros Hd. cbv zeta. unfold save_session_token_to_file'.
  rewrite run_bind_gets. cbv beta. rewrite Hd. run_step.
  cbn [PyValue.set_item]. run_step. unfold set_tokens_data. run_step.
  rewrite run_bind_boot_now. cbn [PyValue.set_item]. run_step.
  rewrite write_first_run.
  set (data := PyValue.dict_set
                 (PyValue.dict_set d "session_token" (session_token (api (client b))))
                 "last_session_update" (JStr (isoformat (clock (now_reads b))))).
  assert (PyJson.dict_lookup data "session_token" =
          Some (session_token (api (client b)))) as H1.
  { subst data. rewrite dict_set_lookup_ne by done. apply dict_set_lookup. }
  assert (PyJson.dict_lookup data "last_session_update" =
          Some (JStr (isoformat (clock (now_reads b))))) as H2
    by apply dict_set_lookup.
  assert (∀ k, k ≠ "session_token" → k ≠ "last_session_update" →
               PyJson.dict_lookup data k = PyJson.dict_lookup d k) as H3.
  { intros k Hk1 Hk2. subst data. by rewrite !dict_set_lookup_ne. }
  destruct (first_writable can_write (save_locations b)) as [location|]; run_proj.
  - split; [done|]. split; [done|]. exists data. repeat split; try done.
    intros Hr. unfold read_json. rewrite Hr. simpl. by rewrite lookup_insert_eq.
  - split; [done|]. split; [done|]. by exists data.
Qed.

(** X24. With the credentials held as an object, save_session_token_to_file
    sets session_token to the current session token of the client and
    last_session_update to the current time, keeps every other key, and
    writes the object to the first writable location among the current token
    file followed by the three fallback locations; that location becomes the
    token file, and reading it back gives the object just written. When no
    location is writable the files and the token file are unchanged. The
    client is never changed. *)
Theorem saved_token_is_read_back b d :
  tokens_data (setup b) = Some (JDict d) →
  let run := save_session_token_to_file' can_write clock isoformat b in
  let b' := final run in
  result run = inr tt ∧ client b' = client b ∧
  ∃ data,
    tokens_data (setup b') = Some (JDict data) ∧
    PyJson.dict_lookup data "session_token" = Some (session_token (api (client b))) ∧
    PyJson.dict_lookup data "last_session_update" =
      Some (JStr (isoformat (clock (now_reads b)))) ∧
    (∀ k, k ≠ "session_token" → k ≠ "last_session_update" →
          PyJson.dict_lookup data k = PyJson.dict_lookup d k) ∧
    match first_writable can_write (save_locations b) with
    | Some location =>
        token_file (setup b') = Some location ∧
        files b' = <[location := Json (JDict data)]> (files b) ∧
        (can_read location = true →
         read_json can_read location b' = Some (JDict data))
    | None => token_file (setup b') = token_file (setup b) ∧ files b' = files b
    end.
Proof. exact (save_session_token_run b d). Qed.

End Credentials.

(** ** Start-up: the connection test and [initialize] *)

Section Initialize.
Context {W : Type}.
Variable handle : W → request → W * reply.
Variable handle_boot : W → boot_request → W * reply.
Variable hmac : string → string → string.
Variable py_repr : json → string.
Variables can_read can_write : string → bool.
Variable clock : nat → Z.
Variable isoformat : Z → string.
Implicit Types b : @bstate W.

Lemma test_connection_run b :
  let run := test_connection handle_boot b in
  let b' := final run in
  trace run = [] ∧
  session_token (api (client b')) = session_token (api (client b)) ∧
  app_token (api (client b')) = app_token (api (client b)) ∧
  setup b' = setup b ∧ files b' = files b ∧
  ∃ ok,
    result run = inr ok ∧
    connected (api (client b')) = ok || connected (api (client b)) ∧
    (PyJson.truthy (session_token (api (client b))) = false →
     ok = false ∧ sent b' = sent b ∧ gw (client b') = gw (client b)) ∧
    (ok = true →
     ∃ t code res sys,
       session_token (api (client b)) = JStr t ∧
       handle_boot (gw (client b)) (GET_system t) =
         (gw (client b'), Response code (Some res)) ∧
       success_of res = inr true ∧
       PyJson.get res "result" (JDict []) = inr (JDict sys)).
Proof.
  cbv zeta. unfold test_connection. rewrite run_bind_gets. cbv beta.
  destruct (PyJson.truthy (session_token (api (client b)))) eqn:Htr; cbn [negb].
  2:{ do 5 (split; [done|]). exists false. by repeat split. }
  rewrite run_try_const. unfold http_boot_auth.
  assert (∀ b0 : bstate,
            api (client b0) = api (client b) → setup b0 = setup b → files b0 = files b →
            [] = ([] : list event) ∧
            session_token (api (client b0)) = session_token (api (client b)) ∧
            app_token (api (client b0)) = app_token (api (client b)) ∧
            setup b0 = setup b ∧ files b0 = files b ∧
            ∃ ok, inr false = @inr exn bool ok ∧
              connected (api (client b0)) = ok || connected (api (client b)) ∧
              (true = false → ok = false ∧ sent b0 = sent b ∧
                              gw (client b0) = gw (client b)) ∧
              (ok = true → ∃ t code res sys,
                 session_token (api (client b)) = JStr t ∧
                 handle_boot (gw (client b)) (GET_system t) =
                   (gw (client b0), Response code (Some res)) ∧
                 success_of res = inr true ∧
                 PyJson.get res "result" (JDict []) = inr (JDict sys))) as Hno.
  { intros b0 Ha Hs Hf. rewrite Ha. do 5 (split; [done|]). exists false.
    by repeat split. }
  destruct (session_token (api (client b))) as [| | |t| |] eqn:Htok;
    try (run_proj; by apply Hno).
  unfold http_boot. rewrite !run_bind.
  destruct (handle_boot (gw (client b)) (GET_system t)) as [w' [e|code body]] eqn:Hh;
    [run_proj; by apply Hno|].
  unfold json_of. cbn [snd].
  destruct body as [res|]; [|run_proj; by apply Hno].
  run_step.
  destruct (success_of res) as [e|[|]] eqn:Hok; run_step;
    [run_proj; by apply Hno| |run_proj; by apply Hno].
  destruct (PyJson.get res "result" (JDict [])) as [e|system_info] eqn:Hres; run_step;
    [run_proj; by apply Hno|].
  destruct (PyJson.get system_info "uptime" (JStr "Inconnu")) as [e|uptime] eqn:Hup;
    run_step; [run_proj; by apply Hno|].
  destruct (PyJson.get system_info "temp" (JDict [])) as [e|temp]; run_step;
    [run_proj; by apply Hno|].
  destruct (PyJson.get temp "cpum" (JStr "Inconnue")) as [e|cpum]; run_step;
    [run_proj; by apply Hno|].
  unfold set_api. run_step. run_proj.
  do 5 (split; [done|]). exists true. repeat split; try done.
  intros _. destruct system_info as [| | | | |sys]; try done.
  by exists t, code, res, sys.
Qed.

(** X25. test_connection never raises and never changes the tokens, the
    endpoint or the files. It returns True, and marks the client as
    connected, only when the session token is a string and the system
    request is answered with a JSON body with a truthy success and an object
    as result; without a session token it sends nothing and returns False. A
    test that fails does not clear the connected flag. *)
Theorem connection_test_marks_connected b :
  let run := test_connection handle_boot b in
  let b' := final run in
  trace run = [] ∧
  session_token (api (client b')) = session_token (api (client b)) ∧
  app_token (api (client b')) = app_token (api (client b)) ∧
  setup b' = setup b ∧ files b' = files b ∧
  ∃ ok,
    result run = inr ok ∧
    connected (api (client b')) = ok || connected (api (client b)) ∧
    (PyJson.truthy (session_token (api (client b))) = false →
     ok = false ∧ sent b' = sent b ∧ gw (client b') = gw (client b)) ∧
    (ok = true →
     ∃ t code res sys,
       session_token (api (client b)) = JStr t ∧
       handle_boot (gw (client b)) (GET_system t) =
         (gw (client b'), Response code (Some res)) ∧
       success_of res = inr true ∧
       PyJson.get res "result" (JDict []) = inr (JDict sys)).
Proof. exact (test_connection_run b). Qed.

Lemma final_ret {St A} (a : A) (s : St) : final ((mret a : M St A) s) = s.
Proof. reflexivity. Qed.

Lemma result_ret {St A} (a : A) (s : St) : result ((mret a : M St A) s) = inr a.
Proof. reflexivity. Qed.

Lemma perform_keeps e b :
  let b' := final (perform can_write clock isoformat e b) in
  client b' = client b ∧ sent b' = sent b ∧ (holds_object b → holds_object b').
Proof.
  destruct e; try by repeat split.
  cbn [perform]. rewrite run_try_const. run_proj.
  destruct (tokens_data (setup b)) as [data|] eqn:Hd.
  2:{ unfold save_session_token_to_file'. rewrite run_bind_gets. cbv beta.
      rewrite Hd. by repeat split. }
  destruct data as [| | | | |d];
    try (unfold save_session_token_to_file'; rewrite run_bind_gets; cbv beta;
         rewrite Hd; run_step; by repeat split).
  destruct (save_session_token_run can_read can_write clock isoformat b d Hd)
    as (_ & Hc & data & Htd & _ & _ & _ & Hw).
  cbv zeta in *. split; [done|]. split.
  - unfold save_session_token_to_file'. rewrite run_bind_gets. cbv beta.
    rewrite Hd. run_step. cbn [PyValue.set_item]. run_step.
    unfold set_tokens_data. run_step. rewrite run_bind_boot_now.
    cbn [PyValue.set_item]. run_step. rewrite write_first_run.
    by destruct (first_writable can_write _).
  - intros _. by exists data.
Qed.

Lemma lift_client_run {A} (m : M (@gstate W) A) b :
  let run := lift_client can_write clock isoformat m b in
  result run = result (m (client b)) ∧
  trace run = trace (m (client b)) ∧
  client (final run) = final (m (client b)) ∧
  sent (final run) = sent b ∧
  (holds_object b → holds_object (final run)).
Proof.
  cbv zeta. unfold lift_client.
  destruct (m (client b)) as [[r g'] ev]. run_proj.
  split; [done|]. split; [done|].
  apply (for_each_final_inv
           (λ b', client b' = g' ∧ sent b' = sent b ∧
                  (holds_object b → holds_object b'))); [|done].
  intros e b' _ (Hc & Hs & Hh).
  destruct (perform_keeps e b') as (Hc' & Hs' & Hh'). cbv zeta in *.
  rewrite Hc', Hs'. repeat split; try done. intros H. by apply Hh', Hh.
Qed.

(** X26. For a client that is not connected, initialize leaves the client
    connected exactly when it returns True; in that case the credentials are
    held as an object and both the app token and the session token are
    truthy. *)
Theorem initialize_connects_iff_true b :
  connected (api (client b)) = false →
  let run := initialize handle handle_boot hmac py_repr can_read can_write clock isoformat b in
  let b' := final run in
  (connected (api (client b')) = true ↔ result run = inr true) ∧
  (result run = inr true →
   holds_object b' ∧
   PyJson.truthy (app_token (api (client b'))) = true ∧
   PyJson.truthy (session_token (api (client b'))) = true).
Proof.
  intros Hc. cbv zeta. unfold initialize.
  (* discovery *)
  destruct (get_api_version_run handle_boot py_repr b)
    as (_ & Ha1 & _ & _ & _ & asked & later & _ & _ & Hcase1).
  cbv zeta in *.
  set (b1 := final (get_api_version handle_boot py_repr b)) in *.
  assert (connected (api (client b1)) = false) as Hc1 by by rewrite Ha1.
  rewrite result_bind, final_bind. fold b1.
  destruct Hcase1 as [(-> & _)|(-> & _)]; cbn [negb].
  { rewrite final_ret, result_ret. by rewrite Hc1. }
  (* credentials *)
  destruct (load_tokens_from_file_run can_read b1)
    as (_ & _ & _ & _ & Hc2' & _ & Htd & _ & Hload).
  cbv zeta in *.
  set (b2 := final (load_tokens_from_file can_read b1)) in *.
  assert (connected (api (client b2)) = false) as Hc2 by by rewrite Hc2'.
  rewrite result_bind, final_bind. fold b2.
  destruct (result (load_tokens_from_file can_read b1)) as [e|[|]]; cbn [negb];
    [by rewrite Hc2| |rewrite final_ret, result_ret; by rewrite Hc2].
  destruct (Hload eq_refl) as (location & d & Hfound & Happ & Happ_tr & _).
  assert (holds_object b2) as Hobj2.
  { rewrite Hfound in Htd. by exists d. }
  (* first session *)
  destruct (lift_client_run (get_new_session_token handle hmac) b2)
    as (Hr3 & _ & Hcl3 & _ & Hobj3).
  cbv zeta in *.
  set (b3 := final (lift_client can_write clock isoformat
                      (get_new_session_token handle hmac) b2)) in *.
  destruct (stable_get_new_session_token handle hmac (client b2)) as [Htok3 Hconn3].
  rewrite <- Hcl3 in Htok3, Hconn3.
  assert (connected (api (client b3)) = false) as Hc3.
  { destruct (connected (api (client b3))); [|done]. by rewrite Hconn3 in Hc2. }
  rewrite result_bind, final_bind, Hr3. fold b3.
  destruct (total_get_new_session_token handle hmac (client b2)) as [opened ->].
  destruct opened; cbn [negb]; [|rewrite final_ret, result_ret; by rewrite Hc3].
  (* connection test *)
  destruct (test_connection_run b3)
    as (_ & Htok4 & Happ4 & Hset4 & _ & ok & Hr4 & Hconn4 & Hfalsy & _).
  cbv zeta in *.
  set (b4 := final (test_connection handle_boot b3)) in *.
  rewrite result_bind, final_bind, Hr4. fold b4.
  destruct ok; cbn [negb]; rewrite final_ret, result_ret.
  - rewrite Hconn4. split; [done|]. intros _. split; [|split].
    + destruct (Hobj3 Hobj2) as [d3 Hd3]. exists d3. by rewrite Hset4.
    + by rewrite Happ4, Htok3.
    + rewrite Htok4.
      destruct (PyJson.truthy (session_token (api (client b3)))); [done|].
      by destruct (Hfalsy eq_refl).
  - rewrite Hconn4, Hc3. done.
Qed.

End Initialize.

(** ** The web interface *)

Lemma status_of_text_text st : status_of_text (status_text st) = Some st.
Proof. by destruct st. Qed.

Lemma status_text_inj st st' : status_text st = status_text st' → st = st'.
Proof. by destruct st, st'. Qed.

Lemma insert_as_alter {A} (f : A → A) (k : string) (t : gmap string A) x :
  t !! k = Some x → <[k := f x]> t = alter f k t.
Proof.
  intros Hk. apply map_eq. intros j. destruct (decide (k = j)) as [<-|Hne].
  - by rewrite lookup_insert_eq, lookup_alter_eq, Hk.
  - by rewrite lookup_insert_ne, lookup_alter_ne.
Qed.

Lemma alter_absent {A} (f : A → A) (k : string) (t : gmap string A) :
  t !! k = None → alter f k t = t.
Proof.
  intros Hk. apply map_eq. intros j. destruct (decide (k = j)) as [<-|Hne].
  - by rewrite lookup_alter_eq, Hk.
  - by rewrite lookup_alter_ne.
Qed.

Section WebProperties.
Context {W : Type}.
Variable handle : W → request → W * reply.
Variable handle_boot : W → boot_request → W * reply.
Variable hmac : string → string → string.
Variable py_repr : json → string.
Variables can_read can_write : string → bool.
Variable clock : nat → Z.
Variable isoformat : Z → string.
Variable sql_clock : nat → Z.
Implicit Types s : @wstate W.

Abbreviation update_route :=
  (update handle handle_boot hmac py_repr can_read can_write clock isoformat).

(** The registry part of [/update]. *)
Lemma update_prefix form s mac st :
  form !! "mac_address" = Some mac →
  form !! "status" = Some (status_text st) →
  update_route form s =
  (let s1 := mkWeb (freebox_api s) (alter (set_status st) mac (table s))
                   (freebox_initialized s) (flashed s) (sql_reads s) in
   if negb (bool_decide (status_text <$> (table s !! mac ≫= status) = Some (status_text st)))
   then
    (ensure_freebox_connection handle handle_boot hmac py_repr can_read can_write
       clock isoformat;;
     is_connected ← gets (λ s, connected (api (client (freebox_api s))));
     if (is_connected : bool) then
       if String.eqb (status_text st) "banned" then
         ok ← on_client can_write clock isoformat (block_device_by_mac handle hmac mac);
         do_flash (if (ok : bool) then FlashApplied Block mac
                   else FlashNotApplied Block mac)
       else if String.eqb (status_text st) "authorized" then
         ok ← on_client can_write clock isoformat (allow_device_by_mac handle hmac mac);
         do_flash (if (ok : bool) then FlashApplied Allow mac
                   else FlashNotApplied Allow mac)
       else if String.eqb (status_text st) "quarantine" then
         do_flash (FlashQuarantined mac)
       else mret tt
     else do_flash FlashUnavailable) s1
   else (inr tt, s1, [])).
Proof.
  intros Hm Hs. unfold update, form_item. rewrite Hm, Hs. run_step.
  destruct (table s !! mac) as [r|] eqn:Hr.
  - unfold checked_status. rewrite status_of_text_text. run_step.
    unfold set_table. run_step. cbv zeta.
    rewrite <- (insert_as_alter (set_status st) mac (table s) r Hr).
    unfold set_status. by destruct (negb _).
  - run_step. cbv zeta. rewrite (alter_absent _ _ _ Hr).
    destruct s as [b t i fl n]; simpl in *. reflexivity.
Qed.

Lemma ensure_when_initialized s :
  freebox_initialized s = true →
  ensure_freebox_connection handle handle_boot hmac py_repr can_read can_write
    clock isoformat s = (inr true, s, []).
Proof.
  intros Hi. unfold ensure_freebox_connection. rewrite run_bind_gets. cbv beta.
  rewrite Hi. simpl negb. cbv iota. run_step. unfold gets. by rewrite Hi.
Qed.

Lemma on_client_run {A} (m : M (@gstate W) A) s :
  let run := on_client can_write clock isoformat m s in
  let call := m (client (freebox_api s)) in
  result run = result call ∧ trace run = trace call ∧
  client (freebox_api (final run)) = final call ∧
  table (final run) = table s ∧
  freebox_initialized (final run) = freebox_initialized s ∧
  flashed (final run) = flashed s ∧
  sql_reads (final run) = sql_reads s.
Proof.
  cbv zeta. unfold on_client, lift_api.
  destruct (lift_client_run can_read can_write clock isoformat m (freebox_api s))
    as (Hr & Ht & Hc & _).
  cbv zeta in *.
  destruct (lift_client can_write clock isoformat m (freebox_api s)) as [[r b'] ev].
  simpl in *. by repeat split.
Qed.

Lemma do_flash_after {A} (m : M (@wstate W) A) (f : A → flash) s a :
  result (m s) = inr a →
  (x ← m; do_flash (f x)) s =
  (inr tt,
   mkWeb (freebox_api (final (m s))) (table (final (m s)))
         (freebox_initialized (final (m s))) (flashed (final (m s)) ++ [f a])
         (sql_reads (final (m s))),
   trace (m s)).
Proof.
  intros Hr. rewrite run_bind. destruct (m s) as [[r s'] ev]. simpl in *. subst r.
  simpl. by rewrite app_nil_r.
Qed.

(** X27. /update with a status that differs from the one of the row (or for
    a MAC without a row), in a web process that is initialised, connected
    and holds its credentials: the row gets the new status and nothing else
    in the registry changes (no row is created for an unknown MAC); banned
    runs exactly one block_device_by_mac and authorized exactly one
    allow_device_by_mac on the client of the web process, flashing a success
    when the call returned True and a warning otherwise; quarantine contacts
    nothing and flashes the quarantine notice. *)
Theorem web_update_enforces_new_status form s mac st :
  form !! "mac_address" = Some mac →
  form !! "status" = Some (status_text st) →
  status_of (table s) mac ≠ Some st →
  freebox_initialized s = true →
  connected (api (client (freebox_api s))) = true →
  holds_object (freebox_api s) →
  let run := update_route form s in
  let g := client (freebox_api s) in
  result run = inr tt ∧
  table (final run) = alter (set_status st) mac (table s) ∧
  match st with
  | Banned =>
      let call := block_device_by_mac handle hmac mac g in
      trace run = trace call ∧ client (freebox_api (final run)) = final call ∧
      flashed (final run) =
        flashed s ++ [match result call with
                      | inr true => FlashApplied Block mac
                      | _ => FlashNotApplied Block mac
                      end]
  | Authorized =>
      let call := allow_device_by_mac handle hmac mac g in
      trace run = trace call ∧ client (freebox_api (final run)) = final call ∧
      flashed (final run) =
        flashed s ++ [match result call with
                      | inr true => FlashApplied Allow mac
                      | _ => FlashNotApplied Allow mac
                      end]
  | Quarantine =>
      trace run = [] ∧ freebox_api (final run) = freebox_api s ∧
      flashed (final run) = flashed s ++ [FlashQuarantined mac]
  end.
Proof.
  intros Hm Hs Hold Hi Hc _. cbv zeta. rewrite (update_prefix form s mac st Hm Hs).
  cbv zeta. unfold status_of in Hold.
  rewrite bool_decide_eq_false_2.
  2:{ intros Heq. apply Hold. destruct (table s !! mac ≫= status) as [old|]; [|done].
      simpl in Heq. injection Heq as Heq. by apply status_text_inj in Heq as ->. }
  simpl negb. cbv iota.
  set (s1 := mkWeb _ _ _ _ _).
  rewrite (run_bind_ok _ _ _ _ _ _ (ensure_when_initialized s1 Hi)).
  rewrite run_bind_gets. cbv beta. subst s1. cbn [freebox_api]. rewrite Hc. cbv iota.
  set (s1 := mkWeb _ _ _ _ _).
  destruct st; cbn [status_text String.eqb Ascii.eqb Bool.eqb].
  - destruct (on_client_run (allow_device_by_mac handle hmac mac) s1)
      as (Hr & Ht & Hcl & Htb & _ & Hfl & _). cbv zeta in *.
    destruct (total_run _ (client (freebox_api s1)) (total_allow_device_by_mac handle hmac mac))
      as [ok Hok].
    rewrite (do_flash_after _ (λ ok : bool, if ok then FlashApplied Allow mac
                                            else FlashNotApplied Allow mac) s1 ok)
      by (by rewrite Hr, Hok).
    cbn [result final trace fst snd table flashed freebox_api].
    rewrite Htb, Hfl, Ht, Hcl. subst s1. cbn [table flashed freebox_api] in *.
    repeat split; try done. rewrite Hok. by destruct ok.
  - run_proj. by repeat split.
  - destruct (on_client_run (block_device_by_mac handle hmac mac) s1)
      as (Hr & Ht & Hcl & Htb & _ & Hfl & _). cbv zeta in *.
    destruct (total_run _ (client (freebox_api s1)) (total_block_device_by_mac handle hmac mac))
      as [ok Hok].
    rewrite (do_flash_after _ (λ ok : bool, if ok then FlashApplied Block mac
                                            else FlashNotApplied Block mac) s1 ok)
      by (by rewrite Hr, Hok).
    cbn [result final trace fst snd table flashed freebox_api].
    rewrite Htb, Hfl, Ht, Hcl. subst s1. cbn [table flashed freebox_api] in *.
    repeat split; try done. rewrite Hok. by destruct ok.
Qed.

(** X28. /update with the status that the row already has changes nothing,
    sends nothing and flashes nothing: the gateway is not contacted even if
    it does not enforce that status. *)
Theorem web_update_same_status_is_silent form s mac st :
  form !! "mac_address" = Some mac →
  form !! "status" = Some (status_text st) →
  status_of (table s) mac = Some st →
  update_route form s = (inr tt, s, []).
Proof.
  intros Hm Hs Hold. rewrite (update_prefix form s mac st Hm Hs). cbv zeta.
  unfold status_of in Hold. rewrite Hold. simpl fmap.
  rewrite bool_decide_eq_true_2 by done. simpl negb. cbv iota.
  destruct (table s !! mac) as [r|] eqn:Hr; [|done]. simpl in Hold.
  rewrite <- (insert_as_alter (set_status st) mac (table s) r Hr).
  replace (set_status st r) with r by (destruct r; simpl in *; by subst).
  rewrite (insert_id _ _ _ Hr). by destruct s.
Qed.

(** X29. /update with a new status in a web process that was initialised but
    whose client is no longer connected: the row gets the new status, no
    request is sent and no reconnection is attempted (the client is
    unchanged), and the warning that the gateway is not available is
    flashed. *)
Theorem web_update_without_connection form s mac st :
  form !! "mac_address" = Some mac →
  form !! "status" = Some (status_text st) →
  status_of (table s) mac ≠ Some st →
  freebox_initialized s = true →
  connected (api (client (freebox_api s))) = false →
  update_route form s =
  (inr tt,
   mkWeb (freebox_api s) (alter (set_status st) mac (table s)) true
         (flashed s ++ [FlashUnavailable]) (sql_reads s),
   []).
Proof.
  intros Hm Hs Hold Hi Hc. rewrite (update_prefix form s mac st Hm Hs).
  cbv zeta. unfold status_of in Hold.
  rewrite bool_decide_eq_false_2.
  2:{ intros Heq. apply Hold. destruct (table s !! mac ≫= status) as [old|]; [|done].
      simpl in Heq. injection Heq as Heq. by apply status_text_inj in Heq as ->. }
  simpl negb. cbv iota.
  set (s1 := mkWeb _ _ _ _ _).
  rewrite (run_bind_ok _ _ _ _ _ _ (ensure_when_initialized s1 Hi)).
  rewrite run_bind_gets. cbv beta. subst s1. cbn [freebox_api]. rewrite Hc. cbv iota.
  simpl. by rewrite Hi.
Qed.

(** X30. /add with a non-empty MAC and an admissible status stores the row
    under the lower-cased MAC with that status: a new row gets first_seen
    and last_seen set to the current time and the comment of the form; an
    existing row keeps first_seen, gets last_seen set to the current time
    and keeps its comment when the comment of the form is empty. The gateway
    is never contacted, even for the status banned, and nothing is flashed. *)
Theorem web_add_is_registry_only form s mac st :
  Py.lower (default "" (form !! "mac_address")) = mac →
  mac ≠ "" →
  default "quarantine" (form !! "status") = status_text st →
  let run := add_mac sql_clock form s in
  let now := sql_clock (sql_reads s) in
  let text := default "" (form !! "comment") in
  result run = inr tt ∧ trace run = [] ∧
  freebox_api (final run) = freebox_api s ∧
  flashed (final run) = flashed s ∧
  status_of (table (final run)) mac = Some st ∧
  table (final run) =
    <[mac := match table s !! mac with
             | Some r =>
                 mkRow (Some st) (first_seen r) now
                   (Some (if String.eqb text "" then default "" (comment r) else text))
             | None => mkRow (Some st) now now (Some text)
             end]> (table s).
Proof.
  intros Hm Hne Hs. cbv zeta. unfold add_mac. cbv zeta. rewrite Hm, Hs.
  destruct (String.eqb_spec mac "") as [|_]; [done|].
  change (negb false) with true. cbv iota. rewrite run_bind_gets. cbv beta. unfold status_of.
  destruct (table s !! mac) as [r|] eqn:Hr;
    rewrite run_bind; unfold sql_now; cbv iota beta;
    unfold checked_status; rewrite status_of_text_text; run_step;
    unfold set_table, modify; simpl; by rewrite lookup_insert_eq.
Qed.

End WebProperties.

(** ** Concrete runs of the start-up and of the web interface *)

Lemma saved_token_is_read_back_witness :
  let b := loaded_object (valid_client []) in
  let b' := final (save_session_token_to_file' every_path tick stamp b) in
  ∃ data,
    read_json every_path "/etc/traffic_sentinel_tokens.json" b' = Some (JDict data) ∧
    PyJson.dict_lookup data "session_token" = Some (JStr "tok").
Proof.
  destruct (saved_token_is_read_back every_path every_path tick stamp
              (loaded_object (valid_client [])) stored_credentials eq_refl)
    as (_ & _ & data & _ & Htok & _ & _ & Hw).
  exists data. split; [|exact Htok].
  destruct Hw as (_ & _ & Hread). exact (Hread eq_refl).
Defined.

Lemma initialize_connects_iff_true_witness :
  let run := initialize scripted scripted_boot no_hmac no_repr every_path every_path
               tick stamp (new_object boot_script) in
  connected (api (client (final run))) = true ↔ result run = inr true.
Proof.
  exact (proj1 (initialize_connects_iff_true scripted scripted_boot no_hmac no_repr
                  every_path every_path tick stamp (new_object boot_script) eq_refl)).
Defined.

Lemma web_update_enforces_new_status_witness :
  let g := valid_client [Response 200 (Some ok_body);
                         Response 200 (Some (filter_body (JList [])));
                         Response 200 (Some ok_body)] in
  let s := web_process g {["aa:bb:cc:dd:ee:01" := mkRow (Some Quarantine) 10 20 None]} in
  let run := update scripted scripted_boot no_hmac no_repr every_path every_path
               tick stamp (status_form "aa:bb:cc:dd:ee:01" "banned") s in
  trace run = trace (block_device_by_mac scripted no_hmac "aa:bb:cc:dd:ee:01" g).
Proof.
  refine (proj1 (proj2 (proj2
    (web_update_enforces_new_status scripted scripted_boot no_hmac no_repr
       every_path every_path tick stamp
       (status_form "aa:bb:cc:dd:ee:01" "banned")
       (web_process
          (valid_client [Response 200 (Some ok_body);
                         Response 200 (Some (filter_body (JList [])));
                         Response 200 (Some ok_body)])
          {["aa:bb:cc:dd:ee:01" := mkRow (Some Quarantine) 10 20 None]})
       "aa:bb:cc:dd:ee:01" Banned _ _ _ _ _ _)))).
  - reflexivity.
  - reflexivity.
  - vm_compute. discriminate.
  - reflexivity.
  - reflexivity.
  - by exists stored_credentials.
Defined.

Lemma web_update_same_status_is_silent_witness :
  let s := web_process (valid_client [])
             {["aa:bb:cc:dd:ee:01" := mkRow (Some Banned) 10 20 None]} in
  update scripted scripted_boot no_hmac no_repr every_path every_path tick stamp
    (status_form "aa:bb:cc:dd:ee:01" "banned") s = (inr tt, s, []).
Proof.
  apply (web_update_same_status_is_silent scripted scripted_boot no_hmac no_repr
           every_path every_path tick stamp
           (status_form "aa:bb:cc:dd:ee:01" "banned")
           (web_process (valid_client [])
              {["aa:bb:cc:dd:ee:01" := mkRow (Some Banned) 10 20 None]})
           "aa:bb:cc:dd:ee:01" Banned); reflexivity.
Defined.

Lemma web_update_without_connection_witness :
  let s := web_process (mkG (mkApi (JStr "tok") (JStr "secret") false) [])
             {["aa:bb:cc:dd:ee:01" := mkRow (Some Quarantine) 10 20 None]} in
  trace (update scripted scripted_boot no_hmac no_repr every_path every_path tick stamp
           (status_form "aa:bb:cc:dd:ee:01" "banned") s) = [].
Proof.
  cbv zeta.
  rewrite (web_update_without_connection scripted scripted_boot no_hmac no_repr
           every_path every_path tick stamp
           (status_form "aa:bb:cc:dd:ee:01" "banned")
           (web_process (mkG (mkApi (JStr "tok") (JStr "secret") false) [])
              {["aa:bb:cc:dd:ee:01" := mkRow (Some Quarantine) 10 20 None]})
           "aa:bb:cc:dd:ee:01" Banned eq_refl eq_refl);
    [reflexivity|vm_compute; discriminate|reflexivity|reflexivity].
Defined.

Lemma web_add_is_registry_only_witness :
  let s := web_process (valid_client []) ∅ in
  let run := add_mac tick (status_form "AA:BB:CC:DD:EE:01" "banned") s in
  trace run = [] ∧ status_of (table (final run)) "aa:bb:cc:dd:ee:01" = Some Banned.
Proof.
  destruct (web_add_is_registry_only tick (status_form "AA:BB:CC:DD:EE:01" "banned")
              (web_process (valid_client []) ∅) "aa:bb:cc:dd:ee:01" Banned)
    as (_ & Ht & _ & _ & Hs & _).
  - vm_compute. reflexivity.
  - discriminate.
  - reflexivity.
  - split; [exact Ht|exact Hs].
Defined.

(** * Enforcement against the filter of the gateway *)

(** ** Runs of the enforcement operations against the entries listed *)

Lemma filter_has_mac_entries flt es target :
  filter_entries flt = Some es → filter_has_mac flt target = inr (entries_have es target).
Proof.
  destruct flt as [| | | |l|d]; simpl; try by intros [= <-].
  - apply list_has_mac_entries.
  - intros [= <-]. by rewrite dict_has_mac_entries.
Qed.

Lemma find_filter_id_entries flt es target :
  filter_entries flt = Some es → find_filter_id flt target = inr (entries_id es target).
Proof.
  destruct flt as [| | | |l|d]; simpl; try by intros [= <-].
  - apply list_filter_id_entries.
  - intros [= <-]. apply dict_filter_id_entries.
Qed.

Section EnforcementOnEntries.
Context {W : Type}.
Variable handle : W → request → W * reply.
Variable hmac : string → string → string.
Implicit Types s g : @gstate W.

(** The MAC is listed: the call ends at the fetch. *)
Lemma block_listed_run mac s s1 ev1 t w2 code res flt es :
  connected (api s) = true →
  ensure_valid_session handle hmac s = (inr true, s1, ev1) →
  session_token (api s1) = JStr t →
  handle (gw s1) (GET_mac_filter t) = (w2, Response code (Some res)) →
  success_of res = inr true →
  PyJson.get res "result" (JList []) = inr flt →
  filter_entries flt = Some es →
  entries_have es (Py.lower mac) = true →
  block_device_by_mac handle hmac mac s =
    (inr true, mkG (api s1) w2,
     EvCall Block mac :: ev1 ++ [EvHttp (GET_mac_filter t)]).
Proof.
  intros Hconn Hens Htok Hget Hok Hflt Hes Hhas.
  unfold block_device_by_mac. rewrite run_bind_emit. run_step.
  rewrite Hconn. simpl. rewrite (run_bind_ok _ _ _ _ _ _ Hens). simpl.
  run_step. rewrite Htok.
  erewrite run_try_ok; [reflexivity|].
  unfold http_auth. rewrite (run_bind_ok _ _ _ _ _ _ (run_http _ _ _ _ _ _ Hget)).
  rewrite json_of_some. run_step. rewrite Hok. run_step.
  rewrite Hflt. run_step. rewrite (filter_has_mac_entries _ _ _ Hes), Hhas.
  run_step. reflexivity.
Qed.

(** The MAC is not listed: the add request follows the fetch, and its
    answer decides. *)
Lemma block_unlisted_run mac s s1 ev1 t w2 code res flt es w3 code' res' d :
  connected (api s) = true →
  ensure_valid_session handle hmac s = (inr true, s1, ev1) →
  session_token (api s1) = JStr t →
  handle (gw s1) (GET_mac_filter t) = (w2, Response code (Some res)) →
  success_of res = inr true →
  PyJson.get res "result" (JList []) = inr flt →
  filter_entries flt = Some es →
  entries_have es (Py.lower mac) = false →
  handle w2 (POST_mac_filter t (Py.upper mac)) = (w3, Response code' (Some res')) →
  success_of res' = inr true →
  PyJson.get res' "result" (JDict []) = inr (JDict d) →
  block_device_by_mac handle hmac mac s =
    (inr true, mkG (api s1) w3,
     EvCall Block mac :: ev1 ++
       [EvHttp (GET_mac_filter t); EvHttp (POST_mac_filter t (Py.upper mac))]).
Proof.
  intros Hconn Hens Htok Hget Hok Hflt Hes Hhas Hadd Hok' Hres.
  unfold block_device_by_mac. rewrite run_bind_emit. run_step.
  rewrite Hconn. simpl. rewrite (run_bind_ok _ _ _ _ _ _ Hens). simpl.
  run_step. rewrite Htok.
  erewrite run_try_ok; [reflexivity|].
  unfold http_auth. rewrite (run_bind_ok _ _ _ _ _ _ (run_http _ _ _ _ _ _ Hget)).
  rewrite json_of_some. run_proj. run_step. rewrite Hok. run_step.
  rewrite Hflt. run_step. rewrite (filter_has_mac_entries _ _ _ Hes), Hhas. run_step.
  rewrite (run_bind_ok _ _ _ _ _ _ (run_http handle _ (mkG (api s1) w2) _ _ _ Hadd)).
  rewrite json_of_some. run_proj. run_step. rewrite Hok'. run_step.
  rewrite Hres. run_step. reflexivity.
Qed.

Lemma trace_after_add t mac (k : json → bool → M (@gstate W) bool) g :
  (∀ res0 b g', trace (k res0 b g') = []) →
  trace ((http handle (POST_mac_filter t (Py.upper mac)) ≫= λ resp,
          pure (json_of resp) ≫= λ res0, pure (success_of res0) ≫= k res0) g)
  = [EvHttp (POST_mac_filter t (Py.upper mac))].
Proof.
  intros Hk.
  destruct (handle (gw g) (POST_mac_filter t (Py.upper mac))) as [w3 [e|code' body']] eqn:Hadd.
  { by rewrite (run_bind_raise _ _ _ _ _ _ (run_http_raise _ _ _ _ _ Hadd)). }
  rewrite (run_bind_ok _ _ _ _ _ _ (run_http _ _ _ _ _ _ Hadd)). run_proj.
  destruct body' as [res'|]; [|done].
  rewrite json_of_some. run_step.
  destruct (success_of res') as [e|ok']; run_step; [done|].
  run_proj. by rewrite (Hk res' ok').
Qed.

(** What a call of [block_device_by_mac] can send after the validation of
    the session: nothing, the fetch, or the fetch followed at once by the
    add request for the upper-cased MAC. *)
Lemma block_requests mac s :
  ∃ ev1 tail,
    trace (block_device_by_mac handle hmac mac s) = EvCall Block mac :: ev1 ++ tail ∧
    Forall (λ e, tag_of e ∈ session_tags) ev1 ∧
    (tail = [] ∨
     ∃ t, tail = [EvHttp (GET_mac_filter t)] ∨
          tail = [EvHttp (GET_mac_filter t); EvHttp (POST_mac_filter t (Py.upper mac))]).
Proof.
  unfold block_device_by_mac. rewrite run_bind_emit. run_proj. run_step.
  destruct (negb (connected (api s))).
  { exists [], []. by repeat split; [|left]. }
  rewrite trace_bind.
  pose proof (shaped_emits _ (λ e, tag_of e ∈ session_tags) _
                (shaped_ensure_valid_session handle hmac) (λ e H, H) s) as Hev1.
  set (ev1 := trace (ensure_valid_session handle hmac s)) in *.
  set (s1 := final (ensure_valid_session handle hmac s)).
  destruct (result (ensure_valid_session handle hmac s)) as [e|[|]].
  { exists ev1, []. rewrite app_nil_r. by repeat split; [|left]. }
  2:{ exists ev1, []. by repeat split; [|left]. }
  cbn [negb]. run_step. exists ev1. eexists. split; [reflexivity|]. split; [done|].
  rewrite run_try_const. run_proj.
  unfold http_auth. destruct (session_token (api s1)) as [| | |t| |];
    try (left; reflexivity).
  right. exists t.
  assert (∀ res0 b (g' : @gstate W),
    trace ((if (b : bool) then
              pure (PyJson.get res0 "result" (JDict [])) ≫= λ r,
              pure (PyJson.get r "hostname" (JStr "Appareil")) ≫= λ _, mret true
            else
              pure (PyJson.get res0 "msg" (JStr "Erreur inconnue")) ≫= λ _,
              pure (PyJson.get res0 "error_code" (JStr "")) ≫= λ _, mret false
            : M (@gstate W) bool) g') = []) as Hk.
  { intros res0 [|] g'.
    - destruct (PyJson.get _ "result" _) as [e|r]; run_step; [done|].
      by destruct (PyJson.get r "hostname" _).
    - destruct (PyJson.get _ "msg" _) as [e|r]; run_step; [done|].
      by destruct (PyJson.get _ "error_code" _). }
  destruct (handle (gw s1) (GET_mac_filter t)) as [w2 [e|code body]] eqn:Hget.
  { rewrite (run_bind_raise _ _ _ _ _ _ (run_http_raise _ _ _ _ _ Hget)). by left. }
  rewrite (run_bind_ok _ _ _ _ _ _ (run_http _ _ _ _ _ _ Hget)). run_proj.
  destruct body as [res|]; [|by left].
  rewrite json_of_some. run_step.
  destruct (success_of res) as [e|[|]] eqn:Hok; run_step; [by left| |].
  - destruct (PyJson.get res "result" (JList [])) as [e|flt]; run_step; [by left|].
    destruct (filter_has_mac flt (Py.lower mac)) as [e|[|]]; run_step; [by left|by left|].
    right. f_equal. by apply (trace_after_add t mac _ _ Hk).
  - right. f_equal. by apply (trace_after_add t mac _ _ Hk).
Qed.

End EnforcementOnEntries.

#[global] Instance same_connected_refl {W} : Reflexive (@same_connected W).
Proof. by intros g. Qed.

#[global] Instance same_connected_trans {W} : Transitive (@same_connected W).
Proof. intros g1 g2 g3 H12 H23. unfold same_connected in *. congruence. Qed.

Section ConnectedFlag.
Context {W : Type}.
Variable handle : W → request → W * reply.
Variable hmac : string → string → string.
Implicit Types s g : @gstate W.

Lemma flag_http r : keeps same_connected (http handle r).
Proof. intros s. unfold http. by destruct (handle (gw s) r) as [w' [e|code body]]. Qed.

Lemma flag_http_auth tok mk : keeps same_connected (http_auth handle tok mk).
Proof.
  unfold http_auth. destruct tok; try (by apply keeps_same). apply flag_http.
Qed.

Lemma flag_set_session_token t : keeps same_connected (@set_session_token W t).
Proof. by intros s. Qed.

#[local] Hint Extern 0 (keeps _ (http _ _)) => apply flag_http : frame.
#[local] Hint Extern 0 (keeps _ (http_auth _ _ _)) => apply flag_http_auth : frame.
#[local] Hint Extern 0 (keeps _ (set_session_token _)) =>
  apply flag_set_session_token : frame.

Lemma flag_get_new_session_token :
  keeps same_connected (get_new_session_token handle hmac).
Proof.
  unfold get_new_session_token, save_session_token_to_file. repeat frame_step.
Qed.

Lemma flag_is_session_valid : keeps same_connected (is_session_valid handle).
Proof. unfold is_session_valid. repeat frame_step. Qed.

(** A validation that succeeds leaves the flag as it was. *)
Lemma ensure_true_connected g :
  result (ensure_valid_session handle hmac g) = inr true →
  connected (api (final (ensure_valid_session handle hmac g))) = connected (api g).
Proof.
  unfold ensure_valid_session. rewrite run_bind_gets. cbv beta.
  destruct (negb (PyJson.truthy (session_token (api g)))).
  { intros _. apply flag_get_new_session_token. }
  rewrite result_bind, final_bind.
  pose proof (flag_is_session_valid g) as Hv.
  destruct (result (is_session_valid handle g)) as [e|[|]]; [done| |].
  { intros _. exact Hv. }
  rewrite result_bind, final_bind.
  pose proof (flag_get_new_session_token (final (is_session_valid handle g))) as Hn.
  destruct (result (get_new_session_token handle hmac _)) as [e|[|]]; [done| |done].
  intros _. run_proj. unfold same_connected in *. congruence.
Qed.

#[local] Hint Extern 0 (keeps _ (if ?b then _ else _)) => destruct b : frame.

(** A call that returns [True] was made by a connected client, and leaves
    it connected. *)
Lemma block_true_connected mac s :
  result (block_device_by_mac handle hmac mac s) = inr true →
  connected (api (final (block_device_by_mac handle hmac mac s))) = true.
Proof.
  unfold block_device_by_mac. rewrite run_bind_emit. run_proj. run_step.
  destruct (connected (api s)) eqn:Hconn; [|done]. cbn [negb].
  rewrite result_bind, final_bind.
  pose proof (ensure_true_connected s) as Hens.
  destruct (result (ensure_valid_session handle hmac s)) as [e|[|]]; [done| |done].
  cbn [negb]. run_step. intros _.
  set (s1 := final (ensure_valid_session handle hmac s)) in *.
  etrans; [|rewrite <- Hconn; by apply Hens].
  match goal with |- connected (api (final (?m s1))) = _ =>
    assert (keeps same_connected m) as Hk end.
  { repeat frame_step. }
  apply Hk.
Qed.

End ConnectedFlag.

#[global] Instance same_api_refl {W} : Reflexive (@same_api W).
Proof. by intros g. Qed.

#[global] Instance same_api_trans {W} : Transitive (@same_api W).
Proof. intros g1 g2 g3 H12 H23. unfold same_api in *. congruence. Qed.

Section AllowOnEntries.
Context {W : Type}.
Variable handle : W → request → W * reply.
Variable hmac : string → string → string.
Implicit Types s g : @gstate W.

(** The MAC is not listed, or its entry has no usable id: the call ends at
    the fetch. *)
Lemma allow_unlisted_run mac s s1 ev1 t w2 code res flt es :
  connected (api s) = true →
  ensure_valid_session handle hmac s = (inr true, s1, ev1) →
  session_token (api s1) = JStr t →
  handle (gw s1) (GET_mac_filter t) = (w2, Response code (Some res)) →
  success_of res = inr true →
  PyJson.get res "result" (JList []) = inr flt →
  filter_entries flt = Some es →
  PyJson.truthy (entries_id es (Py.lower mac)) = false →
  allow_device_by_mac handle hmac mac s =
    (inr true, mkG (api s1) w2,
     EvCall Allow mac :: ev1 ++ [EvHttp (GET_mac_filter t)]).
Proof.
  intros Hconn Hens Htok Hget Hok Hflt Hes Hid.
  unfold allow_device_by_mac. rewrite run_bind_emit. run_step.
  rewrite Hconn. simpl. rewrite (run_bind_ok _ _ _ _ _ _ Hens). simpl.
  run_step. rewrite Htok.
  erewrite run_try_ok; [reflexivity|].
  unfold http_auth. rewrite (run_bind_ok _ _ _ _ _ _ (run_http _ _ _ _ _ _ Hget)).
  rewrite json_of_some. run_proj. run_step. rewrite Hok. run_step. simpl.
  rewrite Hflt. run_step. rewrite (find_filter_id_entries _ _ _ Hes). run_step.
  rewrite Hid. reflexivity.
Qed.

(** The MAC is listed with an id: the delete request for the id of the
    first matching entry follows the fetch. *)
Lemma allow_listed_run mac s s1 ev1 t w2 code res flt es w3 code' res' :
  connected (api s) = true →
  ensure_valid_session handle hmac s = (inr true, s1, ev1) →
  session_token (api s1) = JStr t →
  handle (gw s1) (GET_mac_filter t) = (w2, Response code (Some res)) →
  success_of res = inr true →
  PyJson.get res "result" (JList []) = inr flt →
  filter_entries flt = Some es →
  PyJson.truthy (entries_id es (Py.lower mac)) = true →
  handle w2 (DELETE_mac_filter t (entries_id es (Py.lower mac))) =
    (w3, Response code' (Some res')) →
  success_of res' = inr true →
  allow_device_by_mac handle hmac mac s =
    (inr true, mkG (api s1) w3,
     EvCall Allow mac :: ev1 ++
       [EvHttp (GET_mac_filter t);
        EvHttp (DELETE_mac_filter t (entries_id es (Py.lower mac)))]).
Proof.
  intros Hconn Hens Htok Hget Hok Hflt Hes Hid Hdel Hok'.
  unfold allow_device_by_mac. rewrite run_bind_emit. run_step.
  rewrite Hconn. simpl. rewrite (run_bind_ok _ _ _ _ _ _ Hens). simpl.
  run_step. rewrite Htok.
  erewrite run_try_ok; [reflexivity|].
  unfold http_auth. rewrite (run_bind_ok _ _ _ _ _ _ (run_http _ _ _ _ _ _ Hget)).
  rewrite json_of_some. run_proj. run_step. rewrite Hok. run_step. simpl.
  rewrite Hflt. run_step. rewrite (find_filter_id_entries _ _ _ Hes). run_step.
  rewrite Hid. cbn [negb].
  rewrite (run_bind_ok _ _ _ _ _ _ (run_http handle _ (mkG (api s1) w2) _ _ _ Hdel)).
  rewrite json_of_some. run_proj. run_step. rewrite Hok'. run_step. reflexivity.
Qed.

Lemma api_http r : keeps same_api (http handle r).
Proof. intros s. unfold http. by destruct (handle (gw s) r) as [w' [e|code body]]. Qed.

Lemma api_http_auth tok mk : keeps same_api (http_auth handle tok mk).
Proof.
  unfold http_auth. destruct tok; try (by apply keeps_same). apply api_http.
Qed.

End AllowOnEntries.

(** ** Blocking twice *)

Section IdempotentBlock.
Context {W : Type}.
Variable handle : W → request → W * reply.
Variable hmac : string → string → string.

(** Which (lower-case) MACs the gateway's filter blocks. *)
Variable in_filter : W → string → bool.

(** What the client relies on: only an add or a delete request changes the
    filter; an add request changes it at most at its own MAC, which it can
    only add, and does add it when it answers with success; a fetch that
    is answered with success lists, in one of the two shapes, exactly the
    MACs of the filter. *)
Hypothesis other_requests_keep : ∀ w r m,
  (∀ tok mac, r ≠ POST_mac_filter tok mac) →
  (∀ tok i, r ≠ DELETE_mac_filter tok i) →
  in_filter (handle w r).1 m = in_filter w m.
Hypothesis add_only_adds : ∀ w tok mac m,
  in_filter (handle w (POST_mac_filter tok mac)).1 m = in_filter w m ∨
  (m = Py.lower mac ∧ in_filter (handle w (POST_mac_filter tok mac)).1 m = true).
Hypothesis add_success_adds : ∀ w tok mac w' code res,
  handle w (POST_mac_filter tok mac) = (w', Response code (Some res)) →
  success_of res = inr true →
  in_filter w' (Py.lower mac) = true.
Hypothesis listing_exact : ∀ w tok w' code res,
  handle w (GET_mac_filter tok) = (w', Response code (Some res)) →
  success_of res = inr true →
  ∃ flt es,
    PyJson.get res "result" (JList []) = inr flt ∧
    filter_entries flt = Some es ∧
    ∀ m, entries_have es m = in_filter w m.

Lemma listing_is_sound w tok w' code res flt target :
  handle w (GET_mac_filter tok) = (w', Response code (Some res)) →
  success_of res = inr true →
  PyJson.get res "result" (JList []) = inr flt →
  filter_has_mac flt target = inr true →
  in_filter w target = true.
Proof.
  intros Hget Hok Hflt Hhas.
  destruct (listing_exact _ _ _ _ _ Hget Hok) as (flt' & es & Hflt' & Hes & Hin).
  rewrite Hflt in Hflt'. injection Hflt' as <-.
  rewrite (filter_has_mac_entries _ _ _ Hes) in Hhas. injection Hhas as Hhas.
  by rewrite <- Hin.
Qed.

(** After a call that returned [True] the MAC is in the filter, and a
    second call finds it there: it ends at its fetch and returns [True]. *)
Lemma block_twice_run mac s :
  let once := block_device_by_mac handle hmac mac s in
  let twice := block_device_by_mac handle hmac mac (final once) in
  filter_at_most_added in_filter (Py.lower mac) s (final once) ∧
  (result once = inr true →
   in_filter (gw (final once)) (Py.lower mac) = true ∧
   (∀ m, in_filter (gw (final twice)) m = in_filter (gw (final once)) m) ∧
   ∀ s1 ev1 t w2 code res,
     ensure_valid_session handle hmac (final once) = (inr true, s1, ev1) →
     session_token (api s1) = JStr t →
     handle (gw s1) (GET_mac_filter t) = (w2, Response code (Some res)) →
     success_of res = inr true →
     twice = (inr true, mkG (api s1) w2,
              EvCall Block mac :: ev1 ++ [EvHttp (GET_mac_filter t)])).
Proof.
  intros once twice.
  destruct (block_membership handle hmac in_filter other_requests_keep add_only_adds
              add_success_adds listing_is_sound mac s) as [Hadded Htwice].
  fold once in Hadded, Htwice. cbv zeta in Htwice. fold twice in Htwice.
  split; [exact Hadded|].
  intros Hres. destruct (Htwice Hres) as [Hin Hsame].
  split; [exact Hin|]. split; [exact Hsame|].
  intros s1 ev1 t w2 code res Hens Htok Hget Hok.
  destruct (listing_exact _ _ _ _ _ Hget Hok) as (flt & es & Hflt & Hes & Hexact).
  eapply block_listed_run; try done.
  + by apply block_true_connected.
  + rewrite Hexact.
    pose proof (keeps_ensure_valid_session handle hmac in_filter other_requests_keep
                  add_only_adds (Py.lower mac) (final once) (Py.lower mac)) as Hk.
    rewrite Hens in Hk. simpl in Hk. destruct Hk as [Hk|[_ Hk]]; [|done].
    by rewrite Hk.
Qed.

End IdempotentBlock.

Section BlockTwice.
Context {W : Type}.
Variable handle : W → request → W * reply.
Variable hmac : string → string → string.

(** C5. A call of [block_device_by_mac] sends an add request only right
    after the fetch of the filter list, and only for its own MAC in upper
    case. With the session validated and the list fetched, in either shape,
    the MAC is searched in it whatever its case: when it is listed the call
    returns [True] at once, without an add request (already blocked); when
    it is not, the add request is sent and the call returns [True] when the
    gateway accepts it (block applied). Against a gateway whose filter
    changes only through add and delete requests, adds what a successful add
    request names and lists exactly what it holds: a call changes the filter
    at most by adding its MAC; once a call has returned [True] the MAC is in
    the filter, a second call leaves the membership of every MAC as the
    first call left it, and, its session validated and its fetch answered,
    it returns [True] after the fetch without an add request. *)
Theorem block_twice_same_membership mac (s : @gstate W) :
  let once := block_device_by_mac handle hmac mac s in
  let twice := block_device_by_mac handle hmac mac (final once) in
  (* the filter is fetched before anything is added *)
  (∀ tok m, EvHttp (POST_mac_filter tok m) ∈ trace once →
     m = Py.upper mac ∧
     ∃ before, trace once =
       before ++ [EvHttp (GET_mac_filter tok); EvHttp (POST_mac_filter tok m)]) ∧
  (* the search ignores case, and both outcomes are reported as success *)
  (∀ s1 ev1 t w2 code res flt es,
     connected (api s) = true →
     ensure_valid_session handle hmac s = (inr true, s1, ev1) →
     session_token (api s1) = JStr t →
     handle (gw s1) (GET_mac_filter t) = (w2, Response code (Some res)) →
     success_of res = inr true →
     PyJson.get res "result" (JList []) = inr flt →
     filter_entries flt = Some es →
     if entries_have es (Py.lower mac) then
       once = (inr true, mkG (api s1) w2,
               EvCall Block mac :: ev1 ++ [EvHttp (GET_mac_filter t)])
     else
       ∀ w3 code' res' d,
         handle w2 (POST_mac_filter t (Py.upper mac)) = (w3, Response code' (Some res')) →
         success_of res' = inr true →
         PyJson.get res' "result" (JDict []) = inr (JDict d) →
         once = (inr true, mkG (api s1) w3,
                 EvCall Block mac :: ev1 ++
                   [EvHttp (GET_mac_filter t);
                    EvHttp (POST_mac_filter t (Py.upper mac))])) ∧
  (* the membership after one call and after two *)
  ∀ in_filter, filter_model handle in_filter →
    filter_at_most_added in_filter (Py.lower mac) s (final once) ∧
    (result once = inr true →
     in_filter (gw (final once)) (Py.lower mac) = true ∧
     (∀ m, in_filter (gw (final twice)) m = in_filter (gw (final once)) m) ∧
     ∀ s1 ev1 t w2 code res,
       ensure_valid_session handle hmac (final once) = (inr true, s1, ev1) →
       session_token (api s1) = JStr t →
       handle (gw s1) (GET_mac_filter t) = (w2, Response code (Some res)) →
       success_of res = inr true →
       twice = (inr true, mkG (api s1) w2,
                EvCall Block mac :: ev1 ++ [EvHttp (GET_mac_filter t)])).
Proof.
  intros once twice. split; [|split].
  - intros tok m Hin.
    destruct (block_requests handle hmac mac s) as (ev1 & tail & Htr & Hev1 & Htail).
    fold once in Htr. rewrite Htr in Hin |- *.
    apply elem_of_cons in Hin as [Hin|Hin]; [done|].
    apply elem_of_app in Hin as [Hin|Hin].
    { exfalso. rewrite Forall_forall in Hev1. specialize (Hev1 _ Hin).
      cbn [tag_of] in Hev1. unfold session_tags, handshake_tags in Hev1. set_solver. }
    destruct Htail as [->|[t [->| ->]]].
    + by apply elem_of_nil in Hin.
    + apply list_elem_of_singleton in Hin. done.
    + apply elem_of_cons in Hin as [Hin|Hin]; [done|].
      apply list_elem_of_singleton in Hin. injection Hin as -> ->.
      split; [done|]. exists (EvCall Block mac :: ev1). by rewrite <- app_comm_cons.
  - intros s1 ev1 t w2 code res flt es Hconn Hens Htok Hget Hok Hflt Hes.
    destruct (entries_have es (Py.lower mac)) eqn:Hhas.
    + by eapply block_listed_run.
    + intros w3 code' res' d Hadd Hok' Hres. by eapply block_unlisted_run.
  - intros in_filter (H1 & H2 & H3 & H4).
    exact (block_twice_run handle hmac in_filter H1 H2 H3 H4 mac s).
Qed.

End BlockTwice.

(** ** The drift check against a gateway that accepts the corrections *)

Lemma entries_id_absent es m : entries_have es m = false → entries_id es m = JNull.
Proof.
  induction es as [|[k i] es IH]; simpl; [done|].
  destruct (String.eqb (Py.lower k) m); [done|exact IH].
Qed.

Section AcceptedCorrections.
Context {W : Type}.
Variable handle : W → request → W * reply.
Variable hmac : string → string → string.

(** The session token that the gateway accepts, and the entries of its
    filter (MAC as stored, and id). *)
Variable t : string.
Variable held : W → list (string * json).

(** The gateway accepts the token whenever it is probed; it lists its
    filter on request; it accepts an add request, after which the MAC is
    held, and a delete request for the id it lists for a MAC, after which
    the MAC is not held; neither changes what is held for another MAC. *)
Hypothesis token_not_empty : t ≠ "".
Hypothesis probe_accepted : ∀ w, ∃ w' res,
  handle w (GET_login_probe t) = (w', Response 200 (Some res)) ∧
  success_of res = inr true ∧ held w' = held w.
Hypothesis filter_listed : ∀ w, ∃ w' code res flt,
  handle w (GET_mac_filter t) = (w', Response code (Some res)) ∧
  success_of res = inr true ∧
  PyJson.get res "result" (JList []) = inr flt ∧
  filter_entries flt = Some (held w) ∧ held w' = held w.
Hypothesis add_accepted : ∀ w mac, ∃ w' code res d,
  handle w (POST_mac_filter t mac) = (w', Response code (Some res)) ∧
  success_of res = inr true ∧
  PyJson.get res "result" (JDict []) = inr (JDict d) ∧
  entries_have (held w') (Py.lower mac) = true ∧
  ∀ m, m ≠ Py.lower mac → entries_have (held w') m = entries_have (held w) m.
Hypothesis delete_accepted : ∀ w m,
  entries_have (held w) m = true →
  PyJson.truthy (entries_id (held w) m) = true ∧
  ∃ w' code res,
    handle w (DELETE_mac_filter t (entries_id (held w) m)) =
      (w', Response code (Some res)) ∧
    success_of res = inr true ∧
    entries_have (held w') m = false ∧
    ∀ m', m' ≠ m → entries_have (held w') m' = entries_have (held w) m'.

Implicit Types g : @gstate W.

(** The client holds the accepted token and is connected. *)
Local Abbreviation in_session g :=
  (session_token (api g) = JStr t ∧ connected (api g) = true).

Lemma ensure_accepted g :
  session_token (api g) = JStr t →
  ∃ w', ensure_valid_session handle hmac g =
          (inr true, mkG (api g) w', [EvHttp (GET_login_probe t)]) ∧
        held w' = held (gw g).
Proof.
  intros Htok. destruct (probe_accepted (gw g)) as (w' & res & Hp & Hok & Hheld).
  exists w'. split; [|done].
  unfold ensure_valid_session. rewrite run_bind_gets. cbv beta. rewrite Htok.
  assert (PyJson.truthy (JStr t) = true) as Htr.
  { simpl. by destruct (String.eqb_spec t ""). }
  rewrite Htr. cbn [negb].
  assert (is_session_valid handle g =
          (inr true, mkG (api g) w', [EvHttp (GET_login_probe t)])) as Hv.
  { unfold is_session_valid. rewrite run_bind_gets. cbv beta. rewrite Htok, Htr.
    cbn [negb]. erewrite run_try_ok; [reflexivity|].
    unfold http_auth. rewrite (run_bind_ok _ _ _ _ _ _ (run_http _ _ _ _ _ _ Hp)).
    cbn [fst]. rewrite Z.eqb_refl. rewrite json_of_some. run_proj. run_step.
    rewrite Hok. run_step. reflexivity. }
  rewrite (run_bind_ok _ _ _ _ _ _ Hv). run_proj. by rewrite app_nil_r.
Qed.

(** A corrective call succeeds, leaves the client as it was, and leaves
    the MAC held (block) or not held (allow), sending the add or delete
    request when that was not yet so; other MACs are not affected. *)
Lemma enforcement_accepted o mac g :
  in_session g →
  let run := enforcement handle hmac o mac g in
  let target := Py.lower mac in
  let asks := match o with
              | Block => EvHttp (POST_mac_filter t (Py.upper mac))
              | Allow => EvHttp (DELETE_mac_filter t (entries_id (held (gw g)) target))
              end in
  let wanted := match o with Block => true | Allow => false end in
  result run = inr true ∧ api (final run) = api g ∧
  entries_have (held (gw (final run))) target = wanted ∧
  (∀ m, m ≠ target →
        entries_have (held (gw (final run))) m = entries_have (held (gw g)) m) ∧
  (entries_have (held (gw g)) target = negb wanted → asks ∈ trace run) ∧
  (entries_have (held (gw g)) target = wanted → asks ∉ trace run).
Proof.
  intros [Htok Hconn]. cbv zeta.
  destruct (ensure_accepted g Htok) as (w1 & Hens & Hheld1).
  destruct (filter_listed w1) as (w2 & code & res & flt & Hget & Hok & Hflt & Hes & Hheld2).
  assert (∀ e, e ∈ [EvCall o mac; EvHttp (GET_login_probe t); EvHttp (GET_mac_filter t)] →
               ∀ m i, e ≠ EvHttp (POST_mac_filter t m) ∧ e ≠ EvHttp (DELETE_mac_filter t i))
    as Hquiet.
  { intros e He m i. set_solver. }
  destruct o; cbn [enforcement].
  - destruct (entries_have (held (gw g)) (Py.lower mac)) eqn:Hhas.
    + rewrite (block_listed_run handle hmac mac g _ _ t w2 code res flt (held w1)
                 Hconn Hens Htok Hget Hok Hflt Hes) by by rewrite Hheld1.
      run_proj. cbn [api gw]. rewrite Hheld2, Hheld1. repeat split; try done.
      intros _ Hin. by destruct (Hquiet _ Hin (Py.upper mac) JNull).
    + destruct (add_accepted w2 (Py.upper mac))
        as (w3 & code' & res' & d & Hadd & Hok' & Hres & Hin & Hothers).
      rewrite (block_unlisted_run handle hmac mac g _ _ t w2 code res flt (held w1)
                 w3 code' res' d Hconn Hens Htok Hget Hok Hflt Hes) by
        (first [done|by rewrite Hheld1]).
      run_proj. cbn [api gw]. rewrite lower_upper in Hin, Hothers. repeat split; try done.
      * intros m Hm. by rewrite (Hothers m Hm), Hheld2, Hheld1.
      * intros _. set_solver.
  - destruct (entries_have (held (gw g)) (Py.lower mac)) eqn:Hhas.
    + rewrite <- Hheld1, <- Hheld2 in Hhas.
      destruct (delete_accepted w2 _ Hhas)
        as (Hid & w3 & code' & res' & Hdel & Hok' & Hout & Hothers).
      rewrite Hheld2 in Hid, Hdel.
      rewrite (allow_listed_run handle hmac mac g _ _ t w2 code res flt (held w1)
                 w3 code' res' Hconn Hens Htok Hget Hok Hflt Hes Hid Hdel Hok').
      run_proj. cbn [api gw]. rewrite Hheld1. repeat split; try done.
      * intros m Hm. by rewrite (Hothers m Hm), Hheld2, Hheld1.
      * intros _. set_solver.
    + rewrite (allow_unlisted_run handle hmac mac g _ _ t w2 code res flt (held w1)
                 Hconn Hens Htok Hget Hok Hflt Hes) by
        (rewrite Hheld1, (entries_id_absent _ _ Hhas); done).
      run_proj. cbn [api gw]. rewrite Hheld2, Hheld1. repeat split; try done.
      intros _ Hin. by destruct (Hquiet _ Hin "" (entries_id (held (gw g)) (Py.lower mac))).
Qed.


#[local] Hint Extern 0 (keeps _ (http_auth _ _ _)) => apply api_http_auth : frame.

Lemma devices_accepted g :
  in_session g →
  in_session (final (get_network_devices handle hmac g)).
Proof.
  intros [Htok Hconn].
  enough (api (final (get_network_devices handle hmac g)) = api g) as ->; [done|].
  unfold get_network_devices. rewrite run_bind_gets. cbv beta. rewrite Hconn. cbn [negb].
  destruct (ensure_accepted g Htok) as (w1 & Hens & _).
  rewrite (run_bind_ok _ _ _ _ _ _ Hens). run_proj. run_step.
  match goal with |- api (final (?m ?s1)) = _ =>
    assert (keeps same_api m) as Hk by repeat frame_step;
    exact (Hk s1) end.
Qed.

(** The turn of a row in the drift check keeps the session, and leaves
    the filter as it is for every MAC but the one of the row. *)
Lemma check_device_accepted states entry g :
  (∀ k, is_Some (states !! k) → Py.lower k = k) →
  in_session g →
  let g' := final (check_device handle hmac states entry g) in
  in_session g' ∧
  ∀ m, m ≠ entry.1 → entries_have (held (gw g')) m = entries_have (held (gw g)) m.
Proof.
  intros Hkeys Hg. cbv zeta. destruct entry as [mac db_status]. unfold check_device.
  destruct (states !! mac) as [current_access|] eqn:Hacc; [|done].
  destruct db_status as [st|]; [|done].
  assert (Py.lower mac = mac) as Hlow by (apply Hkeys; by rewrite Hacc).
  assert (∀ o, let g' := final ((emit (EvDriftWarning o mac);;
                                 _ ← enforcement handle hmac o mac; mret tt) g) in
               in_session g' ∧
               ∀ m, m ≠ mac →
                    entries_have (held (gw g')) m = entries_have (held (gw g)) m) as Hturn.
  { intros o. cbv zeta. rewrite run_bind_emit. run_proj.
    destruct (enforcement_accepted o mac g Hg) as (Hr & Ha & _ & Hothers & _).
    cbv zeta in *. rewrite final_bind, Hr. run_proj. rewrite Ha, Hlow in *. done. }
  destruct (negb _); [|done].
  destruct (_ && _); [exact (Hturn Block)|].
  destruct (_ && _); [exact (Hturn Allow)|done].
Qed.

(** The turn of a row whose status the gateway's report contradicts. *)
Lemma check_device_drift states mac st g :
  states !! mac = Some (JBool (banned_or_quarantine st)) →
  let o := if banned_or_quarantine st then Block else Allow in
  let call := enforcement handle hmac o mac g in
  trace (check_device handle hmac states (mac, Some st) g) =
    EvDriftWarning o mac :: trace call ∧
  final (check_device handle hmac states (mac, Some st) g) = final call.
Proof.
  intros Hacc. cbv zeta. unfold check_device. rewrite Hacc.
  destruct (banned_or_quarantine st); simpl;
    rewrite run_bind_emit; run_proj; rewrite trace_bind, final_bind.
  - destruct (total_block_device_by_mac handle hmac mac g) as [ok ->].
    run_proj. by rewrite app_nil_r.
  - destruct (total_allow_device_by_mac handle hmac mac g) as [ok ->].
    run_proj. by rewrite app_nil_r.
Qed.

(** The corrective call follows the warning, succeeds, and asks the
    gateway for the change unless the filter already is as the status
    wants it; when the check ends the filter holds the MAC, or no longer
    holds it. *)
Lemma accepted_drift_run (s : @lstate W) devices g1 ev1 states mac r st :
  connected (api (fbx s)) = true →
  session_token (api (fbx s)) = JStr t →
  get_network_devices handle hmac (fbx s) = (inr devices, g1, ev1) →
  PyJson.truthy devices = true →
  build_states (iter_devices devices) ∅ = inr states →
  db s !! mac = Some r → status r = Some st →
  states !! mac = Some (JBool (banned_or_quarantine st)) →
  let run := check_status_changes handle hmac s in
  let o := if banned_or_quarantine st then Block else Allow in
  (∃ before g after,
     let call := enforcement handle hmac o mac g in
     let asks := match o with
                 | Block => EvHttp (POST_mac_filter t (Py.upper mac))
                 | Allow => EvHttp (DELETE_mac_filter t (entries_id (held (gw g)) mac))
                 end in
     trace run = before ++ EvDriftWarning o mac :: trace call ++ after ∧
     result call = inr true ∧
     (entries_have (held (gw g)) mac = negb (banned_or_quarantine st) →
      asks ∈ trace call) ∧
     entries_have (held (gw (final call))) mac = banned_or_quarantine st) ∧
  entries_have (held (gw (fbx (final run)))) mac = banned_or_quarantine st.
Proof.
  intros Hconn Htok Hgnd Htruthy Hstates Hrow Hst Hacc run o.
  assert (∀ k, is_Some (states !! k) → Py.lower k = k) as Hkeys.
  { apply (build_states_keys _ _ _ Hstates). intros k [x Hk]. by rewrite lookup_empty in Hk. }
  assert (Py.lower mac = mac) as Hlow by (apply Hkeys; by rewrite Hacc).
  (* the rows, around the one of [mac] *)
  assert ((mac, r) ∈ map_to_list (db s)) as Hin by by apply elem_of_map_to_list.
  apply list_elem_of_split in Hin as (ma & mb & Hsplit).
  pose proof (NoDup_fst_map_to_list (db s)) as Hnd.
  rewrite Hsplit, fmap_app, fmap_cons in Hnd.
  apply NoDup_app in Hnd as (_ & Hma & Hnd). apply NoDup_cons in Hnd as [Hmb _].
  simpl in Hma, Hmb.
  set (f := λ kv : string * row, (kv.1, status kv.2)).
  assert (db_devices_of (db s) = (f <$> ma) ++ (mac, Some st) :: (f <$> mb)) as Hl.
  { unfold db_devices_of. fold f. rewrite Hsplit, fmap_app, fmap_cons.
    unfold f at 2. simpl. by rewrite Hst. }
  assert (mac ∉ (f <$> mb).*1) as Hqb by by rewrite <- list_fmap_compose.
  (* the run of the check *)
  set (loop := for_each (check_device handle hmac states) (db_devices_of (db s)) g1).
  destruct (total_run _ g1 (total_for_each (check_device handle hmac states)
              (db_devices_of (db s)) (total_check_device handle hmac states)))
    as [[] Hloop].
  assert (check_status_changes handle hmac s =
          (inr tt, mkL (final loop) (db s) (clock_reads s) (status_check_counter s),
           ev1 ++ trace loop)) as Hrun.
  { unfold check_status_changes. rewrite run_bind_gets. unfold id. rewrite Hconn.
    cbn [negb]. rewrite run_lift.
    erewrite run_try_ok; [reflexivity|].
    rewrite (run_bind_ok _ _ _ _ _ _ Hgnd). rewrite Htruthy. cbn [negb].
    rewrite Hstates. run_step. rewrite Hloop. reflexivity. }
  subst run. rewrite Hrun. run_proj. cbn [fbx].
  (* the states of the client along the rows *)
  assert (in_session g1) as Hg1.
  { replace g1 with (final (get_network_devices handle hmac (fbx s)))
      by by rewrite Hgnd. by apply devices_accepted. }
  destruct (for_each_around (check_device handle hmac states) (f <$> ma)
              (mac, Some st) (f <$> mb) g1 (total_check_device handle hmac states))
    as [Htrace Hfinal].
  set (ga := final (for_each (check_device handle hmac states) (f <$> ma) g1)) in *.
  assert (in_session ga) as Hga.
  { apply (for_each_final_inv (λ g, in_session g)); [|done].
    intros x g _ Hg. by apply (check_device_accepted states x g Hkeys Hg). }
  destruct (check_device_drift states mac st ga Hacc) as [Hturn Hturn'].
  fold o in Hturn, Hturn'. cbv zeta in Hturn, Hturn'.
  destruct (enforcement_accepted o mac ga Hga) as (Hr & Ha & Hwant & _ & Hasks & _).
  cbv zeta in Hr, Ha, Hwant, Hasks. rewrite Hlow in Hwant, Hasks.
  assert (match o with Block => true | Allow => false end = banned_or_quarantine st)
    as Hwanted by (subst o; by destruct (banned_or_quarantine st)).
  rewrite Hwanted in Hwant, Hasks.
  split.
  - unfold loop. rewrite Hl, Htrace, Hturn.
    exists (ev1 ++ trace (for_each (check_device handle hmac states) (f <$> ma) g1)), ga.
    eexists. cbv zeta. split; [by rewrite <- app_assoc|]. done.
  - unfold loop. rewrite Hl, Hfinal, Hturn'.
    apply (for_each_final_inv
             (λ g, in_session g ∧
                   entries_have (held (gw g)) mac = banned_or_quarantine st)).
    + intros x g Hx [Hg Hm].
      destruct (check_device_accepted states x g Hkeys Hg) as [Hg' Hothers].
      split; [exact Hg'|]. cbv zeta in Hothers. rewrite Hothers; [done|].
      intros ->. apply Hqb. by apply (list_elem_of_fmap_2 fst) in Hx.
    + split; [|done]. by rewrite Ha.
Qed.

End AcceptedCorrections.

Section DriftCorrection.
Context {W : Type}.
Variable handle : W → request → W * reply.
Variable hmac : string → string → string.

Lemma calm_check_device states entry :
  emits (λ e, ¬ is_alert e) (check_device handle hmac states entry).
Proof.
  destruct entry as [x db_status]. unfold check_device.
  assert (∀ (L : list tag) (m : M (@gstate W) bool),
            shaped L m → (∀ mac, TBlockedAlert mac ∉ L) →
            (∀ mac, TNewDeviceAlert mac ∉ L) →
            emits (λ e, ¬ is_alert e) m) as Hshape.
  { intros L m Hm H1 H2. apply (shaped_emits _ _ _ Hm).
    intros e He Ha. destruct e; try done; cbn [tag_of] in He.
    - by apply (H1 mac).
    - by apply (H2 mac). }
  destruct (states !! x) as [current_access|]; [|by apply emits_silent, silent_ret].
  destruct db_status as [st|]; [|by apply emits_silent, silent_ret].
  destruct (negb _); [|by apply emits_silent, silent_ret].
  destruct (_ && _).
  { split_binds; [apply emits_emit; by intros []| |by apply emits_silent, silent_ret].
    apply (Hshape _ _ (shaped_block_device_by_mac handle hmac x));
      intros; unfold block_tags, session_tags, handshake_tags; set_solver. }
  destruct (_ && _); [|by apply emits_silent, silent_ret].
  split_binds; [apply emits_emit; by intros []| |by apply emits_silent, silent_ret].
  apply (Hshape _ _ (shaped_allow_device_by_mac handle hmac x));
    intros; unfold allow_tags, session_tags, handshake_tags; set_solver.
Qed.

Lemma calm_check_status_changes (s : @lstate W) :
  ∀ e, e ∈ trace (check_status_changes handle hmac s) → ¬ is_alert e.
Proof.
  apply Forall_forall. unfold check_status_changes. rewrite run_bind_gets. unfold id.
  destruct (negb (connected (api (fbx s)))); [constructor|].
  rewrite run_lift. run_proj.
  match goal with |- Forall _ (trace (?m (fbx s))) =>
    enough (emits (λ e, ¬ is_alert e) m) as Hm by apply Hm end.
  apply emits_try; [|intros _; apply emits_emit; by intros []].
  apply emits_bind.
  { apply (shaped_emits _ _ _ (shaped_get_network_devices handle hmac)).
    intros e He' Hal. destruct e; try done; cbn [tag_of] in He';
      unfold devices_tags, session_tags, handshake_tags in He'; set_solver. }
  intros devices. destruct (negb _); [by apply emits_silent, silent_ret|].
  apply emits_bind; [by apply emits_silent, silent_pure|].
  intros states. apply emits_for_each. intros x _. apply calm_check_device.
Qed.

(** C4. The client is connected, the gateway lists its devices, and for a
    registry row the reported access flag contradicts the status: allowed
    ([True]) for a banned or quarantined device, blocked ([False]) for an
    authorized one. Then [check_status_changes] logs exactly one drift
    warning for that MAC and makes exactly one corrective call for it
    ([block_device_by_mac], respectively [allow_device_by_mac]) and no call
    of the opposite kind; it ends normally, without its error line, leaves
    the registry as it was and sends no alert. Against a gateway that
    accepts the session token of the client and its requests, the corrective
    call follows the warning and returns [True]; it sends the add request
    (respectively the delete request for the listed id) when the filter does
    not yet hold (respectively still holds) the MAC; and when the check ends
    the filter holds the MAC of the banned or quarantined device, and no
    longer holds the MAC of the authorized one. *)
Theorem drift_corrected_once (s : @lstate W) devices g1 ev1 states mac r st :
  connected (api (fbx s)) = true →
  get_network_devices handle hmac (fbx s) = (inr devices, g1, ev1) →
  PyJson.truthy devices = true →
  build_states (iter_devices devices) ∅ = inr states →
  db s !! mac = Some r → status r = Some st →
  states !! mac = Some (JBool (banned_or_quarantine st)) →
  let run := check_status_changes handle hmac s in
  let o := if banned_or_quarantine st then Block else Allow in
  let o' := if banned_or_quarantine st then Allow else Block in
  (* one warning and one corrective call, of the right kind *)
  result run = inr tt ∧ db (final run) = db s ∧
  count_tag (TDrift o mac) (trace run) = 1%nat ∧
  count_tag (TCall o mac) (trace run) = 1%nat ∧
  count_tag (TCall o' mac) (trace run) = 0%nat ∧
  count_tag TCheckError (trace run) = 0%nat ∧
  (* nothing is escalated *)
  (∀ e, e ∈ trace run → ¬ is_alert e) ∧
  (* against a gateway that accepts the corrections *)
  ∀ t held,
    accepts_corrections handle t held →
    session_token (api (fbx s)) = JStr t →
    (∃ before g after,
       let call := enforcement handle hmac o mac g in
       let asks := match o with
                   | Block => EvHttp (POST_mac_filter t (Py.upper mac))
                   | Allow => EvHttp (DELETE_mac_filter t (entries_id (held (gw g)) mac))
                   end in
       trace run = before ++ EvDriftWarning o mac :: trace call ++ after ∧
       result call = inr true ∧
       (entries_have (held (gw g)) mac = negb (banned_or_quarantine st) →
        asks ∈ trace call) ∧
       entries_have (held (gw (final call))) mac = banned_or_quarantine st) ∧
    entries_have (held (gw (fbx (final run)))) mac = banned_or_quarantine st.
Proof.
  intros Hconn Hgnd Htruthy Hstates Hrow Hst Hacc run o o'.
  destruct (drift_counts handle hmac s devices g1 ev1 states mac r st
              Hconn Hgnd Htruthy Hstates Hrow Hst Hacc)
    as (Hres & Hdb & Hc1 & Hc2 & Hc3 & Hc4).
  do 6 (split; [assumption|]).
  split; [apply calm_check_status_changes|].
  intros t held (H0 & H1 & H2 & H3 & H4) Htok.
  exact (accepted_drift_run handle hmac t held H0 H1 H2 H3 H4 s devices g1 ev1 states
           mac r st Hconn Htok Hgnd Htruthy Hstates Hrow Hst Hacc).
Qed.

End DriftCorrection.

(** ** The order of discovery, and the failed handshake *)

Section DiscoveryOrder.
Context {W : Type}.
Variable handle_boot : W → boot_request → W * reply.
Variable py_repr : json → string.
Implicit Types b : @bstate W.

Lemma probed_answer base_url b :
  (probed handle_boot py_repr base_url b).1 =
    answers_well (handle_boot (gw (client b)) (GET_api_version base_url)).2 ∧
  gw (client (probed handle_boot py_repr base_url b).2) =
    (handle_boot (gw (client b)) (GET_api_version base_url)).1.
Proof.
  unfold probed, answers_well.
  destruct (handle_boot (gw (client b)) (GET_api_version base_url)) as [w' rp].
  destruct rp as [e|code [body|]]; [done| |done].
  destruct body as [| | | | |info]; try done.
  cbv zeta. cbn [fst snd]. by destruct (_ && _).
Qed.

Lemma probe_urls_run urls b :
  let run := probe_urls handle_boot py_repr urls b in
  let b' := final run in
  let w := gw (client b) in
  trace run = [] ∧
  api (client b') = api (client b) ∧ files b' = files b ∧
  token_file (setup b') = token_file (setup b) ∧
  tokens_data (setup b') = tokens_data (setup b) ∧
  ∃ refused later,
    urls = refused ++ later ∧
    all_refused handle_boot refused w = true ∧
    match later with
    | [] =>
        result run = inr false ∧ setup b' = setup b ∧
        sent b' = sent b ++ (GET_api_version <$> urls) ∧
        gw (client b') = world_after handle_boot refused w
    | base_url :: _ =>
        result run = inr true ∧
        sent b' = sent b ++ (GET_api_version <$> refused ++ [base_url]) ∧
        ∃ info version,
          handle_boot (world_after handle_boot refused w) (GET_api_version base_url) =
            (gw (client b'), Response 200 (Some info)) ∧
          PyJson.get info "api_version" JNull = inr version ∧
          PyJson.truthy version = true ∧
          freebox_url (setup b') = base_url ∧
          api_version (setup b') =
            ("v" ++ hd "" (Py.split_on "." (py_str py_repr version)))%string
    end.
Proof.
  cbv zeta. revert b. induction urls as [|base_url urls IH]; intros b.
  { simpl. do 5 (split; [done|]). exists [], [].
    split; [done|]. split; [done|]. by rewrite app_nil_r. }
  cbn [probe_urls].
  rewrite (run_bind_ok _ _ _ _ _ _ (probe_one_run handle_boot py_repr base_url b)).
  destruct (probed_frame handle_boot py_repr base_url b)
    as (Ha & Hf & Htf & Htd & Hn & Hs & Hfalse & Htrue).
  destruct (probed_answer base_url b) as [Hans Hgw].
  cbv zeta in *.
  destruct (probed handle_boot py_repr base_url b) as [[|] b1]; cbn [fst snd] in *.
  - run_proj. repeat split; try done.
    exists [], (base_url :: urls). split; [done|]. split; [done|].
    split; [done|]. split; [done|].
    destruct (Htrue eq_refl) as (info & version & H1 & H2 & H3 & H4 & H5).
    by exists info, version.
  - destruct (IH b1) as (Ht & Ha' & Hf' & Htf' & Htd' & refused & later & Hu & Hall & Hcase).
    run_proj. rewrite Ht, Ha', Hf', Htf', Htd'. repeat split; try done.
    exists (base_url :: refused), later. split; [by rewrite Hu|].
    split.
    { cbn [all_refused]. rewrite <- Hans. cbn [negb andb]. by rewrite <- Hgw. }
    cbn [world_after]. rewrite <- Hgw.
    destruct later as [|u later].
    + destruct Hcase as (Hr & Hset & Hsent & Hw). repeat split; try done.
      * rewrite Hset. by apply Hfalse.
      * rewrite Hsent, Hs. cbn [fmap list_fmap]. by rewrite <- app_assoc.
    + destruct Hcase as (Hr & Hsent & Hrest). repeat split; try done.
      rewrite Hsent, Hs. cbn [fmap list_fmap app]. by rewrite <- app_assoc.
Qed.

(** X22. get_api_version asks the candidate addresses in their order and
    keeps the first one that answers with status 200 and a JSON object with
    a truthy api_version: every address asked before it did not answer so
    and the later ones are not asked; it returns True, that address becomes
    the base URL and the API version becomes v followed by the part of the
    version before its first dot. When no address answers so, all three were
    asked, the result is False and URL and version are unchanged. Tokens,
    files and the credential attributes are never touched. *)
Theorem discovery_keeps_first_answer b :
  let run := get_api_version handle_boot py_repr b in
  let b' := final run in
  let w := gw (client b) in
  trace run = [] ∧
  api (client b') = api (client b) ∧ files b' = files b ∧
  token_file (setup b') = token_file (setup b) ∧
  tokens_data (setup b') = tokens_data (setup b) ∧
  ∃ refused later,
    test_urls = refused ++ later ∧
    all_refused handle_boot refused w = true ∧
    match later with
    | [] =>
        result run = inr false ∧ setup b' = setup b ∧
        sent b' = sent b ++ (GET_api_version <$> test_urls) ∧
        gw (client b') = world_after handle_boot refused w
    | base_url :: _ =>
        result run = inr true ∧
        sent b' = sent b ++ (GET_api_version <$> refused ++ [base_url]) ∧
        ∃ info version,
          handle_boot (world_after handle_boot refused w) (GET_api_version base_url) =
            (gw (client b'), Response 200 (Some info)) ∧
          PyJson.get info "api_version" JNull = inr version ∧
          PyJson.truthy version = true ∧
          freebox_url (setup b') = base_url ∧
          api_version (setup b') =
            ("v" ++ hd "" (Py.split_on "." (py_str py_repr version)))%string
    end.
Proof. exact (probe_urls_run test_urls b). Qed.

End DiscoveryOrder.

Section FailedHandshake.
Context {W : Type}.
Variable handle : W → request → W * reply.
Variable hmac : string → string → string.
Variable can_write : string → bool.
Variable clock : nat → Z.
Variable isoformat : Z → string.
Implicit Types b : @bstate W.

Lemma replay_without_save ev b :
  (∀ t, EvSaveToken t ∉ ev) →
  final (for_each (perform can_write clock isoformat) ev b) = b.
Proof.
  revert b. induction ev as [|e ev IH]; intros b Hno; [done|].
  cbn [for_each]. rewrite final_bind.
  assert (perform can_write clock isoformat e b = (inr tt, b, [])) as ->.
  { destruct e; try done. exfalso. apply (Hno tok). left. }
  run_proj. apply IH. intros t Hin. apply (Hno t). by right.
Qed.

(** X11. With the credentials held as an object (as after
    load_tokens_from_file returned True), whenever get_new_session_token
    returns False the write-back of the token was not called: no file and no
    attribute of the credential handling is changed, and the session token
    is the one held before, or it was replaced by a value that cannot be
    sliced (the failure then came from logging the prefix of the new token). *)
Theorem failed_handshake_saves_nothing b :
  holds_object b →
  let run := lift_client can_write clock isoformat (get_new_session_token handle hmac) b in
  result run = inr false →
  (∀ t, EvSaveToken t ∉ trace run) ∧
  files (final run) = files b ∧ setup (final run) = setup b ∧
  (session_token (api (client (final run))) = session_token (api (client b)) ∨
   PyJson.sliceable (session_token (api (client (final run)))) = inl OtherError).
Proof.
  intros _. cbv zeta. unfold lift_client.
  pose proof (failed_handshake_run handle hmac (client b)) as Hrun.
  cbv zeta in Hrun.
  destruct (get_new_session_token handle hmac (client b)) as [[r g'] ev].
  run_proj. simpl in Hrun. intros ->. destruct (Hrun eq_refl) as [Hno Htok].
  rewrite (replay_without_save ev _ Hno). by repeat split.
Qed.

End FailedHandshake.

(** ** The reference gateways *)

Lemma lower_app a b : Py.lower (a ++ b) = (Py.lower a ++ Py.lower b)%string.
Proof. induction a as [|c a IH]; simpl; [done|]. by rewrite IH. Qed.

Lemma length_app (a b : string) :
  String.length (a ++ b) = (String.length a + String.length b)%nat.
Proof. induction a as [|c a IH]; simpl; [done|]. by rewrite IH. Qed.

Lemma app_inv_tail (a b c : string) : (a ++ c = b ++ c)%string → a = b.
Proof.
  revert b. induction a as [|x a IH]; intros [|y b] H; simpl in H.
  - done.
  - apply (f_equal String.length) in H. rewrite !length_app in H. simpl in H. lia.
  - apply (f_equal String.length) in H. rewrite !length_app in H. simpl in H. lia.
  - injection H as -> H. f_equal. by apply IH.
Qed.

Lemma listed_as_lower m1 x :
  listed_as (JStr (m1 ++ "-blacklist")) x = String.eqb (Py.lower m1) (Py.lower x).
Proof.
  unfold listed_as. rewrite !lower_app.
  destruct (String.eqb_spec (Py.lower m1) (Py.lower x)) as [->|Hne].
  - apply String.eqb_refl.
  - apply String.eqb_neq. intros H. by apply app_inv_tail in H.
Qed.

Lemma home_listing w : entries_of_list (entry_of_mac <$> w) = Some (home_entries w).
Proof.
  induction w as [|m w IH]; [done|].
  cbn [fmap list_fmap entries_of_list entry_of_mac PyJson.dict_lookup String.eqb Ascii.eqb
       Bool.eqb]. simpl. unfold home_entries in IH. by rewrite IH.
Qed.

Lemma home_entries_id w m :
  entries_have (home_entries w) m = true →
  ∃ m1, entries_id (home_entries w) m = JStr (m1 ++ "-blacklist") ∧ Py.lower m1 = m.
Proof.
  induction w as [|x w IH]; simpl; [done|].
  destruct (String.eqb_spec (Py.lower x) m) as [<-|Hne]; [by exists x|exact IH].
Qed.

Lemma home_delete w m1 m :
  entries_have (home_entries (filter (λ x, negb (listed_as (JStr (m1 ++ "-blacklist")) x)) w)) m
  = if String.eqb (Py.lower m1) m then false else entries_have (home_entries w) m.
Proof.
  induction w as [|x w IH]; [by destruct (String.eqb _ _)|].
  rewrite filter_cons.
  destruct (decide (negb (listed_as (JStr (m1 ++ "-blacklist")) x))) as [Hd|Hd];
    rewrite listed_as_lower in Hd.
  - assert (Py.lower m1 ≠ Py.lower x) as Hx.
    { intros Heq. rewrite Heq, String.eqb_refl in Hd. done. }
    change (entries_have (home_entries (x :: ?l)) m)
      with (if String.eqb (Py.lower x) m then true else entries_have (home_entries l) m).
    rewrite IH. destruct (String.eqb_spec (Py.lower x) m) as [<-|Hm]; [|done].
    by rewrite (proj2 (String.eqb_neq _ _) Hx).
  - assert (Py.lower m1 = Py.lower x) as Hx.
    { destruct (String.eqb_spec (Py.lower m1) (Py.lower x)); [done|]. by destruct Hd. }
    rewrite IH.
    change (entries_have (home_entries (x :: w)) m)
      with (if String.eqb (Py.lower x) m then true else entries_have (home_entries w) m).
    rewrite <- Hx. by destruct (String.eqb (Py.lower m1) m).
Qed.

Section HomeGateway.
Variable devices : json.
Variable t : string.

Lemma home_probe_accepted (w : list string) : ∃ w' res,
  home_gateway devices w (GET_login_probe t) = (w', Response 200 (Some res)) ∧
  success_of res = inr true ∧ home_entries w' = home_entries w.
Proof. by exists w, ok_body. Qed.

Lemma home_filter_listed (w : list string) : ∃ w' code res flt,
  home_gateway devices w (GET_mac_filter t) = (w', Response code (Some res)) ∧
  success_of res = inr true ∧
  PyJson.get res "result" (JList []) = inr flt ∧
  filter_entries flt = Some (home_entries w) ∧ home_entries w' = home_entries w.
Proof.
  exists w, 200%Z, (filter_body (JList (entry_of_mac <$> w))), (JList (entry_of_mac <$> w)).
  repeat split; try done. apply home_listing.
Qed.

Lemma home_add_accepted (w : list string) mac : ∃ w' code res d,
  home_gateway devices w (POST_mac_filter t mac) = (w', Response code (Some res)) ∧
  success_of res = inr true ∧
  PyJson.get res "result" (JDict []) = inr (JDict d) ∧
  entries_have (home_entries w') (Py.lower mac) = true ∧
  ∀ m, m ≠ Py.lower mac →
       entries_have (home_entries w') m = entries_have (home_entries w) m.
Proof.
  exists (mac :: w), 200%Z, (filter_body (entry_of_mac mac)).
  eexists. split; [done|]. split; [done|]. split; [reflexivity|]. simpl.
  rewrite String.eqb_refl. split; [done|]. intros m Hm.
  by destruct (String.eqb_spec (Py.lower mac) m) as [<-|_].
Qed.

Lemma home_delete_accepted (w : list string) m :
  entries_have (home_entries w) m = true →
  PyJson.truthy (entries_id (home_entries w) m) = true ∧
  ∃ w' code res,
    home_gateway devices w (DELETE_mac_filter t (entries_id (home_entries w) m)) =
      (w', Response code (Some res)) ∧
    success_of res = inr true ∧
    entries_have (home_entries w') m = false ∧
    ∀ m', m' ≠ m → entries_have (home_entries w') m' = entries_have (home_entries w) m'.
Proof.
  intros Hhas. destruct (home_entries_id w m Hhas) as (m1 & -> & Hm1).
  split; [by destruct m1|].
  eexists _, 200%Z, ok_body. split; [reflexivity|]. split; [done|].
  split.
  - rewrite home_delete, Hm1. by rewrite String.eqb_refl.
  - intros m' Hm'. rewrite home_delete, Hm1.
    by destruct (String.eqb_spec m m') as [<-|_].
Qed.

End HomeGateway.

Lemma filter_gateway_listing_exact w tok w' code res :
  filter_gateway w (GET_mac_filter tok) = (w', Response code (Some res)) →
  success_of res = inr true →
  ∃ flt es,
    PyJson.get res "result" (JList []) = inr flt ∧
    filter_entries flt = Some es ∧
    ∀ m, entries_have es m = gateway_blocks w m.
Proof.
  intros [= <- <- <-] _.
  exists (JList (entry_of_mac <$> w)), (home_entries w).
  split; [done|]. split; [apply home_listing|].
  intros m. induction w as [|x w IH]; [done|]. simpl.
  destruct (String.eqb (Py.lower x) m); [done|exact IH].
Qed.

Lemma filter_gateway_model : filter_model filter_gateway gateway_blocks.
Proof.
  split; [exact filter_gateway_other|]. split; [exact filter_gateway_add_only|].
  split; [exact filter_gateway_add_success|exact filter_gateway_listing_exact].
Qed.

Lemma home_gateway_accepts devices t :
  t ≠ "" → accepts_corrections (home_gateway devices) t home_entries.
Proof.
  intros Ht. split; [exact Ht|]. split; [apply home_probe_accepted|].
  split; [apply home_filter_listed|]. split; [apply home_add_accepted|].
  apply home_delete_accepted.
Qed.

(** ** Concrete runs against the reference gateways *)

Lemma block_twice_same_membership_witness :
  let s := mkG (mkApi (JStr "tok") (JStr "secret") true) ["AA:BB:CC:DD:EE:02"] in
  let once := block_device_by_mac filter_gateway no_hmac "aa:bb:cc:dd:ee:01" s in
  let twice := block_device_by_mac filter_gateway no_hmac "aa:bb:cc:dd:ee:01" (final once) in
  gateway_blocks (gw (final once)) "aa:bb:cc:dd:ee:01" = true ∧
  (∀ m, gateway_blocks (gw (final twice)) m = gateway_blocks (gw (final once)) m) ∧
  twice = (inr true, final once,
           [EvCall Block "aa:bb:cc:dd:ee:01"; EvHttp (GET_login_probe "tok");
            EvHttp (GET_mac_filter "tok")]).
Proof.
  intros s once twice.
  destruct (proj2 (proj2 (proj2
              (block_twice_same_membership filter_gateway no_hmac
                 "aa:bb:cc:dd:ee:01" s)) gateway_blocks filter_gateway_model))
    as (Hin & Hsame & Htwice).
  { vm_compute. reflexivity. }
  split; [exact Hin|]. split; [exact Hsame|].
  apply (Htwice (final once) [EvHttp (GET_login_probe "tok")] "tok" (gw (final once)) 200%Z
           (filter_body (JList (entry_of_mac <$> gw (final once)))));
    vm_compute; reflexivity.
Defined.

Lemma drift_corrected_once_witness :
  let run := check_status_changes (home_gateway (JList [phone])) no_hmac drifted_home in
  count_tag (TCall Block "aa:bb:cc:dd:ee:01") (trace run) = 1%nat ∧
  entries_have (home_entries (gw (fbx (final run)))) "aa:bb:cc:dd:ee:01" = true.
Proof.
  destruct (drift_corrected_once (home_gateway (JList [phone])) no_hmac
              drifted_home (JList [phone])
              (mkG (mkApi (JStr "tok") (JStr "secret") true) [])
              [EvHttp (GET_login_probe "tok"); EvHttp (GET_lan_browser "tok")]
              (<["aa:bb:cc:dd:ee:01" := JBool true]> ∅)
              "aa:bb:cc:dd:ee:01" sample_row Banned)
    as (_ & _ & _ & Hcall & _ & _ & _ & Hgateway).
  - reflexivity.
  - vm_compute. reflexivity.
  - reflexivity.
  - vm_compute. reflexivity.
  - vm_compute. reflexivity.
  - reflexivity.
  - vm_compute. reflexivity.
  - split; [exact Hcall|].
    apply (Hgateway "tok" home_entries); [|reflexivity].
    apply home_gateway_accepts. discriminate.
Defined.

Lemma failed_handshake_saves_nothing_witness :
  let b := loaded_object (valid_client [Response 200 (Some challenge_body);
                                        Response 200 (Some (session_body JNull))]) in
  let run := lift_client every_path tick stamp (get_new_session_token scripted no_hmac) b in
  files (final run) = files b ∧ setup (final run) = setup b.
Proof.
  destruct (failed_handshake_saves_nothing scripted no_hmac every_path tick stamp
              (loaded_object (valid_client [Response 200 (Some challenge_body);
                                            Response 200 (Some (session_body JNull))])))
    as (_ & Hf & Hs & _).
  - by exists stored_credentials.
  - reflexivity.
  - split; [exact Hf|exact Hs].
Defined.
